(** * Task cancellation and session bookkeeping of the OmniTool agent worker

    A shallow embedding of [omnitool/gradio/agentic_rpc.py] (the stop handler,
    the RPC instruction handler and its output callback) and of
    [omnitool/gradio/loop.py] (the agent loop [sampling_loop_sync]), followed
    by the properties of the cancellation protocol, the session registry and
    the status publications.

    Conventions of the embedding.
    - Python dictionaries with a fixed set of keys are records; dictionaries
      used as maps are [gmap]s, except [active_sessions], whose iteration
      order decides the order of publications and which is an
      insertion-ordered association list.
    - Mutable objects that are shared by reference (the per-request
      cancellation token) live in a heap and are named by their address.
    - Text is Unicode, held in UTF-8. [str.strip], [\s], [\w] and
      [str.upper] are written out for ASCII characters and follow the
      Unicode database of the interpreter, a parameter of the
      development, for the others.
    - Clock readings ([datetime.now()]) and log lines are left out: no
      control flow depends on them.
    - The external collaborators (message bus, screen parser, model clients,
      executor, HTTP probe, JSON parser, disk) are parameters of the
      development. Creating them (the connection manager, the clients)
      does not raise.
    - The stop handler runs on the thread of the HTTP server. A stop
      request is handled as a whole, and the agent loop and its driver
      read the shared flags only in their checks: the requests that came
      in since the previous check are handled just before a check.
    - One instruction is handled at a time. The Deferred of the agent loop
      delivers its result at the first [yield generator] of the driver. *)

From stdpp Require Import base option list gmap strings.
From Stdlib Require Import Ascii.

(** ** Python values *)

(** A key of a JSON request: missing, [null], or present with a value. *)
Inductive field (A : Type) : Type :=
| Absent
| Null
| Given (a : A).
Arguments Absent {A}.
Arguments Null {A}.
Arguments Given {A} a.

(** [msg.get(k)]: [None] when the key is missing or null. *)
Definition get {A} (f : field A) : option A :=
  match f with Given a => Some a | _ => None end.

(** [msg.get(k, d)]: the default only replaces a missing key. *)
Definition get_default {A} (f : field A) (d : A) : option A :=
  match f with Absent => Some d | Null => None | Given a => Some a end.

(** Truthiness of an optional string: [None] and [""] are falsy. *)
Definition truthy (o : option string) : bool :=
  match o with Some (String _ _) => true | _ => false end.

(** Truthiness of an optional boolean. *)
Definition truthy_flag (o : option bool) : bool :=
  match o with Some true => true | _ => false end.

(** Formatting inside an f-string: [None] prints as the text None. *)
Definition fmt (o : option string) : string :=
  match o with Some s => s | None => "None" end.

(** ** Strings

    A Python [str] is a sequence of Unicode characters. A text is held
    here in UTF-8, the encoding of the string literals of this file: a
    character is the text of its bytes, one byte for an ASCII character,
    a leading byte and its continuation bytes for any other. A test for
    an ASCII prefix, suffix or separator gives the same on the bytes as
    on the characters. *)

(** The continuation bytes of UTF-8. *)
Definition continues (c : ascii) : bool :=
  let n := nat_of_ascii c in (128 <=? n) && (n <? 192).

(** The characters of a text, in order. *)
Fixpoint chars (s : string) : list string :=
  match s with
  | "" => []
  | String c s' =>
      let following := chars s' in
      match s', following with
      | String d _, ch :: rest =>
          if continues d then String c ch :: rest
          else String c "" :: following
      | _, _ => String c "" :: following
      end
  end.

(** The text of a list of characters, or of texts: they are joined. *)
Definition unchars (cs : list string) : string :=
  foldr String.append "" cs.

(** The ASCII character that a character is, if it is one. *)
Definition ascii_of (ch : string) : option ascii :=
  match ch with
  | String c "" => if nat_of_ascii c <? 128 then Some c else None
  | _ => None
  end.

(** What Python's Unicode database says of a character outside ASCII:
    whether it is white space ([str.isspace], which is also [\s] of
    [re] and what [str.strip] removes), whether it is alphanumeric
    ([str.isalnum]; [\w] of [re] is this or the underscore), and its
    upper case ([str.upper], which may be several characters). *)
Record Unicode := {
  isspace : string → bool;
  isalnum : string → bool;
  to_upper : string → string
}.

(** White space of ASCII: tab, line feed, vertical tab, form feed,
    carriage return, the four separators and the space. *)
Definition ascii_space (c : ascii) : bool :=
  match c with
  | "009" | "010" | "011" | "012" | "013"
  | "028" | "029" | "030" | "031" | " " => true
  | _ => false
  end%char.

(** [\w] of ASCII: letters, digits and the underscore. *)
Definition ascii_word (c : ascii) : bool :=
  let n := nat_of_ascii c in
  ((48 <=? n) && (n <=? 57)) || ((65 <=? n) && (n <=? 90))
  || ((97 <=? n) && (n <=? 122)) || (n =? 95).

Definition ascii_upper (c : ascii) : ascii :=
  let n := nat_of_ascii c in
  if (97 <=? n) && (n <=? 122) then ascii_of_nat (n - 32) else c.

(** [s.startswith(p)] *)
Fixpoint startswith (s p : string) : bool :=
  match p, s with
  | "", _ => true
  | String a p', String b s' => if Ascii.eqb a b then startswith s' p' else false
  | String _ _, "" => false
  end.

(** [s.endswith(p)] *)
Definition endswith (s p : string) : bool :=
  startswith (String.rev s) (String.rev p).

(** The text after a prefix already known to be there. *)
Fixpoint drop (n : nat) (s : string) : string :=
  match n, s with
  | S n', String _ s' => drop n' s'
  | _, _ => s
  end.

(** [s.split(":", 1)[1]]: what follows the first colon; [None] stands for
    the [IndexError] of a text without colon. *)
Fixpoint after_colon (s : string) : option string :=
  match s with
  | "" => None
  | String c s' => if Ascii.eqb c ":" then Some s' else after_colon s'
  end.

(** ** Insertion-ordered dictionaries *)

Section Dict.
Context {V : Type}.

Fixpoint dict_get (k : string) (d : list (string * V)) : option V :=
  match d with
  | [] => None
  | (k', v) :: d' => if decide (k' = k) then Some v else dict_get k d'
  end.

(** [d[k] = v]: an existing key keeps its place. *)
Fixpoint dict_set (k : string) (v : V) (d : list (string * V)) : list (string * V) :=
  match d with
  | [] => [(k, v)]
  | (k', v') :: d' =>
      if decide (k' = k) then (k, v) :: d' else (k', v') :: dict_set k v d'
  end.

(** [del d[k]] on a key that is there. *)
Definition dict_del (k : string) (d : list (string * V)) : list (string * V) :=
  filter (λ kv, kv.1 ≠ k) d.

(** [k in d] *)
Definition dict_mem (k : string) (d : list (string * V)) : bool :=
  bool_decide (is_Some (dict_get k d)).
End Dict.

(** ** The process state *)

(** A cancellation token object: the dictionary [{"stop": b}] made for each
    request. The agent loop also looks for a ["task_tokens"] key in it. *)
Record TokenObj := {
  tok_stop : bool;
  tok_task_tokens : option (gmap string bool)
}.

(** Entries of the message history. *)
Inductive ChatMsg :=
| UserText (text : string)
| ScreenInfo (text : string)
| ToolResults (content : list string)
| Appended (repr : string).

(** What the output callback receives. [MOther] carries [str(message)]. *)
Inductive Message :=
| MStr (s : string)
| MToolResult (output error base64_image : option string)
| MTextBlock (text : string)
| MToolUse (input : string)
| MOther (repr : string).

Inductive MsgType := analysis | next_action.

(** The content of an extracted record: text, or the dictionary that
    [json.loads] made of the text. *)
Inductive Content :=
| CStr (s : string)
| CDict (source : string).

(** An Extracted Response Record (without its timestamp). *)
Record Extracted := { ex_type : MsgType; ex_content : Content }.

Inductive TaskStatus :=
  Started | InProgress | Completed | Errored | Stopping | Stopped.

Inductive Payload :=
| PText (s : string)
| PRecord (r : Extracted)
| PNone.

(** One call of [conn_manager.publish(topic, {...})]; [pub_ok] tells
    whether the bus took it (otherwise the call raised). *)
Record Publication := {
  pub_topic : string;
  pub_user : option string;
  pub_prompt : option string;
  pub_status : TaskStatus;
  pub_payload : Payload;
  pub_is_final : option bool;
  pub_ok : bool
}.

(** The record written by Result Persistence. *)
Record SessionData := {
  session_id : string;
  sd_instruction : option string;
  sd_messages : list Extracted
}.

Record Config := {
  model : string;
  provider : string;
  api_key : string;
  azure_resource_name : string;
  omniparser_server_url : string
}.

(** The dictionary [app_state]. The keys ["cancellation_token"] and
    ["task_tokens"] are created on demand, hence the options. *)
Record AppState := {
  config : Config;
  stop : bool;
  cancellation_token : option nat;
  task_tokens : option (gmap string bool);
  active_sessions : list (string * option string);
  messages : list ChatMsg
}.

Record World := {
  app_state : AppState;
  heap : list TokenObj;
  bus : list Publication;
  saved_json : list (string * nat * SessionData)
}.

Definition set_stop (b : bool) (a : AppState) : AppState :=
  {| config := config a; stop := b; cancellation_token := cancellation_token a;
     task_tokens := task_tokens a; active_sessions := active_sessions a;
     messages := messages a |}.

Definition set_cancellation_token (t : option nat) (a : AppState) : AppState :=
  {| config := config a; stop := stop a; cancellation_token := t;
     task_tokens := task_tokens a; active_sessions := active_sessions a;
     messages := messages a |}.

Definition set_task_tokens (t : option (gmap string bool)) (a : AppState) : AppState :=
  {| config := config a; stop := stop a; cancellation_token := cancellation_token a;
     task_tokens := t; active_sessions := active_sessions a;
     messages := messages a |}.

Definition set_active_sessions (d : list (string * option string)) (a : AppState) : AppState :=
  {| config := config a; stop := stop a; cancellation_token := cancellation_token a;
     task_tokens := task_tokens a; active_sessions := d;
     messages := messages a |}.

Definition set_messages (m : list ChatMsg) (a : AppState) : AppState :=
  {| config := config a; stop := stop a; cancellation_token := cancellation_token a;
     task_tokens := task_tokens a; active_sessions := active_sessions a;
     messages := m |}.

Definition upd_app (f : AppState → AppState) (w : World) : World :=
  {| app_state := f (app_state w); heap := heap w; bus := bus w;
     saved_json := saved_json w |}.

Definition set_heap (h : list TokenObj) (w : World) : World :=
  {| app_state := app_state w; heap := h; bus := bus w;
     saved_json := saved_json w |}.

Definition set_bus (b : list Publication) (w : World) : World :=
  {| app_state := app_state w; heap := heap w; bus := b;
     saved_json := saved_json w |}.

Definition set_saved_json (f : list (string * nat * SessionData)) (w : World) : World :=
  {| app_state := app_state w; heap := heap w; bus := bus w;
     saved_json := f |}.

(** [token["stop"] = True] on a token object. *)
Definition raise_flag (t : TokenObj) : TokenObj :=
  {| tok_stop := true; tok_task_tokens := tok_task_tokens t |}.

(** The composite key and the status topic of a task. *)
Definition task_key (uid pid : option string) : string :=
  fmt uid +:+ "_" +:+ fmt pid.

Definition topic_of (pid uid : option string) : string :=
  "com.hertzai.hevolve.action." +:+ fmt pid +:+ "." +:+ fmt uid.

(** Statuses and messages of the stop response. *)
Inductive RespStatus := Success | Warning | Error.

Inductive StopNote :=
| MissingPayload
| InvalidRequest
| NoActiveTasks
| StoppedFor (n : nat).

Record StopResponse := {
  status : RespStatus;
  message : StopNote;
  stopped_tasks : list (string * option string)
}.

(** A stop request. [sm_other] tells whether the payload has keys besides
    the four that are read. *)
Record StopMsg := {
  sm_user_id : field string;
  sm_prompt_id : field string;
  sm_stop_all : field bool;
  sm_force : field bool;
  sm_other : bool
}.

(** [not msg]: the payload is the empty dictionary. *)
Definition empty_payload (msg : StopMsg) : bool :=
  match sm_user_id msg, sm_prompt_id msg, sm_stop_all msg, sm_force msg with
  | Absent, Absent, Absent, Absent => negb (sm_other msg)
  | _, _, _, _ => false
  end.

(** ** Requests, responses and collaborator results *)

(** The two lists the callback closes over. *)
Record Session := {
  assistant_responses : list string;
  extracted_responses : list Extracted
}.

(** The identifiers of the request the callback closes over. *)
Record Request := {
  rq_user_id : option string;
  rq_prompt_id : option string;
  rq_instruction : option string
}.

(** The instruction message, with the keys that decide what happens.
    The keys that are only logged or passed on are left out. *)
Record RpcMsg := {
  user_id : field string;
  prompt_id : field string;
  instruction_to_vlm_agent : field string;
  enhanced_instruction : field string
}.

Record RpcResponse := {
  rr_status : RespStatus;
  rr_message : option string;
  rr_user_id : option string;
  rr_prompt_id : option string;
  rr_total_messages : option nat;
  rr_extracted_responses : list Extracted
}.

Definition error_response (m : string) : RpcResponse :=
  {| rr_status := Error; rr_message := Some m; rr_user_id := None;
     rr_prompt_id := None; rr_total_messages := None;
     rr_extracted_responses := [] |}.

(** ** Control flow: results, early returns and exceptions *)

(** A Python exception, by its class and its [str()]. *)
Record Exn := { exn_class : string; exn_str : string }.

Definition KeyError (k : string) : Exn :=
  {| exn_class := "KeyError"; exn_str := "'" +:+ k +:+ "'" |}.
Definition ValueError (m : string) : Exn :=
  {| exn_class := "ValueError"; exn_str := m |}.
Definition AttributeError : Exn :=
  {| exn_class := "AttributeError";
     exn_str := "'NoneType' object has no attribute 'get'" |}.
Definition TypeError (m : string) : Exn :=
  {| exn_class := "TypeError"; exn_str := m |}.

(** What a collaborator call comes back with. *)
Inductive Reply (A : Type) : Type :=
| Returns (a : A)
| Raises (e : Exn).
Arguments Returns {A} a.
Arguments Raises {A} e.

(** Events of a run, for the properties about the order of checks and
    collaborator calls. *)
Inductive Ev :=
| EvCheck (cancelled : bool)
| EvObserve
| EvDecide
| EvExecutor
| EvNext
| EvDriverCheck (stopping : bool).

(** The state a run threads: the process, the lists of the callback, and
    the events so far, latest first. *)
Record LState := {
  world : World;
  session : Session;
  trace : list Ev
}.

Definition upd_world (f : World → World) (s : LState) : LState :=
  {| world := f (world s); session := session s; trace := trace s |}.

Definition record (e : Ev) (s : LState) : LState :=
  {| world := world s; session := session s; trace := e :: trace s |}.

(** How a piece of code inside a function decorated with [inlineCallbacks]
    leaves it: with [returnValue] (or [return]), which [except Exception]
    does not catch, with an exception, or because the model ran out of
    fuel. *)
Inductive Exit (R : Type) : Type :=
| Returned (r : R)
| Raised (e : Exn)
| OutOfFuel.
Arguments Returned {R} r.
Arguments Raised {R} e.
Arguments OutOfFuel {R}.

(** The outcome of a piece of code: it falls through with a value, or it
    leaves the function. *)
Inductive Outcome (R A : Type) : Type :=
| Val (a : A)
| Stop (x : Exit R).
Arguments Val {R A} a.
Arguments Stop {R A} x.

Abbreviation Ret r := (Stop (Returned r)).
Abbreviation Exc e := (Stop (Raised e)).
Abbreviation Fuel := (Stop OutOfFuel).

Definition M (R A : Type) : Type := LState → Outcome R A * LState.

Definition ret {R A} (a : A) : M R A := λ s, (Val a, s).

Definition bind {R A B} (m : M R A) (k : A → M R B) : M R B :=
  λ s, match m s with
       | (Val a, s') => k a s'
       | (Stop x, s') => (Stop x, s')
       end.

Definition returnValue {R A} (r : R) : M R A := λ s, (Ret r, s).

Definition raise {R A} (e : Exn) : M R A := λ s, (Exc e, s).

(** [try: m  except Exception as e: h e] *)
Definition try_except {R A} (m : M R A) (h : Exn → M R A) : M R A :=
  λ s, match m s with
       | (Exc e, s') => h e s'
       | r => r
       end.

Definition gets {R A} (f : LState → A) : M R A := λ s, (Val (f s), s).

Definition modify {R} (f : LState → LState) : M R unit := λ s, (Val tt, f s).


(** ** Results of the collaborators *)

(** [parsed_screen], of which the loop reads the key ["screen_info"]. *)
Record Screen := { screen_info : string }.

(** [vlm_response_json]: [None], a dictionary, or something else. A null
    value of a key is [None]. *)
Inductive VlmResponse :=
| VNone
| VDict (d : gmap string (option string))
| VOther (is_truthy : bool).

(** An item of the executor's generator: a pair whose second component is
    the tool-result content, or something else, with the exception that
    unpacking it as such a pair raises ([TypeError] or [ValueError],
    with a text that names the item). *)
Inductive ExecItem :=
| ItemPair (tool_result_content : option (list string))
| ItemOther (unpacking : Exn).

(** What one [next()] on the generator does. *)
Inductive StepResult :=
| Yields (item : ExecItem)
| Stops
| Fails (e : Exn).

(** One [next()]: the messages handed to the output callback on the way,
    the message history it leaves, and how it ends. A generator that is
    used up raises [StopIteration]. *)
Record ExecStep := {
  step_emitted : list Message;
  step_messages : list ChatMsg;
  step_result : StepResult
}.


Section Agent.

(** *** Text *)

(** The Unicode database of the interpreter. *)
Variable unicode : Unicode.

(** [str.isspace] of a character, which is [\s]. *)
Definition is_space (ch : string) : bool :=
  match ascii_of ch with
  | Some c => ascii_space c
  | None => isspace unicode ch
  end.

(** [\w] of a character. *)
Definition is_word (ch : string) : bool :=
  match ascii_of ch with
  | Some c => ascii_word c
  | None => isalnum unicode ch
  end.

Definition upper_char (ch : string) : string :=
  match ascii_of ch with
  | Some c => String (ascii_upper c) ""
  | None => to_upper unicode ch
  end.

(** [s.upper()] *)
Definition upper (s : string) : string :=
  unchars (upper_char <$> chars s).

(** The characters that are left when the leading white space is
    taken away. *)
Fixpoint lstrip (cs : list string) : list string :=
  match cs with
  | [] => []
  | ch :: cs' => if is_space ch then lstrip cs' else cs
  end.

(** [s.strip()]: leading and trailing white space is taken away. *)
Definition strip (s : string) : string :=
  unchars (reverse (lstrip (reverse (lstrip (chars s))))).

(** The longest prefix of word characters, and the rest. *)
Fixpoint span_word (cs : list string) : list string * list string :=
  match cs with
  | [] => ([], [])
  | ch :: cs' =>
      if is_word ch then let '(w, r) := span_word cs' in (ch :: w, r)
      else ([], cs)
  end.

(** The two groups of the pattern, matched at the start of [cs]: one or
    more word characters, as many as there are, and with [re.DOTALL]
    all the rest. *)
Definition word_and_rest (cs : list string) : option (string * string) :=
  match span_word cs with
  | ([], _) => None
  | (w, rest) => Some (unchars w, unchars rest)
  end.

(** Any white space and then the two groups, matched at the start of
    [cs]: the white space is greedy, and gives a character back when
    nothing matches after it. *)
Fixpoint spaces_word_and_rest (cs : list string) : option (string * string) :=
  match cs with
  | [] => None
  | ch :: cs' =>
      if is_space ch then
        match spaces_word_and_rest cs' with
        | Some groups => Some groups
        | None => word_and_rest cs
        end
      else word_and_rest cs
  end.

(** The regular expression of [output_callback], matched at the start
    of the content: the text Status and a colon, any white space, a
    first group of one or more word characters, and a second group with
    all the rest. The result is the pair of the two groups. *)
Definition status_match (content : string) : option (string * string) :=
  if startswith content "Status:"
  then spaces_word_and_rest (chars (drop 7 content))
  else None.

(** *** The message bus *)

(** Whether the [n]-th call of [publish] goes through. *)
Variable bus_up : nat → bool.

Definition publish (topic : string) (uid pid : option string)
    (st : TaskStatus) (p : Payload) (final : option bool) (w : World)
    : World * bool :=
  let ok := bus_up (length (bus w)) in
  (set_bus (bus w ++ [ {| pub_topic := topic; pub_user := uid;
                          pub_prompt := pid; pub_status := st;
                          pub_payload := p; pub_is_final := final;
                          pub_ok := ok |} ]) w, ok).

(** *** The stop handler *)

(** [if "cancellation_token" in app_state:
       app_state["cancellation_token"]["stop"] = True] *)
Definition set_global_token (w : World) : World :=
  match cancellation_token (app_state w) with
  | Some a => set_heap (alter raise_flag a (heap w)) w
  | None => w
  end.

(** [if "task_tokens" not in app_state: app_state["task_tokens"] = {}] *)
Definition ensure_task_tokens (a : AppState) : AppState :=
  match task_tokens a with
  | Some _ => a
  | None => set_task_tokens (Some ∅) a
  end.

(** Creating the token [{"stop": True}] under a key, or raising the flag
    of the token that is there. *)
Definition mark_task (key : string) (a : AppState) : AppState :=
  set_task_tokens (Some (<[key := true]> (default ∅ (task_tokens a)))) a.

(** The first part of [handle_stop_request]: which tasks to stop, and the
    flags set on the way. [None] is the branch without [stop_all] and
    [user_id]. The third component is the variable [prompt_id], which the
    notification loop reads again. *)
Definition resolve_stop (msg : StopMsg) (w : World)
    : option (World * list (string * option string) * option string) :=
  let user_id := get (sm_user_id msg) in
  let prompt_id := get (sm_prompt_id msg) in
  let stop_all := get_default (sm_stop_all msg) false in
  if truthy_flag stop_all then
    let w := upd_app (set_stop true) w in
    let w := set_global_token w in
    Some (w, active_sessions (app_state w), prompt_id)
  else
    match user_id with
    | Some uid =>
        if truthy user_id then
          let sessions := active_sessions (app_state w) in
          let prompt_id :=
            if negb (truthy prompt_id) && dict_mem uid sessions
            then default None (dict_get uid sessions)
            else prompt_id in
          if truthy prompt_id then
            let w := upd_app ensure_task_tokens w in
            let w := upd_app (mark_task (task_key user_id prompt_id)) w in
            let w := set_global_token w in
            let w := upd_app (set_stop true) w in
            Some (w, [(uid, prompt_id)], prompt_id)
          else
            let user_tasks :=
              filter (λ t, t.1 = uid) sessions in
            let w := upd_app ensure_task_tokens w in
            let w :=
              foldl (λ w t, upd_app (mark_task (task_key (Some t.1) t.2)) w)
                    w user_tasks in
            let w := set_global_token w in
            let w := upd_app (set_stop true) w in
            Some (w, user_tasks, prompt_id)
        else None
    | None => None
    end.

(** The first notification loop: publish [stopping], and drop the
    registry entry of each task that was notified. *)
Fixpoint notify_stopping (prompt_id : option string)
    (tasks : list (string * option string))
    (stopped : list (string * option string)) (w : World)
    : World * list (string * option string) :=
  match tasks with
  | [] => (w, stopped)
  | (uid, pid) :: rest =>
      let '(w, ok) :=
        publish (topic_of pid (Some uid)) (Some uid) pid Stopping
                (PText "Processing stop request...") None w in
      if ok then
        let stopped := stopped ++ [(uid, pid)] in
        let sessions := active_sessions (app_state w) in
        let w :=
          if dict_mem uid sessions then
            if bool_decide (dict_get uid sessions = Some pid)
               || negb (truthy prompt_id)
            then upd_app (set_active_sessions (dict_del uid sessions)) w
            else w
          else w in
        notify_stopping prompt_id rest stopped w
      else notify_stopping prompt_id rest stopped w
  end.

(** The second notification loop: publish [stopped]. *)
Fixpoint notify_stopped (stopped : list (string * option string))
    (w : World) : World :=
  match stopped with
  | [] => w
  | (uid, pid) :: rest =>
      let '(w, _) :=
        publish (topic_of pid (Some uid)) (Some uid) pid Stopped
                (PText "Processing stopped successfully") None w in
      notify_stopped rest w
  end.

Definition handle_stop_request (msg : StopMsg) (w : World)
    : World * StopResponse :=
  if empty_payload msg then
    (w, {| status := Error; message := MissingPayload; stopped_tasks := [] |})
  else
    let force_stop := get_default (sm_force msg) true in
    match resolve_stop msg w with
    | None =>
        (w, {| status := Error; message := InvalidRequest;
               stopped_tasks := [] |})
    | Some (w, tasks_to_stop, prompt_id) =>
        match tasks_to_stop with
        | [] =>
            (w, {| status := Warning; message := NoActiveTasks;
                   stopped_tasks := [] |})
        | _ =>
            let '(w, stopped) := notify_stopping prompt_id tasks_to_stop [] w in
            let w := notify_stopped stopped w in
            let w :=
              if negb (truthy_flag force_stop)
                 && bool_decide (length stopped = length tasks_to_stop)
              then upd_app (set_stop false) w
              else w in
            (w, {| status := Success; message := StoppedFor (length stopped);
                   stopped_tasks := stopped |})
        end
    end.

(** *** The output callback of [handle_rpc_request] *)

(** Whether [json.loads] accepts a text. *)
Variable json_loads : string → bool.

Definition quote : string := String (ascii_of_nat 34) "".

Definition _render_message (hide_images : bool) (m : Message) : option string :=
  match m with
  | MStr s => Some s
  | MToolResult output error base64_image =>
      if truthy output then output
      else if truthy error then Some ("Error: " +:+ fmt error)
      else if truthy base64_image && negb hide_images then
        Some ("<img src=" +:+ quote +:+ "data:image/png;base64,"
              +:+ fmt base64_image +:+ quote +:+ ">")
      else None
  | MTextBlock text => Some ("Analysis: " +:+ text)
  | MToolUse input => Some ("Next action: " +:+ input)
  | MOther repr => Some repr
  end.

Definition topic (rq : Request) : string :=
  topic_of (rq_prompt_id rq) (rq_user_id rq).

(** The type of a rendered message, when it is one to extract. *)
Definition message_type_of (rendered : string) : option MsgType :=
  if startswith rendered "Analysis:" then Some analysis
  else if startswith rendered "Next action:" then Some next_action
  else None.

(** The content after the first colon; for a next action that looks like
    a dictionary, the parsed dictionary when parsing succeeds. *)
Definition parse_content (ty : MsgType) (rendered : string) : Content :=
  let content := strip (default "" (after_colon rendered)) in
  match ty with
  | next_action =>
      if startswith content "{" && endswith content "}" && json_loads content
      then CDict content else CStr content
  | analysis => CStr content
  end.

(** [should_extract] and the content to extract. *)
Definition extraction (ty : MsgType) (rendered : string) : bool * Content :=
  let content := strip (default "" (after_colon rendered)) in
  match ty with
  | analysis =>
      if startswith content "Status:" then
        match status_match content with
        | Some (word, rest) =>
            (negb (bool_decide (upper word = "FAILED")), CStr (strip rest))
        | None => (true, CStr content)
        end
      else (true, CStr content)
  | next_action => (true, parse_content ty rendered)
  end.

Definition output_callback (rq : Request) (hide_images : bool)
    (m : Message) (cs : Session * World) : Session * World :=
  let '(ses, w) := cs in
  match _render_message hide_images m with
  | None | Some "" => cs
  | Some rendered =>
      let ses := {| assistant_responses := assistant_responses ses ++ [rendered];
                    extracted_responses := extracted_responses ses |} in
      match message_type_of rendered with
      | None => (ses, w)
      | Some ty =>
          let '(should_extract, content) := extraction ty rendered in
          if should_extract then
            let record := {| ex_type := ty; ex_content := content |} in
            let ses := {| assistant_responses := assistant_responses ses;
                          extracted_responses :=
                            extracted_responses ses ++ [record] |} in
            let '(w, _) :=
              publish (topic rq) (rq_user_id rq) (rq_prompt_id rq)
                      InProgress (PRecord record) (Some false) w in
            (ses, w)
          else (ses, w)
      end
  end.

Notation "'let*' x ':=' m 'in' k" := (bind m (λ x, k))
  (at level 10, x binder, m at level 200, k at level 200,
   format "'[v' 'let*'  x  :=  m  'in' '/' k ']'").
Notation "m ;;; k" := (bind m (λ _, k))
  (at level 100, k at level 200, right associativity).

(** *** The collaborators of the agent loop *)

(** [tools_use_needed], which the loop only passes on. *)
Variable Tools : Type.

(** The collaborators, each indexed by the time of the call (the number
    of events so far). *)
Variable omniparser_client : nat → Reply Screen.
Variable anthropic_actor : nat → list ChatMsg → Reply (list ChatMsg * Tools).
Variable vlm_agent :
  nat → list ChatMsg → Screen →
  list Message * Reply (list ChatMsg * (Tools * VlmResponse)).
Variable executor : nat → Tools → list ChatMsg → Reply (list ExecStep).

(** The stop requests that reach the stop handler (on its own thread)
    between the previous cancellation check and the check made at a given
    time. The loop reads shared state only in its checks, so this is when
    their effect can first be seen. *)
Variable arrivals : nat → list StopMsg.

Definition deliver_stops (s : LState) : LState :=
  upd_world
    (λ w, foldl (λ w msg, (handle_stop_request msg w).1) w
                (arrivals (length (trace s))))
    s.

(** *** The agent loop *)

Definition LoopResult : Type := option (list ChatMsg).

(** The output callback as the loop and its collaborators call it. *)
Definition emit {R} (rq : Request) (ms : list Message) : M R unit :=
  modify (λ s,
    let '(ses, w) :=
      foldl (λ cs m, output_callback rq false m cs) (session s, world s) ms in
    {| world := w; session := ses; trace := trace s |}).

Definition get_messages {R} : M R (list ChatMsg) :=
  gets (λ s, messages (app_state (world s))).

Definition put_messages {R} (ms : list ChatMsg) : M R unit :=
  modify (upd_world (upd_app (set_messages ms))).

(** The condition of every cancellation point:
    [(cancellation_token and cancellation_token.get("stop")) or
     (task_key in task_tokens and task_tokens[task_key].get("stop"))],
    with [task_tokens = cancellation_token.get("task_tokens", {})]. *)
Definition cancel_requested (t : TokenObj) (key : string) : bool :=
  tok_stop t
  || match default ∅ (tok_task_tokens t) !! key with
     | Some b => b
     | None => false
     end.

(** A cancellation point. A [None] token has no [get]. *)
Definition check_cancellation (tok : option nat) (key : string)
    : M LoopResult unit :=
  λ s,
    let s := deliver_stops s in
    match tok ≫= (λ a, heap (world s) !! a) with
    | None => (Exc AttributeError, s)
    | Some t =>
        if cancel_requested t key
        then (Ret None, record (EvCheck true) s)
        else (Val tt, record (EvCheck false) s)
    end.

Definition now {R} : M R nat := gets (λ s, length (trace s)).

Definition lift_reply {R A} (r : Reply A) : M R A :=
  match r with
  | Returns a => ret a
  | Raises e => raise e
  end.

(** [yield omniparser_client()] *)
Definition observe : M LoopResult Screen :=
  let* t := now in
  modify (record EvObserve) ;;;
  lift_reply (omniparser_client t).

(** [actor(messages=messages)] of the Anthropic backend. *)
Definition decide_anthropic : M LoopResult Tools :=
  let* t := now in
  let* ms := get_messages in
  modify (record EvDecide) ;;;
  let* r := lift_reply (anthropic_actor t ms) in
  put_messages r.1 ;;;
  ret r.2.

(** [yield actor(messages=messages, parsed_screen=parsed_screen)] *)
Definition decide_vlm (rq : Request) (screen : Screen)
    : M LoopResult (Tools * VlmResponse) :=
  let* t := now in
  let* ms := get_messages in
  modify (record EvDecide) ;;;
  let '(emitted, reply) := vlm_agent t ms screen in
  emit rq emitted ;;;
  let* r := lift_reply reply in
  put_messages r.1 ;;;
  ret r.2.

(** [executor(tools_use_needed, messages)] *)
Definition call_executor (tools : Tools) : M LoopResult (list ExecStep) :=
  let* t := now in
  let* ms := get_messages in
  modify (record EvExecutor) ;;;
  lift_reply (executor t tools ms).

(** The effects of one [next()] on the generator. *)
Definition run_step (rq : Request) (st : ExecStep) : M LoopResult unit :=
  modify (record EvNext) ;;;
  emit rq (step_emitted st) ;;;
  put_messages (step_messages st).

(** [not tool_result_content] *)
Definition falsy (c : option (list string)) : bool :=
  match c with
  | Some (_ :: _) => false
  | _ => true
  end.

(** Task-completion detection of the omniparser backend:
    [vlm_response_json and isinstance(vlm_response_json, dict)] and then
    [next_action == "None" or not next_action]. *)
Definition completion_detected (r : VlmResponse) : bool :=
  match r with
  | VDict d =>
      if bool_decide (d = ∅) then false
      else
        let next_action := mjoin (d !! "Next Action") in
        bool_decide (next_action = Some "None") || negb (truthy next_action)
  | _ => false
  end.

Definition screen_info_preamble : string :=
  "Below is the structured accessibility information of the current UI screen, which includes text and icons you can operate on, take these information into account when you are making the prediction for the next action. Note you will still need to take screenshot to get the image: "
  +:+ String (ascii_of_nat 10) "".

Section Loop.
Variable rq : Request.
Variable tok : option nat.

Let key : string := task_key (rq_user_id rq) (rq_prompt_id rq).

(** The [for] loop over the executor of the Anthropic backend. *)
Fixpoint anthropic_items (steps : list ExecStep)
    (tool_result_content : option (list string))
    : M LoopResult (option (list string)) :=
  match steps with
  | [] => modify (record EvNext) ;;; ret tool_result_content
  | st :: rest =>
      run_step rq st ;;;
      match step_result st with
      | Yields (ItemPair c) =>
          check_cancellation tok key ;;;
          anthropic_items rest c
      | Yields (ItemOther unpacking) => raise unpacking
      | Stops => ret tool_result_content
      | Fails e => raise e
      end
  end.

Fixpoint anthropic_loop (fuel : nat)
    (tool_result_content : option (list string))
    : M LoopResult Empty_set :=
  match fuel with
  | 0 => λ s, (Fuel, s)
  | S fuel =>
      check_cancellation tok key ;;;
      let* parsed_screen := observe in
      check_cancellation tok key ;;;
      let* ms := get_messages in
      put_messages
        (ms ++ [ScreenInfo (screen_info_preamble +:+ screen_info parsed_screen)]) ;;;
      check_cancellation tok key ;;;
      let* tools_use_needed := decide_anthropic in
      check_cancellation tok key ;;;
      let* steps := call_executor tools_use_needed in
      let* tool_result_content := anthropic_items steps tool_result_content in
      let* ms := get_messages in
      if falsy tool_result_content then returnValue (Some ms)
      else
        put_messages (ms ++ [ToolResults (default [] tool_result_content)]) ;;;
        anthropic_loop fuel tool_result_content
  end.

(** The inner [while True] over the executor of the omniparser
    backend. Its cancellation point stands outside the inner [try]: an
    exception there goes to the handler of the enclosing [try], which
    prints it and goes on with the tool-result content assigned so
    far. *)
Fixpoint vlm_items (steps : list ExecStep)
    (tool_result_content : option (list string))
    : M LoopResult (option (list string)) :=
  try_except
    (check_cancellation tok key ;;;
     match steps with
     | [] => modify (record EvNext) ;;; ret tool_result_content
     | st :: rest =>
         run_step rq st ;;;
         match step_result st with
         | Yields (ItemPair c) => vlm_items rest c
         | Yields (ItemOther _) => vlm_items rest tool_result_content
         | Stops => ret tool_result_content
         | Fails _ => ret tool_result_content
         end
     end)
    (λ _, ret tool_result_content).

(** One iteration of the omniparser backend up to the end of the
    executor, with the tool-result content it ends with. *)
Definition vlm_iteration (tool_result_content : option (list string))
    : M LoopResult (option (list string)) :=
  check_cancellation tok key ;;;
  let* parsed_screen := observe in
  check_cancellation tok key ;;;
  let* result := decide_vlm rq parsed_screen in
  check_cancellation tok key ;;;
  let '(tools_use_needed, vlm_response_json) := result in
  (if completion_detected vlm_response_json
   then let* ms := get_messages in returnValue (Some ms)
   else ret tt) ;;;
  try_except
    (let* steps := call_executor tools_use_needed in
     vlm_items steps tool_result_content)
    (λ _, ret tool_result_content).

Fixpoint vlm_loop (fuel : nat) (tool_result_content : option (list string))
    : M LoopResult Empty_set :=
  match fuel with
  | 0 => λ s, (Fuel, s)
  | S fuel =>
      let* tool_result_content := vlm_iteration tool_result_content in
      if falsy tool_result_content
      then let* ms := get_messages in returnValue (Some ms)
      else vlm_loop fuel tool_result_content
  end.

Definition omniparser_models : list string :=
  ["omniparser + gpt-4o"; "omniparser + o1"; "omniparser + o3-mini";
   "omniparser + R1"; "omniparser + qwen2.5vl"].

Definition sampling_loop_sync (fuel : nat) (model : string)
    : M LoopResult Empty_set :=
  check_cancellation tok key ;;;
  (if bool_decide (model = "claude-3-5-sonnet-20241022") then ret tt
   else if bool_decide (model ∈ omniparser_models) then ret tt
   else raise (ValueError ("Model " +:+ model +:+ " not supported"))) ;;;
  check_cancellation tok key ;;;
  if bool_decide (model = "claude-3-5-sonnet-20241022")
  then anthropic_loop fuel None
  else vlm_loop fuel None.
End Loop.

(** *** The RPC instruction handler *)

(** [requests.get(url, timeout=3)]: the status code, or a
    [RequestException]. *)
Variable probe : Reply nat.

Definition valid_params (user_input : option string) (cfg : Config)
    : list string :=
  match probe with
  | Returns code =>
      if bool_decide (code = 200) then []
      else ["OmniParser Server is not responding"]
  | Raises e => ["OmniParser Server is not responding: " +:+ exn_str e]
  end
  ++ (if bool_decide (strip (api_key cfg) = "")
      then ["LLM API Key is not set"] else [])
  ++ (if bool_decide (provider cfg = "azure")
         && bool_decide (strip (azure_resource_name cfg) = "")
      then ["Azure Resource Name is required when using Azure OpenAI"]
      else [])
  ++ (if truthy user_input then []
      else ["No computer use request provided"]).

(** [", ".join(errors)] *)
Fixpoint join_errors (errors : list string) : string :=
  match errors with
  | [] => ""
  | [e] => e
  | e :: rest => e +:+ ", " +:+ join_errors rest
  end.

(** Whether creating the output directory and writing the file work. *)
Variable disk_ok : bool.

(** The smallest index from [n] on that no saved file of the task has. *)
Fixpoint first_free (used : list nat) (budget n : nat) : nat :=
  match budget with
  | 0 => n
  | S budget =>
      if bool_decide (n ∈ used) then first_free used budget (S n) else n
  end.

Definition file_index (base : string) (files : list (string * nat * SessionData))
    : nat :=
  let used := (λ f, f.1.2) <$> filter (λ f, f.1.1 = base) files in
  first_free used (length used) 0.

(** What a further [yield generator] gives after the Deferred of the
    agent loop has delivered its result once. This is decided by
    Twisted, not by this repository. *)
Variable refire : LoopResult → LoopResult.

Section Rpc.
Variable fuel : nat.
Variable msg : RpcMsg.

Let user := get (user_id msg).
Let prompt := get_default (prompt_id msg) "0".
Let instruction : option string :=
  let enhanced := get (enhanced_instruction msg) in
  if truthy enhanced
  then Some ("[REUSING PREVIOUS SUCCESSFUL EXECUTING]"
             +:+ String (ascii_of_nat 10) "" +:+ fmt enhanced)
  else get (instruction_to_vlm_agent msg).
Let rq : Request :=
  {| rq_user_id := user; rq_prompt_id := prompt;
     rq_instruction := instruction |}.

Definition publish_status (st : TaskStatus) (p : Payload)
    (final : option bool) : M RpcResponse unit :=
  modify (upd_world (λ w,
    (publish (topic rq) user prompt st p final w).1)).

(** [if user_id: app_state["active_sessions"][user_id] = prompt_id] *)
Definition register : M RpcResponse unit :=
  match user with
  | Some uid =>
      if truthy user then
        modify (upd_world (upd_app (λ a,
          set_active_sessions (dict_set uid prompt (active_sessions a)) a)))
      else ret tt
  | None => ret tt
  end.

(** [cancellation_token = {"stop": False}] and
    [state["cancellation_token"] = cancellation_token] *)
Definition new_token : M RpcResponse nat :=
  λ s,
    let a := length (heap (world s)) in
    (Val a,
     upd_world (λ w,
       upd_app (set_cancellation_token (Some a))
         (set_heap (heap w ++ [ {| tok_stop := false;
                                   tok_task_tokens := None |} ]) w)) s).

(** [app_state.get("stop") or cancellation_token.get("stop")], after
    the stop requests that came in since the previous check. *)
Definition stop_seen (a : nat) : M RpcResponse bool :=
  λ s,
    let s := deliver_stops s in
    let b := stop (app_state (world s))
             || from_option tok_stop false (heap (world s) !! a) in
    (Val b, record (EvDriverCheck b) s).

(** The Deferred of the agent loop, waited for by [yield generator]. *)
Definition await (m : M LoopResult Empty_set) : M RpcResponse LoopResult :=
  λ s,
    match m s with
    | (Val x, _) => match x with end
    | (Ret r, s') => (Val r, s')
    | (Exc e, s') => (Exc e, s')
    | (Fuel, s') => (Fuel, s')
    end.

(** The [while True] around [yield generator]. *)
Fixpoint drive (n : nat) (a : nat) (generator : M RpcResponse LoopResult)
    : M RpcResponse unit :=
  match n with
  | 0 => λ s, (Fuel, s)
  | S n =>
      let* stopping := stop_seen a in
      if stopping then modify (upd_world (upd_app (set_stop false)))
      else
        let* loop_msg := generator in
        match loop_msg with
        | None => ret tt
        | Some _ =>
            let* stopping := stop_seen a in
            if stopping then modify (upd_world (upd_app (set_stop false)))
            else drive n a (ret (refire loop_msg))
        end
  end.

(** Result Persistence; a failure is logged and nothing else. *)
Definition persist : M RpcResponse unit :=
  if disk_ok then
    modify (λ s, upd_world (λ w,
      let base := task_key user prompt in
      set_saved_json
        (saved_json w ++
           [(base, file_index base (saved_json w),
             {| session_id := base; sd_instruction := instruction;
                sd_messages := extracted_responses (session s) |})]) w) s)
  else ret tt.

(** [if user_id and app_state["active_sessions"]:
       del app_state["active_sessions"][user_id]] *)
Definition unregister : M RpcResponse unit :=
  let* sessions := gets (λ s, active_sessions (app_state (world s))) in
  match user, sessions with
  | Some uid, _ :: _ =>
      if truthy user then
        if dict_mem uid sessions then
          modify (upd_world (upd_app
            (set_active_sessions (dict_del uid sessions))))
        else raise (KeyError uid)
      else ret tt
  | _, _ => ret tt
  end.

(** From the start of the handler to the [started] publication: the
    registration, the validation, the reset of the state and the new
    cancellation token, whose address is the result. *)
Definition accept : M RpcResponse nat :=
  register ;;;
  (if truthy user then ret tt
   else returnValue (error_response "No user_id provided")) ;;;
  (if truthy instruction then ret tt
   else returnValue (error_response "No instruction provided")) ;;;
  let* cfg := gets (λ s, config (app_state (world s))) in
  let errors := valid_params instruction cfg in
  (match errors with
   | [] => ret tt
   | _ => returnValue
            (error_response ("Validation errors: " +:+ join_errors errors))
   end) ;;;
  modify (upd_world (upd_app (λ a, set_stop false (set_messages [] a)))) ;;;
  let* cancellation_token := new_token in
  put_messages [UserText (fmt instruction)] ;;;
  modify (λ s, {| world := world s;
                  session := {| assistant_responses := [];
                                extracted_responses := [] |};
                  trace := trace s |}) ;;;
  publish_status Started (PText "Processing request started") None ;;;
  ret cancellation_token.

(** The agent loop under its driver, and the handler of the exceptions
    that come out of it. *)
Definition run_agent (cancellation_token : nat) : M RpcResponse unit :=
  let* cfg := gets (λ s, config (app_state (world s))) in
  try_except
    (drive fuel cancellation_token
       (await (sampling_loop_sync rq (Some cancellation_token) fuel
                 (model cfg))))
    (λ e,
       let m := "Error processing request: " +:+ exn_str e in
       publish_status Errored (PText m) None ;;;
       returnValue
         {| rr_status := Error; rr_message := Some m;
            rr_user_id := user; rr_prompt_id := prompt;
            rr_total_messages := None;
            rr_extracted_responses := [] |}).

(** After the driver loop: persistence, the final status, the removal
    from the registry and the result. *)
Definition finish : M RpcResponse Empty_set :=
  persist ;;;
  publish_status Completed (PText "Processing Completed") (Some true) ;;;
  unregister ;;;
  let* ses := gets session in
  returnValue
    {| rr_status := Success; rr_message := None;
       rr_user_id := user; rr_prompt_id := prompt;
       rr_total_messages := Some (length (assistant_responses ses));
       rr_extracted_responses := extracted_responses ses |}.

Definition handle_rpc_request : M RpcResponse Empty_set :=
  try_except
    (let* cancellation_token := accept in
     run_agent cancellation_token ;;;
     finish)
    (λ e, returnValue (error_response (exn_str e))).

(** A call of the handler on a process state: the callback lists and
    the event history start empty. *)
Definition run_rpc (w : World) : Outcome RpcResponse Empty_set * LState :=
  handle_rpc_request
    {| world := w;
       session := {| assistant_responses := []; extracted_responses := [] |};
       trace := [] |}.
End Rpc.

(** ** Properties of the stop handler *)

Lemma empty_payload_resolves_nothing msg w :
  empty_payload msg = true → resolve_stop msg w = None.
Proof.
  unfold empty_payload, resolve_stop.
  destruct (sm_user_id msg), (sm_prompt_id msg), (sm_stop_all msg),
    (sm_force msg); try discriminate.
  reflexivity.
Qed.

Lemma resolve_without_target msg w :
  truthy_flag (get_default (sm_stop_all msg) false) = false →
  truthy (get (sm_user_id msg)) = false →
  resolve_stop msg w = None.
Proof.
  intros Hall Huser. unfold resolve_stop. rewrite Hall.
  destruct (get (sm_user_id msg)) as [uid|]; [|reflexivity].
  now rewrite Huser.
Qed.

(** C5. A stop request that supplies neither [stop_all] nor [user_id]
    gets an error status and leaves the whole process state as it was
    (flags, tokens, registry and bus); a stop request that resolves to
    no task gets a warning status. *)
Theorem stop_request_without_target_or_match (msg : StopMsg) (w : World) :
  (truthy_flag (get_default (sm_stop_all msg) false) = false →
   truthy (get (sm_user_id msg)) = false →
   (handle_stop_request msg w).1 = w
   ∧ status (handle_stop_request msg w).2 = Error)
  ∧ (∀ w' pid, resolve_stop msg w = Some (w', [], pid) →
     status (handle_stop_request msg w).2 = Warning).
Proof.
  split.
  - intros Hall Huser. unfold handle_stop_request.
    destruct (empty_payload msg); [done|].
    now rewrite (resolve_without_target msg w Hall Huser).
  - intros w' pid Hres. unfold handle_stop_request.
    destruct (empty_payload msg) eqn:Hempty.
    + rewrite (empty_payload_resolves_nothing msg w Hempty) in Hres.
      discriminate.
    + now rewrite Hres.
Qed.

Lemma dict_mem_get {V} k (d : list (string * V)) :
  dict_mem k d = false ↔ dict_get k d = None.
Proof.
  unfold dict_mem. rewrite bool_decide_eq_false, <- eq_None_not_Some.
  reflexivity.
Qed.

Lemma dict_get_filter_key {V} k (d : list (string * V)) :
  dict_get k d = None → filter (λ t, t.1 = k) d = [].
Proof.
  induction d as [|[k' v] d IH]; simpl; [done|].
  destruct (decide (k' = k)) as [->|Hne]; [done|].
  intros Hd. rewrite filter_cons_False by done. auto.
Qed.

Lemma dict_get_del {V} k (d : list (string * V)) :
  dict_get k (dict_del k d) = None.
Proof.
  unfold dict_del. induction d as [|[k' v] d IH]; simpl; [done|].
  destruct (decide (k' = k)) as [->|Hne].
  - rewrite filter_cons_False by (simpl; intros Hk; now apply Hk). exact IH.
  - rewrite filter_cons_True by done. simpl.
    destruct (decide (k' = k)); [done|exact IH].
Qed.

Lemma given_payload_not_empty msg uid :
  get (sm_user_id msg) = Some uid → empty_payload msg = false.
Proof.
  unfold empty_payload. destruct (sm_user_id msg); simpl; try discriminate.
  reflexivity.
Qed.

(** C4, as the code has it. A stop request for a user who has no entry
    in the registry (the task was stopped before) gets a warning when it
    names the user alone; when it also names a prompt, the handler does
    not look at the registry and answers with success again. *)
Theorem repeated_stop_of_stopped_task (msg : StopMsg) (w : World) (uid : string) :
  get (sm_user_id msg) = Some uid →
  truthy (Some uid) = true →
  truthy_flag (get_default (sm_stop_all msg) false) = false →
  dict_get uid (active_sessions (app_state w)) = None →
  status (handle_stop_request msg w).2 =
    if truthy (get (sm_prompt_id msg)) then Success else Warning.
Proof.
  intros Huid Htruthy Hall Habsent. unfold handle_stop_request.
  rewrite (given_payload_not_empty msg uid Huid).
  unfold resolve_stop. rewrite Hall, Huid, Htruthy.
  rewrite (proj2 (dict_mem_get uid _) Habsent), andb_false_r.
  destruct (truthy (get (sm_prompt_id msg))) eqn:Hp.
  - cbn -[notify_stopping notify_stopped].
    destruct (notify_stopping _ _ _ _) as [w1 stopped]. reflexivity.
  - rewrite (dict_get_filter_key uid _ Habsent). reflexivity.
Qed.

(** The tokens the handler marks for the tasks of one user. *)
Lemma mark_tasks_marked (tasks : list (string * option string)) (w : World) :
  let w' := foldl (λ w t, upd_app (mark_task (task_key (Some t.1) t.2)) w)
                  w tasks in
  heap w' = heap w ∧ bus w' = bus w
  ∧ stop (app_state w') = stop (app_state w)
  ∧ cancellation_token (app_state w') = cancellation_token (app_state w)
  ∧ (∀ k, default ∅ (task_tokens (app_state w)) !! k = Some true →
          default ∅ (task_tokens (app_state w')) !! k = Some true)
  ∧ (∀ t, t ∈ tasks →
          default ∅ (task_tokens (app_state w')) !! task_key (Some t.1) t.2
          = Some true).
Proof.
  revert w. induction tasks as [|t tasks IH]; intros w; simpl.
  - repeat split; auto. intros t Ht. inversion Ht.
  - destruct (IH (upd_app (mark_task (task_key (Some t.1) t.2)) w))
      as (Hh & Hb & Hs & Hc & Hkeep & Hnew).
    simpl in *. repeat split; auto.
    + intros k Hk. apply Hkeep.
      destruct (decide (task_key (Some t.1) t.2 = k)) as [->|Hne].
      * apply lookup_insert_eq.
      * now rewrite lookup_insert_ne.
    + intros t' Ht'. apply elem_of_cons in Ht' as [->|Ht']; [|auto].
      apply Hkeep. apply lookup_insert_eq.
Qed.

Lemma set_global_token_app w :
  app_state (set_global_token w) = app_state w.
Proof. unfold set_global_token. now destruct (cancellation_token _). Qed.

(** The part of C6 that holds: when a stop request is resolved through
    its [user_id] (with an explicit, a looked-up or no prompt), every
    resolved task has its per-task token raised and the process-wide
    flag is set. *)
Lemma resolve_by_user_raises_tokens msg w w' tasks pid :
  truthy_flag (get_default (sm_stop_all msg) false) = false →
  resolve_stop msg w = Some (w', tasks, pid) →
  stop (app_state w') = true
  ∧ ∀ t, t ∈ tasks →
      ∃ tokens, task_tokens (app_state w') = Some tokens
                ∧ tokens !! task_key (Some t.1) t.2 = Some true.
Proof.
  intros Hall. unfold resolve_stop. rewrite Hall.
  destruct (get (sm_user_id msg)) as [uid|]; [|discriminate].
  destruct (truthy (Some uid)); [|discriminate].
  match goal with |- context [if truthy ?p then _ else _] =>
    destruct (truthy p) eqn:Hp end.
  - intros [= <- <- <-]. split; [done|].
    intros t Ht. apply list_elem_of_singleton in Ht as ->.
    simpl. rewrite set_global_token_app. simpl.
    eexists. split; [reflexivity|]. apply lookup_insert_eq.
  - intros [= <- <- <-]. split; [done|].
    intros t Ht. simpl. rewrite set_global_token_app.
    match goal with |- context [foldl ?f ?w0 ?l] =>
      destruct (mark_tasks_marked l w0) as (_ & _ & _ & _ & _ & Hnew);
      specialize (Hnew t Ht);
      destruct (task_tokens (app_state (foldl f w0 l))) as [tokens|] eqn:Htok
    end.
    + simpl in Hnew. eauto.
    + simpl in Hnew. now rewrite lookup_empty in Hnew.
Qed.

(** ** Properties of the text functions *)

Lemma append_assoc_text (a b c : string) : (a +:+ b) +:+ c = a +:+ (b +:+ c).
Proof.
  induction a as [|x a IH]; [reflexivity|].
  change (String x ((a +:+ b) +:+ c) = String x (a +:+ (b +:+ c))).
  now rewrite IH.
Qed.

Lemma unchars_app (xs ys : list string) :
  unchars (xs ++ ys) = unchars xs +:+ unchars ys.
Proof.
  induction xs as [|x xs IH]; [reflexivity|].
  change (unchars ((x :: xs) ++ ys)) with (x +:+ unchars (xs ++ ys)).
  change (unchars (x :: xs)) with (x +:+ unchars xs).
  rewrite IH. symmetry. apply append_assoc_text.
Qed.

Lemma unchars_cons (ch : string) (cs : list string) :
  unchars (ch :: cs) = ch +:+ unchars cs.
Proof. reflexivity. Qed.

Lemma chars_cons (c : ascii) (s : string) :
  chars (String c s)
  = match s, chars s with
    | String d _, ch :: rest =>
        if continues d then String c ch :: rest
        else String c "" :: chars s
    | _, _ => String c "" :: chars s
    end.
Proof. now destruct s. Qed.

(** Cutting a text into its characters loses nothing. *)
Lemma unchars_chars (s : string) : unchars (chars s) = s.
Proof.
  induction s as [|c s IH]; [reflexivity|].
  rewrite chars_cons.
  destruct s as [|d s']; [reflexivity|].
  destruct (chars (String d s')) as [|ch rest]; [discriminate IH|].
  rewrite unchars_cons in IH.
  destruct (continues d); rewrite !unchars_cons.
  - change (String c ch +:+ unchars rest)
      with (String c (ch +:+ unchars rest)).
    now rewrite IH.
  - change (String c "" +:+ (ch +:+ unchars rest))
      with (String c (ch +:+ unchars rest)).
    now rewrite IH.
Qed.

Lemma startswith_drop (s p : string) :
  startswith s p = true → s = p +:+ drop (String.length p) s.
Proof.
  revert s. induction p as [|a p IH]; intros s; [reflexivity|].
  destruct s as [|b s]; [discriminate|].
  cbn [startswith String.length drop].
  destruct (Ascii.eqb a b) eqn:Hab; [|discriminate].
  apply Ascii.eqb_eq in Hab as ->. intros H.
  change (String b s = String b (p +:+ drop (String.length p) s)).
  now rewrite <- (IH s H).
Qed.

Lemma span_word_spec (cs w r : list string) :
  span_word cs = (w, r) →
  cs = w ++ r ∧ Forall (λ ch, is_word ch = true) w
  ∧ match r with ch :: _ => is_word ch = false | [] => True end.
Proof.
  revert w r. induction cs as [|ch cs IH]; intros w r; simpl.
  - intros [= <- <-]. auto.
  - destruct (is_word ch) eqn:Hch.
    + destruct (span_word cs) as [w' r'] eqn:Hspan. intros [= <- <-].
      destruct (IH w' r' eq_refl) as (-> & Hw & Hr). auto.
    + intros [= <- <-]. auto.
Qed.

(** A match of the status pattern cuts the content into the text
    Status and a colon, white space, a status word made of one or more
    word characters that no word character follows, and the rest. *)
Lemma status_match_groups (content word rest : string) :
  status_match content = Some (word, rest) →
  ∃ spaces w r,
    content = "Status:" +:+ unchars spaces +:+ word +:+ rest
    ∧ Forall (λ ch, is_space ch = true) spaces
    ∧ word = unchars w ∧ w ≠ []
    ∧ Forall (λ ch, is_word ch = true) w
    ∧ rest = unchars r
    ∧ match r with ch :: _ => is_word ch = false | [] => True end.
Proof.
  unfold status_match.
  destruct (startswith content "Status:") eqn:Hprefix; [|discriminate].
  apply startswith_drop in Hprefix.
  change (String.length "Status:") with 7 in Hprefix.
  rewrite <- (unchars_chars (drop 7 content)) in Hprefix.
  revert Hprefix. generalize (chars (drop 7 content)). intros cs Hcontent.
  assert (Hhere : ∀ cs0, word_and_rest cs0 = Some (word, rest) →
    ∃ w r, cs0 = w ++ r ∧ word = unchars w ∧ w ≠ []
           ∧ Forall (λ ch, is_word ch = true) w ∧ rest = unchars r
           ∧ match r with ch :: _ => is_word ch = false | [] => True end).
  { intros cs0. unfold word_and_rest.
    destruct (span_word cs0) as [w r] eqn:Hspan.
    destruct (span_word_spec cs0 w r Hspan) as (-> & Hw & Hr).
    destruct w as [|ch w]; [discriminate|].
    intros [= <- <-]. exists (ch :: w), r. done. }
  assert (Hcut : ∀ cs0, spaces_word_and_rest cs0 = Some (word, rest) →
    ∃ spaces w r, cs0 = spaces ++ w ++ r
      ∧ Forall (λ ch, is_space ch = true) spaces
      ∧ word = unchars w ∧ w ≠ []
      ∧ Forall (λ ch, is_word ch = true) w ∧ rest = unchars r
      ∧ match r with ch :: _ => is_word ch = false | [] => True end).
  { induction cs0 as [|ch cs0 IH]; [discriminate|]. simpl.
    destruct (is_space ch) eqn:Hch.
    - destruct (spaces_word_and_rest cs0) as [groups|] eqn:Hrec.
      + intros [= ->].
        destruct (IH eq_refl) as (sp & w & r & -> & Hsp & Hrest).
        exists (ch :: sp), w, r. split; [reflexivity|]. split; [|exact Hrest].
        now constructor.
      + intros H. destruct (Hhere _ H) as (w & r & Hcs & Hrest).
        exists [], w, r. split; [exact Hcs|]. split; [constructor|exact Hrest].
    - intros H. destruct (Hhere _ H) as (w & r & Hcs & Hrest).
      exists [], w, r. split; [exact Hcs|]. split; [constructor|exact Hrest]. }
  intros Hmatch.
  destruct (Hcut cs Hmatch) as (sp & w & r & -> & Hsp & Hw & Hne & Hword & Hr
                                & Hnext).
  exists sp, w, r. rewrite Hcontent, !unchars_app, <- Hw, <- Hr. done.
Qed.

Lemma span_word_app (w r : list string) :
  Forall (λ ch, is_word ch = true) w →
  match r with ch :: _ => is_word ch = false | [] => True end →
  span_word (w ++ r) = (w, r).
Proof.
  intros Hw Hr. induction Hw as [|ch w Hch _ IH]; simpl.
  - destruct r as [|ch r]; [reflexivity|]. simpl. now rewrite Hr.
  - now rewrite Hch, IH.
Qed.

(** Conversely, a content made of the text Status and a colon, white
    space, one or more word characters of which the first is no white
    space, and a rest that begins with no word character, matches the
    status pattern with these word characters as the status word. *)
Lemma status_match_complete (content : string)
    (spaces w r : list string) :
  startswith content "Status:" = true →
  chars (drop 7 content) = spaces ++ w ++ r →
  Forall (λ ch, is_space ch = true) spaces →
  Forall (λ ch, is_word ch = true) w →
  match w with ch :: _ => is_space ch = false | [] => False end →
  match r with ch :: _ => is_word ch = false | [] => True end →
  status_match content = Some (unchars w, unchars r).
Proof.
  intros Hprefix Hchars Hspaces Hword Hfirst Hrest.
  unfold status_match. rewrite Hprefix, Hchars.
  assert (Hhere : word_and_rest (w ++ r) = Some (unchars w, unchars r)).
  { unfold word_and_rest. rewrite (span_word_app w r Hword Hrest).
    now destruct w. }
  clear Hchars Hprefix.
  induction Hspaces as [|ch spaces Hch _ IH]; simpl.
  - destruct w as [|ch w]; [done|]. simpl. rewrite Hfirst. exact Hhere.
  - now rewrite Hch, IH.
Qed.

(** ** Properties of the output callback *)

Lemma status_match_prefix content word rest :
  status_match content = Some (word, rest) →
  startswith content "Status:" = true.
Proof.
  unfold status_match. now destruct (startswith content "Status:").
Qed.

(** The [in_progress] publication that carries one extracted record. *)
Definition in_progress_of (rq : Request) (record : Extracted) (w : World)
    : Publication :=
  {| pub_topic := topic rq; pub_user := rq_user_id rq;
     pub_prompt := rq_prompt_id rq; pub_status := InProgress;
     pub_payload := PRecord record; pub_is_final := Some false;
     pub_ok := bus_up (length (bus w)) |}.

Definition extracted_with (rendered : string) (record : Extracted)
    (rq : Request) (cs : Session * World) : Session * World :=
  ({| assistant_responses := assistant_responses cs.1 ++ [rendered];
      extracted_responses := extracted_responses cs.1 ++ [record] |},
   set_bus (bus cs.2 ++ [in_progress_of rq record cs.2]) cs.2).

(** C10. For a message that renders to a non-empty text [rendered] with
    content [content] (the text after the first colon, stripped), with
    white space, word characters and upper case as Python has them for
    Unicode text:
    - an analysis whose content matches the status pattern with a word
      whose upper case is FAILED is added to the assistant responses
      only: no record is extracted and nothing is published;
    - an analysis with any other status word is extracted, its content
      being what follows the status word, stripped, and exactly one
      [in_progress] publication carries that record;
    - an analysis whose content does not match the status pattern is
      extracted with its content as it is, and published the same way;
    - a next action is always extracted and published the same way. *)
Theorem failed_analysis_not_extracted (rq : Request) (hide_images : bool)
    (m : Message) (ses : Session) (w : World) (rendered : string) :
  _render_message hide_images m = Some rendered →
  rendered ≠ "" →
  let content := strip (default "" (after_colon rendered)) in
  (∀ word rest,
     message_type_of rendered = Some analysis →
     status_match content = Some (word, rest) →
     upper word = "FAILED" →
     output_callback rq hide_images m (ses, w) =
       ({| assistant_responses := assistant_responses ses ++ [rendered];
           extracted_responses := extracted_responses ses |}, w))
  ∧ (∀ word rest,
     message_type_of rendered = Some analysis →
     status_match content = Some (word, rest) →
     upper word ≠ "FAILED" →
     output_callback rq hide_images m (ses, w) =
       extracted_with rendered
         {| ex_type := analysis; ex_content := CStr (strip rest) |}
         rq (ses, w))
  ∧ (message_type_of rendered = Some analysis →
     status_match content = None →
     output_callback rq hide_images m (ses, w) =
       extracted_with rendered
         {| ex_type := analysis; ex_content := CStr content |}
         rq (ses, w))
  ∧ (message_type_of rendered = Some next_action →
     output_callback rq hide_images m (ses, w) =
       extracted_with rendered
         {| ex_type := next_action;
            ex_content := parse_content next_action rendered |}
         rq (ses, w)).
Proof.
  intros Hrender Hne content.
  assert (Hcb : ∀ ty, message_type_of rendered = Some ty →
    output_callback rq hide_images m (ses, w) =
      let '(should_extract, c) := extraction ty rendered in
      if should_extract
      then extracted_with rendered {| ex_type := ty; ex_content := c |}
             rq (ses, w)
      else ({| assistant_responses := assistant_responses ses ++ [rendered];
               extracted_responses := extracted_responses ses |}, w)).
  { intros ty Hty. unfold output_callback. rewrite Hrender.
    destruct rendered as [|c r]; [done|]. rewrite Hty.
    destruct (extraction ty (String c r)) as [[] c']; reflexivity. }
  repeat split.
  - intros word rest Hty Hmatch Hfailed. rewrite (Hcb _ Hty).
    unfold extraction. fold content.
    rewrite (status_match_prefix _ _ _ Hmatch), Hmatch, Hfailed.
    reflexivity.
  - intros word rest Hty Hmatch Hother. rewrite (Hcb _ Hty).
    unfold extraction. fold content.
    rewrite (status_match_prefix _ _ _ Hmatch), Hmatch.
    now rewrite bool_decide_eq_false_2.
  - intros Hty Hnone. rewrite (Hcb _ Hty).
    unfold extraction. fold content. rewrite Hnone.
    now destruct (startswith content "Status:").
  - intros Hty. rewrite (Hcb _ Hty). reflexivity.
Qed.

(** ** The order of checks and collaborator calls in the agent loop *)

(** The suspending collaborator calls: one observation, one decision,
    one step of the executor. *)
Definition is_phase (e : Ev) : bool :=
  match e with
  | EvObserve | EvDecide | EvNext => true
  | _ => false
  end.

(** On a history with the latest event first: an executor is only created
    right after a decision and a cancellation check that passed. *)
Fixpoint guarded (t : list Ev) : Prop :=
  match t with
  | [] => True
  | EvExecutor :: rest =>
      (∃ t', rest = EvCheck false :: EvDecide :: t') ∧ guarded rest
  | _ :: rest => guarded rest
  end.

(** Every phase comes right after a check that passed, with at most the
    creation of the executor in between. *)
Fixpoint spaced (t : list Ev) : Prop :=
  match t with
  | [] => True
  | e :: rest =>
      (is_phase e = true →
       (∃ t', rest = EvCheck false :: t')
       ∨ (∃ t', rest = EvExecutor :: EvCheck false :: t'))
      ∧ spaced rest
  end.

(** A check of the loop or of its driver that saw a stop flag. *)
Definition saw_stop (e : Ev) : bool :=
  match e with
  | EvCheck true | EvDriverCheck true => true
  | _ => false
  end.

(** No check has seen a stop flag. *)
Fixpoint live (t : list Ev) : Prop :=
  match t with
  | [] => True
  | e :: rest => saw_stop e = false ∧ live rest
  end.

Definition orderly (t : list Ev) : Prop := guarded t ∧ spaced t ∧ live t.

(** Where the next step of the executor may be taken. *)
Definition ready_for_next (n : list Ev) : Prop :=
  orderly n
  ∧ ((∃ n0, n = EvCheck false :: n0)
     ∨ (∃ n0, n = EvExecutor :: EvCheck false :: n0)).

(** How a run of the loop may end: a cancellation seen by a check is the
    last event and makes the loop return [None]; otherwise no check has
    seen one. *)
Definition ended (x : Exit LoopResult) (t : list Ev) : Prop :=
  match x with
  | Returned None => ∃ t', t = EvCheck true :: t' ∧ orderly t'
  | _ => orderly t
  end.

(** Hoare triples on the events a piece of code adds to the history
    (latest first), with one postcondition for falling through and one
    for leaving the function. *)
Definition hoare {R A} (P : list Ev → Prop) (m : M R A)
    (Qv : A → list Ev → Prop) (Qx : Exit R → list Ev → Prop) : Prop :=
  ∀ s t0 n, trace s = n ++ t0 → P n →
    ∃ n', trace (m s).2 = n' ++ t0
          ∧ match (m s).1 with
            | Val a => Qv a n'
            | Stop x => Qx x n'
            end.

Definition pushed (e : Ev) (P : list Ev → Prop) (n : list Ev) : Prop :=
  ∃ n0, n = e :: n0 ∧ P n0.

Lemma hoare_conseq {R A} (P P' : list Ev → Prop) (m : M R A) Qv Qv' Qx Qx' :
  (∀ n, P n → P' n) →
  hoare P' m Qv' Qx' →
  (∀ a n, Qv' a n → Qv a n) →
  (∀ x n, Qx' x n → Qx x n) →
  hoare P m Qv Qx.
Proof.
  intros HP Hm HQv HQx s t0 n Ht Hn.
  destruct (Hm s t0 n Ht (HP _ Hn)) as (n' & Ht' & Hpost).
  exists n'. split; [done|]. destruct (m s).1; auto.
Qed.

Lemma hoare_post {R A} (P : list Ev → Prop) (m : M R A) Qv Qv' Qx Qx' :
  hoare P m Qv' Qx' →
  (∀ a n, Qv' a n → Qv a n) →
  (∀ x n, Qx' x n → Qx x n) →
  hoare P m Qv Qx.
Proof. intros Hm HQv HQx. eapply hoare_conseq; eauto. Qed.

Lemma hoare_ret {R A} (P : list Ev → Prop) (a : A) Qx :
  hoare (R:=R) P (ret a) (λ b n, b = a ∧ P n) Qx.
Proof. intros s t0 n Ht Hn. exists n. simpl. auto. Qed.

Lemma hoare_bind {R A B} (P : list Ev → Prop) (m : M R A) (k : A → M R B)
    Qv Qx' Rv Qx :
  hoare P m Qv Qx' →
  (∀ x n, Qx' x n → Qx x n) →
  (∀ a, hoare (Qv a) (k a) Rv Qx) →
  hoare P (bind m k) Rv Qx.
Proof.
  intros Hm HQx Hk s t0 n Ht Hn. unfold bind.
  destruct (Hm s t0 n Ht Hn) as (n1 & Ht1 & Hpost).
  destruct (m s) as [[a|x] s1]; simpl in *.
  - exact (Hk a s1 t0 n1 Ht1 Hpost).
  - exists n1. auto.
Qed.

Lemma hoare_returnValue {R A} (P : list Ev → Prop) (r : R) Qv :
  hoare (A:=A) P (returnValue r) Qv (λ x n, x = Returned r ∧ P n).
Proof. intros s t0 n Ht Hn. exists n. simpl. auto. Qed.

Lemma hoare_raise {R A} (P : list Ev → Prop) (e : Exn) Qv :
  hoare (R:=R) (A:=A) P (raise e) Qv (λ x n, x = Raised e ∧ P n).
Proof. intros s t0 n Ht Hn. exists n. simpl. auto. Qed.

Lemma hoare_try_except {R A} (P : list Ev → Prop) (m : M R A) h Qv Qx' Qx :
  hoare P m Qv Qx' →
  (∀ e, hoare (Qx' (Raised e)) (h e) Qv Qx) →
  (∀ r n, Qx' (Returned r) n → Qx (Returned r) n) →
  (∀ n, Qx' OutOfFuel n → Qx OutOfFuel n) →
  hoare P (try_except m h) Qv Qx.
Proof.
  intros Hm Hh Hr Hf s t0 n Ht Hn. unfold try_except.
  destruct (Hm s t0 n Ht Hn) as (n1 & Ht1 & Hpost).
  destruct (m s) as [[a|[r|e|]] s1]; simpl in *; eauto.
  exact (Hh e s1 t0 n1 Ht1 Hpost).
Qed.

(** Code that keeps the history and falls through. *)
Lemma hoare_gets {R A} (P : list Ev → Prop) (f : LState → A) Qx :
  hoare (R:=R) P (gets f) (λ _ n, P n) Qx.
Proof. intros s t0 n Ht Hn. exists n. simpl. auto. Qed.

Lemma hoare_modify {R} (P : list Ev → Prop) (f : LState → LState) Qx :
  (∀ s, trace (f s) = trace s) →
  hoare (R:=R) P (modify f) (λ _ n, P n) Qx.
Proof.
  intros Hf s t0 n Ht Hn. exists n. simpl. rewrite Hf. auto.
Qed.

Lemma hoare_record {R} (P : list Ev → Prop) (e : Ev) Qx :
  hoare (R:=R) P (modify (record e)) (λ _ n, pushed e P n) Qx.
Proof.
  intros s t0 n Ht Hn. exists (e :: n). simpl. rewrite Ht.
  split; [done|]. now exists n.
Qed.

Lemma hoare_lift_reply {R A} (P : list Ev → Prop) (r : Reply A) :
  hoare (R:=R) P (lift_reply r) (λ _ n, P n)
        (λ x n, (∃ e, x = Raised e) ∧ P n).
Proof.
  intros s t0 n Ht Hn. exists n. destruct r; simpl; eauto.
Qed.

Lemma trace_deliver_stops s : trace (deliver_stops s) = trace s.
Proof. reflexivity. Qed.

Lemma hoare_emit {R} (P : list Ev → Prop) rq ms Qx :
  hoare (R:=R) P (emit rq ms) (λ _ n, P n) Qx.
Proof.
  apply hoare_modify. intros s.
  now destruct (foldl _ _ ms).
Qed.

Lemma hoare_put_messages {R} (P : list Ev → Prop) ms Qx :
  hoare (R:=R) P (put_messages ms) (λ _ n, P n) Qx.
Proof. now apply hoare_modify. Qed.

(** A cancellation point adds one check to the history; it falls through
    when the check passes and returns [None] when it does not. *)
Lemma hoare_check (P : list Ev → Prop) tok key :
  hoare P (check_cancellation tok key)
    (λ _ n, pushed (EvCheck false) P n)
    (λ x n, (x = Returned None ∧ pushed (EvCheck true) P n)
            ∨ ((∃ e, x = Raised e) ∧ P n)).
Proof.
  intros s t0 n Ht Hn. unfold check_cancellation.
  destruct (tok ≫= _) as [t|].
  - destruct (cancel_requested t key); simpl.
    + exists (EvCheck true :: n). rewrite Ht. split; [done|].
      left. split; [done|]. now exists n.
    + exists (EvCheck false :: n). rewrite Ht. split; [done|]. now exists n.
  - exists n. simpl. split; [done|]. right. eauto.
Qed.

Ltac hprim :=
  first
    [ apply hoare_check | apply hoare_record | apply hoare_gets
    | apply hoare_emit | apply hoare_put_messages | apply hoare_lift_reply
    | apply hoare_ret | apply hoare_returnValue | apply hoare_raise ].

(** Opens the assertions that have piled up. *)
Ltac shape :=
  repeat match goal with
         | H : pushed _ _ _ |- _ => destruct H as (? & ? & ?)
         | H : ∃ _, _ |- _ => destruct H
         | H : _ ∧ _ |- _ => destruct H
         | H : _ ∨ _ |- _ => destruct H
         | H : False |- _ => destruct H
         end;
  subst.

Ltac hside :=
  intros; cbv beta in *;
  repeat first
    [ progress (unfold ended, orderly, ready_for_next in *)
    | progress shape | progress (simpl in *)
    | match goal with
      | |- ∃ _, _ :: _ = _ :: _ ∧ _ => eexists; split; [reflexivity|]
      end
    | split | intro | exact I ];
  try discriminate; try congruence; eauto.

Ltac hside0 :=
  first [ solve [intros ? ? H; exact H] | solve [hside] | idtac ].

Ltac hstep :=
  eapply hoare_bind; [hprim | hside0 | intros ?].

Ltac hlast :=
  eapply hoare_post; [hprim | hside0 | hside0].

Lemma hoare_observe (P : list Ev → Prop) :
  hoare P observe (λ _ n, pushed EvObserve P n)
        (λ x n, (∃ e, x = Raised e) ∧ pushed EvObserve P n).
Proof.
  unfold observe, now. hstep. hstep. hlast.
Qed.

Lemma hoare_decide_vlm (P : list Ev → Prop) rq screen :
  hoare P (decide_vlm rq screen) (λ _ n, pushed EvDecide P n)
        (λ x n, (∃ e, x = Raised e) ∧ pushed EvDecide P n).
Proof.
  unfold decide_vlm, now, get_messages. hstep. hstep. hstep.
  destruct (vlm_agent _ _ _) as [emitted reply].
  hstep. hstep. hstep. hlast.
Qed.

Lemma hoare_decide_anthropic (P : list Ev → Prop) :
  hoare P decide_anthropic (λ _ n, pushed EvDecide P n)
        (λ x n, (∃ e, x = Raised e) ∧ pushed EvDecide P n).
Proof.
  unfold decide_anthropic, now, get_messages.
  hstep. hstep. hstep. hstep. hstep. hlast.
Qed.

Lemma hoare_call_executor (P : list Ev → Prop) tools :
  hoare P (call_executor tools) (λ _ n, pushed EvExecutor P n)
        (λ x n, (∃ e, x = Raised e) ∧ pushed EvExecutor P n).
Proof.
  unfold call_executor, now, get_messages. hstep. hstep. hstep. hlast.
Qed.

Lemma hoare_run_step (P : list Ev → Prop) rq st Qx :
  hoare P (run_step rq st) (λ _ n, pushed EvNext P n) Qx.
Proof.
  unfold run_step. hstep. hstep. hlast.
Qed.

Lemma hoare_vlm_items rq tok steps trc :
  hoare orderly (vlm_items rq tok steps trc) (λ _ n, orderly n) ended.
Proof.
  revert trc. induction steps as [|st rest IH]; intros trc; simpl;
    (eapply (hoare_try_except _ _ _ _ ended ended);
     [ | intros e; hlast | auto | auto ]).
  - hstep. hstep. hlast.
  - hstep. eapply hoare_bind; [apply hoare_run_step | hside0 | intros ?].
    destruct (step_result st) as [[c|]| |e].
    + eapply hoare_conseq; [ | apply IH | | ]; hside0.
    + eapply hoare_conseq; [ | apply IH | | ]; hside0.
    + hlast.
    + hlast.
Qed.

Lemma hoare_anthropic_items rq tok steps trc :
  hoare ready_for_next (anthropic_items rq tok steps trc)
        (λ _ n, orderly n) ended.
Proof.
  revert trc. induction steps as [|st rest IH]; intros trc; simpl.
  - hstep. hlast.
  - eapply hoare_bind; [apply hoare_run_step | hside0 | intros ?].
    destruct (step_result st) as [[c|]| |e].
    + hstep. eapply hoare_conseq; [ | apply IH | | ]; hside0.
    + hlast.
    + hlast.
    + hlast.
Qed.

Lemma hoare_out_of_fuel {R A} (P : list Ev → Prop) Qv :
  hoare (R:=R) (A:=A) P (λ s, (Fuel, s)) Qv (λ x n, x = OutOfFuel ∧ P n).
Proof. intros s t0 n Ht Hn. exists n. simpl. auto. Qed.

Lemma hoare_completion (P : list Ev → Prop) (detected : bool) :
  hoare P
    (if detected
     then let* ms := get_messages in returnValue (Some ms)
     else ret tt)
    (λ _ n, P n)
    (λ x n, (∃ ms, x = Returned (Some ms)) ∧ P n).
Proof.
  destruct detected.
  - unfold get_messages. hstep. hlast.
  - hlast.
Qed.

Lemma hoare_model_choice (P : list Ev → Prop) (a b : bool) e :
  hoare (R:=LoopResult) P
    (if a then ret tt else if b then ret tt else raise e)
    (λ _ n, P n)
    (λ x n, (∃ e, x = Raised e) ∧ P n).
Proof. destruct a, b; hlast. Qed.

Lemma hoare_vlm_iteration rq tok trc :
  hoare orderly (vlm_iteration rq tok trc) (λ _ n, orderly n) ended.
Proof.
  unfold vlm_iteration.
  hstep.
  eapply hoare_bind; [apply hoare_observe | hside0 | intros screen].
  hstep.
  eapply hoare_bind; [apply hoare_decide_vlm | hside0 | intros [tools json]].
  hstep.
  eapply hoare_bind; [apply hoare_completion | hside0 | intros ?].
  eapply (hoare_try_except _ _ _ _ ended ended); [ | intros e; hlast | auto | auto ].
  eapply hoare_bind; [apply hoare_call_executor | hside0 | intros steps].
  eapply hoare_conseq; [ | apply hoare_vlm_items | | ]; hside0.
Qed.

Lemma hoare_vlm_loop rq tok fuel trc :
  hoare orderly (vlm_loop rq tok fuel trc) (λ _ _, False) ended.
Proof.
  revert trc. induction fuel as [|fuel IH]; intros trc; simpl.
  - eapply hoare_post; [apply hoare_out_of_fuel | hside0 | hside0].
  - eapply hoare_bind; [apply hoare_vlm_iteration | hside0 | intros trc'].
    destruct (falsy trc').
    + unfold get_messages. hstep. hlast.
    + apply IH.
Qed.

Lemma hoare_anthropic_loop rq tok fuel trc :
  hoare orderly (anthropic_loop rq tok fuel trc) (λ _ _, False) ended.
Proof.
  revert trc. induction fuel as [|fuel IH]; intros trc; simpl.
  - eapply hoare_post; [apply hoare_out_of_fuel | hside0 | hside0].
  - unfold get_messages.
    hstep.
    eapply hoare_bind; [apply hoare_observe | hside0 | intros screen].
    hstep. hstep. hstep. hstep.
    eapply hoare_bind; [apply hoare_decide_anthropic | hside0 | intros tools].
    hstep.
    eapply hoare_bind; [apply hoare_call_executor | hside0 | intros steps].
    eapply hoare_bind;
      [ eapply hoare_conseq; [ | apply hoare_anthropic_items | | ];
        [hside0 | intros ? ? H; exact H | intros ? ? H; exact H]
      | hside0 | intros trc' ].
    hstep.
    destruct (falsy trc').
    + hlast.
    + hstep. apply IH.
Qed.

Lemma hoare_sampling_loop_sync rq tok fuel model :
  hoare orderly (sampling_loop_sync rq tok fuel model) (λ _ _, False) ended.
Proof.
  unfold sampling_loop_sync.
  hstep.
  eapply hoare_bind; [apply hoare_model_choice | hside0 | intros ?].
  hstep.
  destruct (bool_decide (model = _)).
  - eapply hoare_conseq; [ | apply hoare_anthropic_loop | | ]; hside0.
  - eapply hoare_conseq; [ | apply hoare_vlm_loop | | ]; hside0.
Qed.

(** *** The same facts on the history in the order of time *)

Lemma guarded_suffix l1 l2 : guarded (l1 ++ l2) → guarded l2.
Proof.
  induction l1 as [|e l1 IH]; simpl; [done|].
  destruct e; simpl; try exact IH. intros [_ H]. auto.
Qed.

Lemma spaced_suffix l1 l2 : spaced (l1 ++ l2) → spaced l2.
Proof. induction l1 as [|e l1 IH]; simpl; [done|]. intros [_ H]. auto. Qed.

Lemma live_not_elem t e : live t → saw_stop e = true → e ∉ t.
Proof.
  intros Hl He. induction t as [|e' t IH]; simpl in *.
  - intros H. inversion H.
  - destruct Hl as [He' Hl]. apply not_elem_of_cons. split; [|auto].
    intros ->. congruence.
Qed.

Lemma reverse_eq_app {A} (t : list A) before e after :
  reverse t = before ++ e :: after →
  t = reverse after ++ e :: reverse before.
Proof.
  intros H. rewrite <- (reverse_involutive t), H.
  rewrite reverse_app, reverse_cons, <- app_assoc. reflexivity.
Qed.

Lemma guarded_in_time t before after :
  guarded t →
  reverse t = before ++ EvExecutor :: after →
  ∃ b0, before = b0 ++ [EvDecide; EvCheck false].
Proof.
  intros Hg Hrev. apply reverse_eq_app in Hrev. subst t.
  apply guarded_suffix in Hg. simpl in Hg. destruct Hg as [[t' Ht'] _].
  exists (reverse t'). rewrite <- (reverse_involutive before), Ht'.
  rewrite !reverse_cons, <- !app_assoc. reflexivity.
Qed.

Lemma spaced_in_time t before e after :
  spaced t →
  reverse t = before ++ e :: after →
  is_phase e = true →
  ∃ b0, before = b0 ++ [EvCheck false]
        ∨ before = b0 ++ [EvCheck false; EvExecutor].
Proof.
  intros Hs Hrev He. apply reverse_eq_app in Hrev. subst t.
  apply spaced_suffix in Hs. simpl in Hs. destruct Hs as [Hs _].
  destruct (Hs He) as [[t' Ht']|[t' Ht']]; exists (reverse t');
    rewrite <- (reverse_involutive before), Ht';
    rewrite !reverse_cons, <- ?app_assoc; auto.
Qed.

Lemma live_in_time t before after :
  live t → reverse t ≠ before ++ EvCheck true :: after.
Proof.
  intros Hl Hrev. apply (live_not_elem t (EvCheck true) Hl eq_refl).
  apply elem_of_reverse. rewrite Hrev. set_solver.
Qed.

Lemma ended_in_time (x : Exit LoopResult) t before after :
  ended x t →
  reverse t = before ++ EvCheck true :: after →
  after = [] ∧ x = Returned None.
Proof.
  intros He Hrev.
  assert (Hlive : ∀ x', x = x' → orderly t → False).
  { intros _ _ (_ & _ & Hl). exact (live_in_time _ _ _ Hl Hrev). }
  destruct x as [[ms|]|e|]; simpl in He;
    try (exfalso; eapply Hlive; eauto; fail).
  destruct He as (t' & -> & _ & _ & Hl). split; [|done].
  rewrite reverse_cons in Hrev.
  destruct after as [|z after _] using rev_ind; [done|]. exfalso.
  rewrite app_comm_cons, app_assoc in Hrev.
  apply app_inj_tail in Hrev as [Hrev _].
  exact (live_in_time _ _ _ Hl Hrev).
Qed.

(** ** What the stop handler may change *)

(** The bus only gains publications, with statuses among the allowed. *)
Definition grows (ok : TaskStatus → Prop) (b b' : list Publication) : Prop :=
  ∃ new, b' = b ++ new ∧ Forall (λ p, ok (pub_status p)) new.

Lemma grows_refl ok b : grows ok b b.
Proof. exists []. split; [now rewrite app_nil_r|constructor]. Qed.

Lemma grows_trans ok b1 b2 b3 :
  grows ok b1 b2 → grows ok b2 b3 → grows ok b1 b3.
Proof.
  intros (n1 & -> & H1) (n2 & -> & H2). exists (n1 ++ n2).
  split; [now rewrite app_assoc|]. apply Forall_app; auto.
Qed.

Lemma grows_weaken (ok ok' : TaskStatus → Prop) b b' :
  (∀ st, ok st → ok' st) → grows ok b b' → grows ok' b b'.
Proof.
  intros Hok (n & -> & H). exists n. split; [done|].
  eapply Forall_impl; [exact H|]. simpl. auto.
Qed.

Lemma grows_one (ok : TaskStatus → Prop) b p :
  ok (pub_status p) → grows ok b (b ++ [p]).
Proof. intros H. exists [p]. split; [done|]. repeat constructor. exact H. Qed.

(** Token objects stay where they are, and a raised flag stays raised. *)
Definition flags_kept (h h' : list TokenObj) : Prop :=
  length h' = length h
  ∧ ∀ a t, h !! a = Some t →
      ∃ t', h' !! a = Some t'
            ∧ (tok_stop t = true → tok_stop t' = true)
            ∧ tok_task_tokens t' = tok_task_tokens t.

Lemma flags_kept_refl h : flags_kept h h.
Proof. split; [done|]. intros a t Ht. exists t. auto. Qed.

Lemma flags_kept_trans h1 h2 h3 :
  flags_kept h1 h2 → flags_kept h2 h3 → flags_kept h1 h3.
Proof.
  intros [L1 H1] [L2 H2]. split; [congruence|].
  intros a t Ht. destruct (H1 a t Ht) as (t2 & Ht2 & Hs2 & Hk2).
  destruct (H2 a t2 Ht2) as (t3 & Ht3 & Hs3 & Hk3).
  exists t3. repeat split; auto. congruence.
Qed.

Lemma flags_kept_raise a h : flags_kept h (alter raise_flag a h).
Proof.
  split; [apply length_alter|]. intros b t Ht.
  destruct (decide (a = b)) as [->|Hne].
  - rewrite list_lookup_alter_eq, Ht. simpl. eexists. split; [done|]. auto.
  - rewrite list_lookup_alter_ne by done. exists t. auto.
Qed.

Definition stop_notice (st : TaskStatus) : Prop :=
  st = Stopping ∨ st = Stopped.

(** The footprint of the stop handler on the process state: it publishes
    [stopping] and [stopped], raises flags, and rewrites the registry,
    the per-task tokens and the process-wide flag. *)
Definition frame (w w' : World) : Prop :=
  grows stop_notice (bus w) (bus w')
  ∧ flags_kept (heap w) (heap w')
  ∧ saved_json w' = saved_json w
  ∧ config (app_state w') = config (app_state w)
  ∧ messages (app_state w') = messages (app_state w)
  ∧ cancellation_token (app_state w') = cancellation_token (app_state w).

Lemma frame_refl w : frame w w.
Proof.
  unfold frame. repeat split; auto using grows_refl; apply flags_kept_refl.
Qed.

Lemma frame_trans w1 w2 w3 : frame w1 w2 → frame w2 w3 → frame w1 w3.
Proof.
  intros (B1 & H1 & F1 & C1 & M1 & T1) (B2 & H2 & F2 & C2 & M2 & T2).
  repeat split; try congruence;
    eauto using grows_trans; eapply flags_kept_trans; eauto.
Qed.

Lemma frame_upd_app f w :
  (∀ a, config (f a) = config a ∧ messages (f a) = messages a
        ∧ cancellation_token (f a) = cancellation_token a) →
  frame w (upd_app f w).
Proof.
  intros Hf. destruct (Hf (app_state w)) as (C & M & T).
  unfold frame. simpl.
  repeat split; auto using grows_refl; apply flags_kept_refl.
Qed.

Lemma frame_set_global_token w : frame w (set_global_token w).
Proof.
  unfold set_global_token. destruct (cancellation_token _); [|apply frame_refl].
  unfold frame. simpl.
  repeat split; auto using grows_refl; apply flags_kept_raise.
Qed.

Lemma frame_publish tp uid pid st p final w :
  stop_notice st → frame w (publish tp uid pid st p final w).1.
Proof.
  intros Hst. unfold frame. simpl.
  repeat split; auto; try apply flags_kept_refl.
  now apply grows_one.
Qed.

Arguments publish : simpl never.

Ltac frame_app :=
  apply frame_upd_app; intros a; simpl; solve [auto].

Lemma frame_mark_tasks tasks w :
  frame w (foldl (λ w t, upd_app (mark_task (task_key (Some t.1) t.2)) w)
                 w tasks).
Proof.
  revert w. induction tasks as [|t tasks IH]; intros w; simpl.
  - apply frame_refl.
  - eapply frame_trans; [|apply IH]. frame_app.
Qed.

Lemma frame_ensure_task_tokens w : frame w (upd_app ensure_task_tokens w).
Proof.
  apply frame_upd_app. intros a. unfold ensure_task_tokens.
  now destruct (task_tokens a).
Qed.

Lemma frame_resolve_stop msg w w' tasks pid :
  resolve_stop msg w = Some (w', tasks, pid) → frame w w'.
Proof.
  unfold resolve_stop.
  destruct (truthy_flag _).
  - intros [= <- _ _].
    eapply frame_trans; [|apply frame_set_global_token]. frame_app.
  - destruct (get (sm_user_id msg)) as [uid|]; [|discriminate].
    destruct (truthy (Some uid)); [|discriminate].
    match goal with |- context [if truthy ?p then _ else _] =>
      destruct (truthy p) end; intros [= <- _ _].
    + repeat (eapply frame_trans;
                [|first [ apply frame_set_global_token | frame_app ]]).
      apply frame_ensure_task_tokens.
    + repeat (eapply frame_trans;
                [|first [ apply frame_set_global_token | frame_app ]]).
      eapply frame_trans; [apply frame_ensure_task_tokens|].
      apply frame_mark_tasks.
Qed.

Lemma notify_stopping_cons pid u p rest stopped w :
  notify_stopping pid ((u, p) :: rest) stopped w =
    let '(w1, ok) :=
      publish (topic_of p (Some u)) (Some u) p Stopping
              (PText "Processing stop request...") None w in
    if ok then
      let sessions := active_sessions (app_state w1) in
      notify_stopping pid rest (stopped ++ [(u, p)])
        (if dict_mem u sessions then
           if bool_decide (dict_get u sessions = Some p) || negb (truthy pid)
           then upd_app (set_active_sessions (dict_del u sessions)) w1
           else w1
         else w1)
    else notify_stopping pid rest stopped w1.
Proof. reflexivity. Qed.

Lemma notify_stopped_cons u p rest w :
  notify_stopped ((u, p) :: rest) w =
    notify_stopped rest
      (publish (topic_of p (Some u)) (Some u) p Stopped
               (PText "Processing stopped successfully") None w).1.
Proof. reflexivity. Qed.

Lemma frame_notify_stopping pid tasks stopped w :
  frame w (notify_stopping pid tasks stopped w).1.
Proof.
  revert stopped w. induction tasks as [|[u p] tasks IH]; intros stopped w.
  - apply frame_refl.
  - rewrite notify_stopping_cons.
    pose proof (frame_publish (topic_of p (Some u)) (Some u) p Stopping
                  (PText "Processing stop request...") None w
                  (or_introl eq_refl)) as Hpub.
    destruct (publish _ _ _ _ _ _ w) as [w1 ok]. simpl in Hpub.
    destruct ok; [|eapply frame_trans; [exact Hpub|apply IH]].
    eapply frame_trans; [exact Hpub|]. cbv zeta.
    eapply frame_trans; [|apply IH].
    destruct (dict_mem u _); [|apply frame_refl].
    destruct (_ || _); [frame_app|apply frame_refl].
Qed.

Lemma frame_notify_stopped stopped w :
  frame w (notify_stopped stopped w).
Proof.
  revert w. induction stopped as [|[u p] stopped IH]; intros w.
  - apply frame_refl.
  - rewrite notify_stopped_cons.
    eapply frame_trans; [|apply IH]. apply frame_publish. now right.
Qed.

Lemma frame_handle_stop_request msg w :
  frame w (handle_stop_request msg w).1.
Proof.
  unfold handle_stop_request.
  destruct (empty_payload msg); [apply frame_refl|].
  destruct (resolve_stop msg w) as [[[w1 tasks] pid]|] eqn:Hres;
    [|apply frame_refl].
  apply frame_resolve_stop in Hres.
  destruct tasks as [|t tasks]; [exact Hres|].
  pose proof (frame_notify_stopping pid (t :: tasks) [] w1) as Hn.
  destruct (notify_stopping pid (t :: tasks) [] w1) as [w2 stopped].
  simpl in Hn.
  eapply frame_trans; [exact Hres|]. eapply frame_trans; [exact Hn|].
  simpl. destruct (_ && _).
  - eapply frame_trans; [apply frame_notify_stopped|]. frame_app.
  - apply frame_notify_stopped.
Qed.

Lemma frame_deliver_stops s :
  frame (world s) (world (deliver_stops s)).
Proof.
  unfold deliver_stops. simpl.
  generalize (arrivals (length (trace s))) (world s).
  intros msgs. induction msgs as [|msg msgs IH]; intros w; simpl.
  - apply frame_refl.
  - eapply frame_trans; [apply frame_handle_stop_request|apply IH].
Qed.

(** ** Cancellation of the agent loop *)

(** A raised flag survives the stop requests that come in, and the next
    cancellation point returns [None]. The flag is the one of the token
    object, or the one nested under its ["task_tokens"] key. *)
Lemma check_sees_raised_flag a key s t :
  heap (world s) !! a = Some t →
  cancel_requested t key = true →
  check_cancellation (Some a) key s
  = (Ret None, record (EvCheck true) (deliver_stops s)).
Proof.
  intros Ht Hstop.
  destruct (frame_deliver_stops s) as (_ & [_ Hkept] & _).
  destruct (Hkept a t Ht) as (t' & Ht' & Hstop' & Hnested).
  unfold check_cancellation. cbv zeta.
  set (s1 := deliver_stops s) in *. clearbody s1.
  simpl. rewrite Ht'.
  assert (Hreq : cancel_requested t' key = true).
  { unfold cancel_requested in *. rewrite Hnested.
    destruct (tok_stop t); [now rewrite Hstop'|].
    simpl in Hstop. rewrite Hstop. apply orb_true_r. }
  now rewrite Hreq.
Qed.

Lemma ended_guarded_spaced (x : Exit LoopResult) t :
  ended x t → guarded t ∧ spaced t.
Proof.
  destruct x as [[ms|]|e|]; simpl; try (intros (? & ? & ?); auto; fail).
  intros (t' & -> & Hg & Hs & _). simpl. repeat split; auto. discriminate.
Qed.

(** The two stop flags a cancellation point reads in the token object
    passed to the loop: its own [stop], and the [stop] of the token
    nested under its ["task_tokens"] key for the task. *)
Definition flag_raised (t : TokenObj) (key : string) : Prop :=
  tok_stop t = true ∨ default ∅ (tok_task_tokens t) !! key = Some true.

Lemma raised_flag_requested t key :
  flag_raised t key → cancel_requested t key = true.
Proof.
  unfold flag_raised, cancel_requested.
  intros [-> | ->]; [reflexivity|apply orb_true_r].
Qed.

(** A cancellation point lets the loop go on only when, after the stop
    requests that have come in, both flags of the token object are
    down. *)
Lemma passed_check_flag_down a key s s' :
  check_cancellation (Some a) key s = (Val tt, s') →
  ∃ t, heap (world s') !! a = Some t
       ∧ tok_stop t = false
       ∧ default ∅ (tok_task_tokens t) !! key ≠ Some true.
Proof.
  unfold check_cancellation. cbv zeta.
  set (s1 := deliver_stops s). clearbody s1. simpl.
  destruct (heap (world s1) !! a) as [t|] eqn:Hlook; [|discriminate].
  destruct (cancel_requested t key) eqn:Hreq; [discriminate|].
  intros [= <-]. exists t. split; [exact Hlook|].
  unfold cancel_requested in Hreq. apply orb_false_elim in Hreq as [Hown Hnested].
  split; [exact Hown|]. intros Hkey. rewrite Hkey in Hnested. discriminate.
Qed.

(** C1. In every run of [sampling_loop_sync], with either backend, for
    the events the run adds to the history (in the order of time):
    - a cancellation check that sees the stop flag is the last event,
      and the loop then returns [None]: nothing is passed to the
      executor, and no other collaborator is called, after it;
    - the executor is only invoked right after the decision call and a
      cancellation check that passed;
    - every phase (observation, decision, step of the executor) comes
      right after a check that passed, so a flag raised at any time is
      seen after at most the one phase that is under way;
    - a check made while the stop flag of the token object is up (its
      own [stop] set to true, or the one nested under its
      ["task_tokens"] key) returns [None], whatever stop requests come
      in meanwhile; and a check lets the loop go on only when both
      flags are down at that time;
    - so a loop started with the stop flag of its token up ends at its
      first check, and an iteration of either backend begun with the
      flag up returns [None] at once. *)
Theorem cancellation_within_one_phase (rq : Request) (tok : option nat)
    (fuel : nat) (model : string) (s : LState) :
  let r := sampling_loop_sync rq tok fuel model s in
  let key := task_key (rq_user_id rq) (rq_prompt_id rq) in
  ∃ events,
    reverse (trace r.2) = reverse (trace s) ++ events
    ∧ (∀ before after,
         events = before ++ EvCheck true :: after →
         after = [] ∧ r.1 = Ret None)
    ∧ (∀ before after,
         events = before ++ EvExecutor :: after →
         ∃ b0, before = b0 ++ [EvDecide; EvCheck false])
    ∧ (∀ before e after,
         events = before ++ e :: after →
         is_phase e = true →
         ∃ b0, before = b0 ++ [EvCheck false]
               ∨ before = b0 ++ [EvCheck false; EvExecutor])
    ∧ (∀ a t k s1,
         heap (world s1) !! a = Some t →
         tok_stop t = true
         ∨ default ∅ (tok_task_tokens t) !! k = Some true →
         check_cancellation (Some a) k s1
         = (Ret None, record (EvCheck true) (deliver_stops s1)))
    ∧ (∀ a k s1 s2,
         check_cancellation (Some a) k s1 = (Val tt, s2) →
         ∃ t, heap (world s2) !! a = Some t
              ∧ tok_stop t = false
              ∧ default ∅ (tok_task_tokens t) !! k ≠ Some true)
    ∧ (∀ a t,
         tok = Some a →
         heap (world s) !! a = Some t →
         tok_stop t = true
         ∨ default ∅ (tok_task_tokens t) !! key = Some true →
         r.1 = Ret None ∧ events = [EvCheck true])
    ∧ (∀ a t n trc s1,
         tok = Some a →
         heap (world s1) !! a = Some t →
         tok_stop t = true
         ∨ default ∅ (tok_task_tokens t) !! key = Some true →
         (anthropic_loop rq tok (S n) trc s1).1 = Ret None
         ∧ (vlm_loop rq tok (S n) trc s1).1 = Ret None).
Proof.
  intros r key. subst key.
  assert (Hnil : orderly []) by (repeat split).
  destruct (hoare_sampling_loop_sync rq tok fuel model s (trace s) []
              eq_refl Hnil) as (n' & Ht & Hpost).
  fold r in Ht, Hpost.
  exists (reverse n'). split; [now rewrite Ht, reverse_app|].
  destruct (r.1) as [[]|x] eqn:Hr.
  pose proof (ended_guarded_spaced x n' Hpost) as [Hg Hs].
  split; [|split; [|split; [|split; [|split; [|split]]]]].
  - intros before after Hev.
    destruct (ended_in_time x n' before after Hpost Hev) as [-> ->]. done.
  - intros before after Hev. exact (guarded_in_time n' before after Hg Hev).
  - intros before e after Hev He.
    exact (spaced_in_time n' before e after Hs Hev He).
  - intros a t k s1 Hlook Hflag.
    exact (check_sees_raised_flag a k s1 t Hlook
             (raised_flag_requested t k Hflag)).
  - intros a k s1 s2. apply passed_check_flag_down.
  - intros a t -> Hlook Hflag.
    pose proof (raised_flag_requested t _ Hflag) as Hstop.
    assert (Hrun : r = (Ret None, record (EvCheck true) (deliver_stops s))).
    { unfold r, sampling_loop_sync, bind.
      now rewrite (check_sees_raised_flag a _ s t Hlook Hstop). }
    rewrite Hrun in Hr, Ht. simpl in Hr, Ht. split; [congruence|].
    change (EvCheck true :: trace s) with ([EvCheck true] ++ trace s) in Ht.
    apply app_inv_tail in Ht. now rewrite <- Ht.
  - intros a t n trc s1 -> Hlook Hflag.
    pose proof (raised_flag_requested t _ Hflag) as Hstop.
    split; simpl.
    + unfold bind at 1.
      now rewrite (check_sees_raised_flag a _ s1 t Hlook Hstop).
    + unfold vlm_iteration, bind.
      now rewrite (check_sees_raised_flag a _ s1 t Hlook Hstop).
Qed.

(** ** Completion of the omniparser loop *)

Lemma trace_check_passed tok key s s1 :
  check_cancellation tok key s = (Val tt, s1) →
  trace s1 = EvCheck false :: trace s.
Proof.
  intros H.
  destruct (hoare_check (λ n, n = []) tok key s (trace s) [] eq_refl eq_refl)
    as (n' & Ht & Hp).
  rewrite H in Ht, Hp. simpl in Ht, Hp. now destruct Hp as (n0 & -> & ->).
Qed.

Lemma trace_observed s screen s1 :
  observe s = (Val screen, s1) → trace s1 = EvObserve :: trace s.
Proof.
  intros H.
  destruct (hoare_observe (λ n, n = []) s (trace s) [] eq_refl eq_refl)
    as (n' & Ht & Hp).
  rewrite H in Ht, Hp. simpl in Ht, Hp. now destruct Hp as (n0 & -> & ->).
Qed.

Lemma trace_decided rq screen s r s1 :
  decide_vlm rq screen s = (Val r, s1) → trace s1 = EvDecide :: trace s.
Proof.
  intros H.
  destruct (hoare_decide_vlm (λ n, n = []) rq screen s (trace s) []
              eq_refl eq_refl) as (n' & Ht & Hp).
  rewrite H in Ht, Hp. simpl in Ht, Hp. now destruct Hp as (n0 & -> & ->).
Qed.

(** The call of the executor is the next event. *)
Lemma trace_executor_called tools s :
  trace (call_executor tools s).2 = EvExecutor :: trace s.
Proof.
  unfold call_executor, now, get_messages, gets, modify, lift_reply, bind.
  simpl. destruct (executor _ _ _); reflexivity.
Qed.

(** C8, as the code has it. In every iteration of the omniparser loop:
    - when the checks of the iteration pass and the decision function
      answers with a non-empty dictionary whose ["Next Action"] is the
      text None, missing, null or empty, the loop returns the message
      history there: the events of the iteration are three checks, the
      observation and the decision, and the executor is not invoked;
    - when the iteration reaches its end with an empty tool-result
      content, the loop returns the message history in the state the
      iteration ended in, so nothing more is invoked;
    - when the checks of the iteration pass and the decision function
      answers with [None], with the empty dictionary or with something
      that is not a dictionary, the completion test is skipped: the
      iteration goes on with the call of the executor, which is the
      next event. *)
Theorem completion_ends_the_loop (rq : Request) (tok : option nat)
    (fuel : nat) (trc : option (list string)) (s : LState) :
  let key := task_key (rq_user_id rq) (rq_prompt_id rq) in
  (∀ s1 screen s2 s3 tools d s4 s5,
     check_cancellation tok key s = (Val tt, s1) →
     observe s1 = (Val screen, s2) →
     check_cancellation tok key s2 = (Val tt, s3) →
     decide_vlm rq screen s3 = (Val (tools, VDict d), s4) →
     check_cancellation tok key s4 = (Val tt, s5) →
     d ≠ ∅ →
     mjoin (d !! "Next Action") = Some "None"
     ∨ truthy (mjoin (d !! "Next Action")) = false →
     vlm_loop rq tok (S fuel) trc s
     = (Ret (Some (messages (app_state (world s5)))), s5)
     ∧ trace s5 = [EvCheck false; EvDecide; EvCheck false; EvObserve;
                   EvCheck false] ++ trace s)
  ∧ (∀ trc' s',
       vlm_iteration rq tok trc s = (Val trc', s') →
       falsy trc' = true →
       vlm_loop rq tok (S fuel) trc s
       = (Ret (Some (messages (app_state (world s')))), s'))
  ∧ (∀ s1 screen s2 s3 tools response s4 s5,
       check_cancellation tok key s = (Val tt, s1) →
       observe s1 = (Val screen, s2) →
       check_cancellation tok key s2 = (Val tt, s3) →
       decide_vlm rq screen s3 = (Val (tools, response), s4) →
       check_cancellation tok key s4 = (Val tt, s5) →
       response = VNone ∨ response = VDict ∅
       ∨ (∃ is_truthy, response = VOther is_truthy) →
       vlm_iteration rq tok trc s
       = try_except
           (let* steps := call_executor tools in vlm_items rq tok steps trc)
           (λ _, ret trc) s5
       ∧ trace (call_executor tools s5).2
         = [EvExecutor; EvCheck false; EvDecide; EvCheck false; EvObserve;
            EvCheck false] ++ trace s).
Proof.
  intros key. split; [|split].
  - intros s1 screen s2 s3 tools d s4 s5 H1 H2 H3 H4 H5 Hd Hnext. split.
    + simpl. unfold vlm_iteration, bind. fold key.
      rewrite H1, H2, H3, H4, H5.
      assert (Hdet : completion_detected (VDict d) = true).
      { unfold completion_detected. rewrite bool_decide_eq_false_2 by done.
        destruct Hnext as [->| ->]; [done|]. now rewrite orb_true_r. }
      rewrite Hdet. reflexivity.
    + rewrite (trace_check_passed _ _ _ _ H5), (trace_decided _ _ _ _ _ H4),
        (trace_check_passed _ _ _ _ H3), (trace_observed _ _ _ H2),
        (trace_check_passed _ _ _ _ H1). reflexivity.
  - intros trc' s' Hit Hfalsy. simpl. unfold bind at 1.
    rewrite Hit, Hfalsy. reflexivity.
  - intros s1 screen s2 s3 tools response s4 s5 H1 H2 H3 H4 H5 Hskip. split.
    + unfold vlm_iteration, bind. fold key.
      rewrite H1, H2, H3, H4, H5.
      assert (Hdet : completion_detected response = false).
      { destruct Hskip as [-> | [-> | [b ->]]]; reflexivity. }
      rewrite Hdet. reflexivity.
    + rewrite trace_executor_called.
      rewrite (trace_check_passed _ _ _ _ H5), (trace_decided _ _ _ _ _ H4),
        (trace_check_passed _ _ _ _ H3), (trace_observed _ _ _ H2),
        (trace_check_passed _ _ _ _ H1). reflexivity.
Qed.

(** ** The agent loop does not read the per-task tokens of the process *)

(** Replacing [app_state["task_tokens"]]. *)
Definition with_task_tokens (t : option (gmap string bool)) (w : World)
    : World :=
  upd_app (set_task_tokens t) w.

(** Two process states that differ at most in [app_state["task_tokens"]]. *)
Definition same_but_tokens (w1 w2 : World) : Prop :=
  with_task_tokens None w1 = with_task_tokens None w2.

Lemma with_task_tokens_id w :
  with_task_tokens (task_tokens (app_state w)) w = w.
Proof. now destruct w as [[] ? ? ?]. Qed.

Lemma same_but_tokens_with t w : same_but_tokens (with_task_tokens t w) w.
Proof. reflexivity. Qed.

Lemma same_but_tokens_inv w1 w2 :
  same_but_tokens w1 w2 → ∃ t, w1 = with_task_tokens t w2.
Proof.
  intros H. exists (task_tokens (app_state w1)).
  rewrite <- (with_task_tokens_id w1) at 1.
  destruct w1 as [[] ? ? ?], w2 as [[] ? ? ?].
  unfold same_but_tokens, with_task_tokens, upd_app, set_task_tokens in *.
  simpl in *. congruence.
Qed.

(** A function of the process state that ignores the per-task tokens,
    up to the tokens it leaves. *)
Definition blind {A} (f : World → World * A) : Prop :=
  ∀ t w, ∃ t', f (with_task_tokens t w)
               = (with_task_tokens t' (f w).1, (f w).2).

Lemma blind_publish tp uid pid st p final :
  blind (publish tp uid pid st p final).
Proof. intros t w. now exists t. Qed.

Lemma blind_notify_stopping pid tasks stopped :
  blind (notify_stopping pid tasks stopped).
Proof.
  revert stopped. induction tasks as [|[u p] tasks IH]; intros stopped t w.
  - now exists t.
  - rewrite !notify_stopping_cons.
    destruct (blind_publish (topic_of p (Some u)) (Some u) p Stopping
                (PText "Processing stop request...") None t w)
      as (t1 & ->).
    destruct (publish _ _ _ _ _ _ w) as [w1 ok]. cbv zeta. simpl.
    destruct ok; [|apply IH].
    destruct (dict_mem u _); [|apply IH].
    destruct (_ || _); [|apply IH].
    exact (IH _ t1 (upd_app (set_active_sessions
                       (dict_del u (active_sessions (app_state w1)))) w1)).
Qed.

Lemma blind_notify_stopped stopped :
  ∀ t w, ∃ t', notify_stopped stopped (with_task_tokens t w)
               = with_task_tokens t' (notify_stopped stopped w).
Proof.
  induction stopped as [|[u p] stopped IH]; intros t w.
  - now exists t.
  - rewrite !notify_stopped_cons.
    destruct (blind_publish (topic_of p (Some u)) (Some u) p Stopped
                (PText "Processing stopped successfully") None t w)
      as (t1 & ->).
    apply IH.
Qed.

Lemma blind_set_global_token t w :
  set_global_token (with_task_tokens t w)
  = with_task_tokens t (set_global_token w).
Proof.
  unfold set_global_token. simpl. now destruct (cancellation_token _).
Qed.

Lemma blind_mark_tasks tasks t w :
  ∃ t',
    foldl (λ w t, upd_app (mark_task (task_key (Some t.1) t.2)) w)
          (with_task_tokens t w) tasks
    = with_task_tokens t'
        (foldl (λ w t, upd_app (mark_task (task_key (Some t.1) t.2)) w)
               w tasks).
Proof.
  revert t w. induction tasks as [|x tasks IH]; intros t w; simpl.
  - now exists t.
  - exact (IH (Some (<[task_key (Some x.1) x.2 := true]> (default ∅ t)))
              (upd_app (mark_task (task_key (Some x.1) x.2)) w)).
Qed.

Lemma ensure_with_task_tokens t w :
  upd_app ensure_task_tokens (with_task_tokens t w)
  = with_task_tokens (Some (default ∅ t)) w.
Proof. now destruct t. Qed.

Lemma mark_with_task_tokens k t w :
  upd_app (mark_task k) (with_task_tokens t w)
  = with_task_tokens (Some (<[k := true]> (default ∅ t))) w.
Proof. reflexivity. Qed.

Lemma stop_with_task_tokens b t w :
  upd_app (set_stop b) (with_task_tokens t w)
  = with_task_tokens t (upd_app (set_stop b) w).
Proof. reflexivity. Qed.

Lemma sessions_with_task_tokens t w :
  active_sessions (app_state (with_task_tokens t w))
  = active_sessions (app_state w).
Proof. reflexivity. Qed.

(** The resolution of a stop request does not depend on the per-task
    tokens: it only writes them. *)
Lemma blind_resolve_stop msg t1 t2 w :
  match resolve_stop msg (with_task_tokens t1 w),
        resolve_stop msg (with_task_tokens t2 w) with
  | Some (w1, tasks1, pid1), Some (w2, tasks2, pid2) =>
      same_but_tokens w1 w2 ∧ tasks1 = tasks2 ∧ pid1 = pid2
  | None, None => True
  | _, _ => False
  end.
Proof.
  unfold resolve_stop. cbv zeta.
  rewrite !sessions_with_task_tokens.
  destruct (truthy_flag _).
  - rewrite !stop_with_task_tokens, !blind_set_global_token. done.
  - destruct (get (sm_user_id msg)) as [uid|]; [|done].
    destruct (truthy (Some uid)); [|done].
    match goal with |- context [if truthy ?p then _ else _] =>
      destruct (truthy p) end.
    + rewrite !ensure_with_task_tokens, !mark_with_task_tokens,
        !blind_set_global_token, !stop_with_task_tokens. done.
    + rewrite !ensure_with_task_tokens.
      destruct (blind_mark_tasks
                  (filter (λ x, x.1 = uid) (active_sessions (app_state w)))
                  (Some (default ∅ t1)) w) as (t1' & ->).
      destruct (blind_mark_tasks
                  (filter (λ x, x.1 = uid) (active_sessions (app_state w)))
                  (Some (default ∅ t2)) w) as (t2' & ->).
      rewrite !blind_set_global_token, !stop_with_task_tokens. done.
Qed.

Lemma blind_handle_stop_request msg w1 w2 :
  same_but_tokens w1 w2 →
  same_but_tokens (handle_stop_request msg w1).1 (handle_stop_request msg w2).1
  ∧ (handle_stop_request msg w1).2 = (handle_stop_request msg w2).2.
Proof.
  intros Hsame. apply same_but_tokens_inv in Hsame as (t1 & ->).
  rewrite <- (with_task_tokens_id w2) at 2 4.
  generalize (task_tokens (app_state w2)). intros t2.
  unfold handle_stop_request.
  destruct (empty_payload msg); [done|].
  pose proof (blind_resolve_stop msg t1 t2 w2) as Hres.
  destruct (resolve_stop msg (with_task_tokens t1 w2))
    as [[[wa tasks] pid]|];
    destruct (resolve_stop msg (with_task_tokens t2 w2))
    as [[[wb tasks'] pid']|]; try done.
  destruct Hres as (Hsame & <- & <-).
  destruct tasks as [|x tasks]; [done|].
  apply same_but_tokens_inv in Hsame as (t & ->).
  destruct (blind_notify_stopping pid (x :: tasks) [] t wb) as (t' & ->).
  destruct (notify_stopping pid (x :: tasks) [] wb) as [wc stopped].
  cbn [fst snd].
  destruct (blind_notify_stopped stopped t' wc) as (t'' & ->).
  destruct (_ && _); [rewrite stop_with_task_tokens|]; done.
Qed.

(** Two states of a run that differ at most in the per-task tokens of
    the process. *)
Definition alike (s1 s2 : LState) : Prop :=
  same_but_tokens (world s1) (world s2)
  ∧ session s1 = session s2
  ∧ trace s1 = trace s2.

(** Code whose outcome and effects are the same from alike states. *)
Definition respects {R A} (m : M R A) : Prop :=
  ∀ s1 s2, alike s1 s2 → (m s1).1 = (m s2).1 ∧ alike (m s1).2 (m s2).2.

Lemma respects_ret {R A} (a : A) : respects (R:=R) (ret a).
Proof. intros s1 s2 H. auto. Qed.

Lemma respects_bind {R A B} (m : M R A) (k : A → M R B) :
  respects m → (∀ a, respects (k a)) → respects (bind m k).
Proof.
  intros Hm Hk s1 s2 H. unfold bind.
  destruct (Hm s1 s2 H) as [Ho Hs].
  destruct (m s1) as [[a|x] s1'], (m s2) as [[a'|x'] s2'];
    simpl in *; try discriminate.
  - injection Ho as <-. now apply Hk.
  - injection Ho as <-. auto.
Qed.

Lemma respects_returnValue {R A} (r : R) : respects (A:=A) (returnValue r).
Proof. intros s1 s2 H. auto. Qed.

Lemma respects_raise {R A} (e : Exn) : respects (R:=R) (A:=A) (raise e).
Proof. intros s1 s2 H. auto. Qed.

Lemma respects_out_of_fuel {R A} : respects (R:=R) (A:=A) (λ s, (Fuel, s)).
Proof. intros s1 s2 H. auto. Qed.

Lemma respects_try_except {R A} (m : M R A) h :
  respects m → (∀ e, respects (h e)) → respects (try_except m h).
Proof.
  intros Hm Hh s1 s2 H. unfold try_except.
  destruct (Hm s1 s2 H) as [Ho Hs].
  destruct (m s1) as [[a|[r|e|]] s1'], (m s2) as [[a'|[r'|e'|]] s2'];
    simpl in *; try discriminate; auto.
  injection Ho as <-. now apply Hh.
Qed.

Lemma respects_gets {R A} (f : LState → A) :
  (∀ s1 s2, alike s1 s2 → f s1 = f s2) → respects (R:=R) (gets f).
Proof. intros Hf s1 s2 H. simpl. split; [|done]. f_equal. auto. Qed.

Lemma respects_modify {R} (f : LState → LState) :
  (∀ s1 s2, alike s1 s2 → alike (f s1) (f s2)) → respects (R:=R) (modify f).
Proof. intros Hf s1 s2 H. simpl. auto. Qed.

Lemma respects_lift_reply {R A} (r : Reply A) : respects (R:=R) (lift_reply r).
Proof. destruct r; [apply respects_ret|apply respects_raise]. Qed.

Lemma alike_record e s1 s2 : alike s1 s2 → alike (record e s1) (record e s2).
Proof. intros (W & S & T). repeat split; simpl; congruence. Qed.

Lemma same_but_tokens_fields w1 w2 :
  same_but_tokens w1 w2 →
  heap w1 = heap w2 ∧ bus w1 = bus w2
  ∧ messages (app_state w1) = messages (app_state w2)
  ∧ stop (app_state w1) = stop (app_state w2).
Proof. intros H. apply same_but_tokens_inv in H as (t & ->). done. Qed.

Lemma alike_put_messages ms s1 s2 :
  alike s1 s2 →
  alike (upd_world (upd_app (set_messages ms)) s1)
        (upd_world (upd_app (set_messages ms)) s2).
Proof.
  intros (W & S & T). repeat split; simpl; try congruence.
  apply same_but_tokens_inv in W as (t & ->). reflexivity.
Qed.

Lemma blind_output_callback rq hide m ses t w :
  output_callback rq hide m (ses, with_task_tokens t w)
  = ((output_callback rq hide m (ses, w)).1,
     with_task_tokens t (output_callback rq hide m (ses, w)).2).
Proof.
  unfold output_callback.
  destruct (_render_message hide m) as [[|c r]|]; try reflexivity.
  destruct (message_type_of _); try reflexivity.
  destruct (extraction _ _) as [[] content]; reflexivity.
Qed.

Lemma alike_emit rq ms s1 s2 :
  alike s1 s2 →
  alike (let '(ses, w) :=
           foldl (λ cs m, output_callback rq false m cs)
                 (session s1, world s1) ms in
         {| world := w; session := ses; trace := trace s1 |})
        (let '(ses, w) :=
           foldl (λ cs m, output_callback rq false m cs)
                 (session s2, world s2) ms in
         {| world := w; session := ses; trace := trace s2 |}).
Proof.
  intros (W & S & T). rewrite S, T.
  apply same_but_tokens_inv in W as (t & ->).
  generalize (session s2) (world s2). clear.
  induction ms as [|m ms IH]; intros ses w; cbn [foldl].
  - repeat split.
  - rewrite blind_output_callback.
    destruct (output_callback rq false m (ses, w)) as [ses' w']. apply IH.
Qed.

Lemma alike_deliver_stops s1 s2 :
  alike s1 s2 → alike (deliver_stops s1) (deliver_stops s2).
Proof.
  intros (W & S & T). unfold deliver_stops, alike. simpl.
  repeat split; try done. rewrite T.
  generalize (arrivals (length (trace s2))). intros msgs.
  revert W. generalize (world s1) (world s2).
  induction msgs as [|msg msgs IH]; intros w1 w2 W; simpl; [done|].
  apply IH. now apply blind_handle_stop_request.
Qed.

Lemma respects_check tok key : respects (check_cancellation tok key).
Proof.
  intros s1 s2 H. apply alike_deliver_stops in H.
  unfold check_cancellation. cbv zeta.
  set (d1 := deliver_stops s1) in *. set (d2 := deliver_stops s2) in *.
  clearbody d1 d2.
  destruct (same_but_tokens_fields _ _ (proj1 H)) as (Hh & _).
  rewrite Hh.
  destruct (tok ≫= _) as [t|]; [|done].
  destruct (cancel_requested t key); simpl; auto using alike_record.
Qed.

Ltac resp :=
  repeat first
    [ apply respects_bind; [|intros ?]
    | apply respects_ret | apply respects_returnValue | apply respects_raise
    | apply respects_out_of_fuel | apply respects_lift_reply
    | apply respects_check
    | apply respects_modify; intros ? ? ?;
      first [ now apply alike_record | now apply alike_put_messages
            | now apply alike_emit ]
    | apply respects_gets; intros ? ? (W & S & T);
      first [ congruence
            | now destruct (same_but_tokens_fields _ _ W) as (? & ? & ? & ?) ]
    | match goal with
      | |- respects (if ?b then _ else _) => destruct b
      | |- respects (let '(_, _) := ?x in _) => destruct x
      | |- respects (match ?x with _ => _ end) => destruct x
      end ].

Lemma respects_observe : respects observe.
Proof. unfold observe, now. resp. Qed.

Lemma respects_decide_vlm rq screen : respects (decide_vlm rq screen).
Proof. unfold decide_vlm, now, get_messages, emit, put_messages. resp. Qed.

Lemma respects_decide_anthropic : respects decide_anthropic.
Proof. unfold decide_anthropic, now, get_messages, put_messages. resp. Qed.

Lemma respects_call_executor tools : respects (call_executor tools).
Proof. unfold call_executor, now, get_messages. resp. Qed.

Lemma respects_run_step rq st : respects (R:=LoopResult) (run_step rq st).
Proof. unfold run_step, emit, put_messages. resp. Qed.

Ltac resp_calls :=
  repeat first
    [ apply respects_observe | apply respects_decide_vlm
    | apply respects_decide_anthropic | apply respects_call_executor
    | apply respects_run_step
    | apply respects_try_except; [|intros ?]
    | progress resp ].

Lemma respects_vlm_items rq tok steps trc :
  respects (vlm_items rq tok steps trc).
Proof.
  revert trc. induction steps as [|st rest IH]; intros trc; simpl;
    (apply respects_try_except; [|intros e; apply respects_ret]).
  - resp.
  - apply respects_bind; [apply respects_check|intros _].
    apply respects_bind; [apply respects_run_step|intros _].
    destruct (step_result st) as [[c|]| |e]; auto using respects_ret.
Qed.

Lemma respects_anthropic_items rq tok steps trc :
  respects (anthropic_items rq tok steps trc).
Proof.
  revert trc. induction steps as [|st rest IH]; intros trc; simpl.
  - resp.
  - apply respects_bind; [apply respects_run_step|intros _].
    destruct (step_result st) as [[c|]| |e];
      auto using respects_ret, respects_raise.
    apply respects_bind; [apply respects_check|intros _]. apply IH.
Qed.

Lemma respects_vlm_iteration rq tok trc :
  respects (vlm_iteration rq tok trc).
Proof.
  unfold vlm_iteration, get_messages.
  apply respects_bind; [apply respects_check|intros _].
  apply respects_bind; [apply respects_observe|intros screen].
  apply respects_bind; [apply respects_check|intros _].
  apply respects_bind; [apply respects_decide_vlm|intros [tools json]].
  apply respects_bind; [apply respects_check|intros _].
  apply respects_bind; [resp|intros _].
  apply respects_try_except; [|intros e; apply respects_ret].
  apply respects_bind; [apply respects_call_executor|intros steps].
  apply respects_vlm_items.
Qed.

Lemma respects_vlm_loop rq tok fuel trc :
  respects (vlm_loop rq tok fuel trc).
Proof.
  revert trc. induction fuel as [|fuel IH]; intros trc; simpl.
  - apply respects_out_of_fuel.
  - apply respects_bind; [apply respects_vlm_iteration|intros trc'].
    destruct (falsy trc'); [unfold get_messages; resp|apply IH].
Qed.

Lemma respects_anthropic_loop rq tok fuel trc :
  respects (anthropic_loop rq tok fuel trc).
Proof.
  revert trc. induction fuel as [|fuel IH]; intros trc; simpl.
  - apply respects_out_of_fuel.
  - unfold get_messages, put_messages.
    apply respects_bind; [apply respects_check|intros _].
    apply respects_bind; [apply respects_observe|intros screen].
    apply respects_bind; [apply respects_check|intros _].
    apply respects_bind; [resp|intros ms].
    apply respects_bind; [resp|intros _].
    apply respects_bind; [apply respects_check|intros _].
    apply respects_bind; [apply respects_decide_anthropic|intros tools].
    apply respects_bind; [apply respects_check|intros _].
    apply respects_bind; [apply respects_call_executor|intros steps].
    apply respects_bind; [apply respects_anthropic_items|intros trc'].
    apply respects_bind; [resp|intros ms'].
    destruct (falsy trc'); [resp|].
    apply respects_bind; [resp|intros _]. apply IH.
Qed.

Lemma respects_sampling_loop_sync rq tok fuel model :
  respects (sampling_loop_sync rq tok fuel model).
Proof.
  unfold sampling_loop_sync.
  apply respects_bind; [apply respects_check|intros _].
  apply respects_bind; [resp|intros _].
  apply respects_bind; [apply respects_check|intros _].
  destruct (bool_decide (model = _));
    [apply respects_anthropic_loop|apply respects_vlm_loop].
Qed.

(** C9. Two runs of [sampling_loop_sync] with the same arguments, the
    same cancellation token object, the same collaborators and the same
    incoming stop requests, started in process states that differ only
    in [app_state["task_tokens"]], end the same way (same return value,
    exception or exhaustion at the same point), with the same history
    of checks and collaborator calls, the same callback lists, the same
    message history, the same publications and the same token objects:
    the per-task tokens of the process, which the stop handler writes,
    never reach the loop. *)
Theorem loop_ignores_process_task_tokens (rq : Request) (tok : option nat)
    (fuel : nat) (model : string) (s : LState)
    (t1 t2 : option (gmap string bool)) :
  let run t :=
    sampling_loop_sync rq tok fuel model (upd_world (with_task_tokens t) s) in
  (run t1).1 = (run t2).1
  ∧ trace (run t1).2 = trace (run t2).2
  ∧ session (run t1).2 = session (run t2).2
  ∧ messages (app_state (world (run t1).2))
    = messages (app_state (world (run t2).2))
  ∧ bus (world (run t1).2) = bus (world (run t2).2)
  ∧ heap (world (run t1).2) = heap (world (run t2).2).
Proof.
  intros run.
  assert (Halike : alike (upd_world (with_task_tokens t1) s)
                         (upd_world (with_task_tokens t2) s))
    by (repeat split).
  destruct (respects_sampling_loop_sync rq tok fuel model _ _ Halike)
    as (Ho & W & S & T).
  destruct (same_but_tokens_fields _ _ W) as (Hh & Hb & Hm & _).
  unfold run. auto 10.
Qed.

(** ** The RPC instruction handler *)

(** The registry after the registration step of a request. *)
Definition registered (msg : RpcMsg) (uid : string) (s : LState) : LState :=
  upd_world (upd_app (λ a,
    set_active_sessions
      (dict_set uid (get_default (prompt_id msg) "0") (active_sessions a)) a)) s.

(** What happens to a request with a user but without instruction of
    either kind: the handler registers the session, returns the error
    and stops there. *)
Lemma rejected_without_instruction fuel msg s uid :
  get (user_id msg) = Some uid →
  truthy (Some uid) = true →
  truthy (get (instruction_to_vlm_agent msg)) = false →
  truthy (get (enhanced_instruction msg)) = false →
  handle_rpc_request fuel msg s
  = (Ret (error_response "No instruction provided"), registered msg uid s).
Proof.
  intros Huid Htruthy Hinstr Henh.
  unfold handle_rpc_request, try_except, accept, bind, register.
  rewrite Huid, Htruthy, Henh, Hinstr. reflexivity.
Qed.

(** C3, as the code has it. An instruction message that carries a
    [user_id] but neither an [instruction_to_vlm_agent] nor an
    [enhanced_instruction] (each missing, null or empty) is answered at
    once with an error status, and nothing is published. *)
Theorem missing_instruction_is_an_error (fuel : nat) (msg : RpcMsg)
    (s : LState) (uid : string) :
  get (user_id msg) = Some uid →
  truthy (Some uid) = true →
  truthy (get (instruction_to_vlm_agent msg)) = false →
  truthy (get (enhanced_instruction msg)) = false →
  ∃ r, (handle_rpc_request fuel msg s).1 = Ret r
       ∧ rr_status r = Error
       ∧ bus (world (handle_rpc_request fuel msg s).2) = bus (world s)
       ∧ trace (handle_rpc_request fuel msg s).2 = trace s.
Proof.
  intros Huid Htruthy Hinstr Henh.
  rewrite (rejected_without_instruction fuel msg s uid Huid Htruthy Hinstr Henh).
  eexists. repeat split.
Qed.

(** The registry entry that a rejected request leaves behind. *)
Lemma rejected_request_stays_registered fuel msg s uid :
  get (user_id msg) = Some uid →
  truthy (Some uid) = true →
  truthy (get (instruction_to_vlm_agent msg)) = false →
  truthy (get (enhanced_instruction msg)) = false →
  dict_get uid
    (active_sessions (app_state (world (handle_rpc_request fuel msg s).2)))
  = Some (get_default (prompt_id msg) "0").
Proof.
  intros Huid Htruthy Hinstr Henh.
  rewrite (rejected_without_instruction fuel msg s uid Huid Htruthy Hinstr Henh).
  simpl. generalize (active_sessions (app_state (world s))).
  intros d. induction d as [|[k v] d IH]; simpl.
  - now destruct (decide (uid = uid)).
  - destruct (decide (k = uid)) as [->|Hne]; simpl.
    + now destruct (decide (uid = uid)).
    + now destruct (decide (k = uid)).
Qed.

(** The removal from the registry at the end of the handler raises
    [KeyError] when other entries are left but not the user's own. *)
Lemma unregister_absent_raises msg s uid :
  get (user_id msg) = Some uid →
  truthy (Some uid) = true →
  active_sessions (app_state (world s)) ≠ [] →
  dict_get uid (active_sessions (app_state (world s))) = None →
  unregister msg s = (Exc (KeyError uid), s).
Proof.
  intros Huid Htruthy Hne Habsent. unfold unregister, bind, gets.
  rewrite Huid, Htruthy.
  destruct (active_sessions (app_state (world s))) as [|kv d] eqn:Hd; [done|].
  now rewrite (proj2 (dict_mem_get uid _) Habsent).
Qed.

(** It does nothing when the registry is empty, and removes the entry
    when it is there. *)
Lemma unregister_present_or_empty msg s uid :
  get (user_id msg) = Some uid →
  truthy (Some uid) = true →
  (active_sessions (app_state (world s)) = [] →
   unregister msg s = (Val tt, s))
  ∧ (is_Some (dict_get uid (active_sessions (app_state (world s)))) →
     ∃ s', unregister msg s = (Val tt, s')
           ∧ dict_get uid (active_sessions (app_state (world s'))) = None).
Proof.
  intros Huid Htruthy. unfold unregister, bind, gets.
  rewrite Huid, Htruthy. split.
  - now intros ->.
  - intros Hin.
    destruct (active_sessions (app_state (world s))) as [|kv d] eqn:Hd.
    + now destruct Hin.
    + unfold dict_mem. rewrite bool_decide_eq_true_2 by done.
      eexists. split; [reflexivity|]. simpl. apply dict_get_del.
Qed.

(** ** What is published while the agent loop runs *)

Definition progress_notice (st : TaskStatus) : Prop :=
  st = InProgress ∨ st = Stopping ∨ st = Stopped.

(** Since a given bus content, only [in_progress], [stopping] and
    [stopped] were published. *)
Definition bus_within (b0 : list Publication) (s : LState) : Prop :=
  grows progress_notice b0 (bus (world s)).

(** Code that maintains an invariant of the state, however it ends. *)
Definition keeps {R A} (I : LState → Prop) (m : M R A) : Prop :=
  ∀ s, I s → I (m s).2.

Lemma keeps_bind {R A B} I (m : M R A) (k : A → M R B) :
  keeps I m → (∀ a, keeps I (k a)) → keeps I (bind m k).
Proof.
  intros Hm Hk s Hs. unfold bind. specialize (Hm s Hs).
  destruct (m s) as [[a|x] s1]; simpl in *; [now apply Hk|done].
Qed.

Lemma keeps_try_except {R A} I (m : M R A) h :
  keeps I m → (∀ e, keeps I (h e)) → keeps I (try_except m h).
Proof.
  intros Hm Hh s Hs. unfold try_except. specialize (Hm s Hs).
  destruct (m s) as [[a|[r|e|]] s1]; simpl in *; try done. now apply Hh.
Qed.

Lemma keeps_pure {R A} I (o : Outcome R A) : keeps I (λ s, (o, s)).
Proof. intros s Hs. exact Hs. Qed.

Lemma keeps_ret {R A} I (a : A) : keeps (R:=R) I (ret a).
Proof. apply keeps_pure. Qed.

Lemma keeps_returnValue {R A} I (r : R) : keeps (A:=A) I (returnValue r).
Proof. apply keeps_pure. Qed.

Lemma keeps_raise {R A} I (e : Exn) : keeps (R:=R) (A:=A) I (raise e).
Proof. apply keeps_pure. Qed.

Lemma keeps_lift_reply {R A} I (r : Reply A) : keeps (R:=R) I (lift_reply r).
Proof. destruct r; apply keeps_pure. Qed.

Lemma keeps_gets {R A} I (f : LState → A) : keeps (R:=R) I (gets f).
Proof. intros s Hs. exact Hs. Qed.

Lemma keeps_modify {R} (I : LState → Prop) (f : LState → LState) :
  (∀ s, I s → I (f s)) → keeps (R:=R) I (modify f).
Proof. intros Hf s Hs. simpl. auto. Qed.

Lemma bus_within_output_callback rq hide m ses w :
  grows progress_notice (bus w) (bus (output_callback rq hide m (ses, w)).2).
Proof.
  unfold output_callback.
  destruct (_render_message hide m) as [[|c r]|]; try apply grows_refl.
  destruct (message_type_of _); try apply grows_refl.
  destruct (extraction _ _) as [[] content]; try apply grows_refl.
  simpl. apply grows_one. now left.
Qed.

Lemma bus_within_emit {R} b0 rq ms : keeps (R:=R) (bus_within b0) (emit rq ms).
Proof.
  apply keeps_modify. intros s. unfold bus_within.
  generalize (session s) (world s). clear.
  induction ms as [|m ms IH]; intros ses w Hw; cbn [foldl].
  - exact Hw.
  - pose proof (bus_within_output_callback rq false m ses w) as Hcb.
    destruct (output_callback rq false m (ses, w)) as [ses' w'].
    apply IH. eapply grows_trans; eauto.
Qed.

Lemma bus_within_deliver_stops b0 s :
  bus_within b0 s → bus_within b0 (deliver_stops s).
Proof.
  intros Hs. destruct (frame_deliver_stops s) as (Hb & _).
  eapply grows_trans; [exact Hs|].
  eapply grows_weaken; [|exact Hb]. intros st [->| ->]; red; auto.
Qed.

Lemma bus_within_check b0 tok key :
  keeps (bus_within b0) (check_cancellation tok key).
Proof.
  intros s Hs. apply bus_within_deliver_stops in Hs.
  unfold check_cancellation. cbv zeta.
  set (d := deliver_stops s) in *. clearbody d.
  destruct (tok ≫= _) as [t|]; [|done].
  now destruct (cancel_requested t key).
Qed.

Ltac keep :=
  repeat first
    [ apply keeps_bind; [|intros ?]
    | apply keeps_pure | apply keeps_ret | apply keeps_returnValue
    | apply keeps_raise | apply keeps_lift_reply | apply keeps_gets
    | apply bus_within_check | apply bus_within_emit
    | apply keeps_modify; intros ? ?; assumption
    | apply keeps_try_except; [|intros ?]
    | match goal with
      | |- keeps _ (if ?b then _ else _) => destruct b
      | |- keeps _ (let '(_, _) := ?x in _) => destruct x
      | |- keeps _ (match ?x with _ => _ end) => destruct x
      end ].

Lemma bus_within_observe b0 : keeps (bus_within b0) observe.
Proof. unfold observe, now. keep. Qed.

Lemma bus_within_decide_vlm b0 rq screen :
  keeps (bus_within b0) (decide_vlm rq screen).
Proof. unfold decide_vlm, now, get_messages, put_messages. keep. Qed.

Lemma bus_within_decide_anthropic b0 : keeps (bus_within b0) decide_anthropic.
Proof. unfold decide_anthropic, now, get_messages, put_messages. keep. Qed.

Lemma bus_within_call_executor b0 tools :
  keeps (bus_within b0) (call_executor tools).
Proof. unfold call_executor, now, get_messages. keep. Qed.

Lemma bus_within_run_step b0 rq st :
  keeps (R:=LoopResult) (bus_within b0) (run_step rq st).
Proof. unfold run_step, put_messages. keep. Qed.

Lemma bus_within_vlm_items b0 rq tok steps trc :
  keeps (bus_within b0) (vlm_items rq tok steps trc).
Proof.
  revert trc. induction steps as [|st rest IH]; intros trc; simpl;
    (apply keeps_try_except; [|intros e; apply keeps_ret]).
  - keep.
  - apply keeps_bind; [apply bus_within_check|intros _].
    apply keeps_bind; [apply bus_within_run_step|intros _].
    destruct (step_result st) as [[c|]| |e]; auto using keeps_ret.
Qed.

Lemma bus_within_anthropic_items b0 rq tok steps trc :
  keeps (bus_within b0) (anthropic_items rq tok steps trc).
Proof.
  revert trc. induction steps as [|st rest IH]; intros trc; simpl.
  - keep.
  - apply keeps_bind; [apply bus_within_run_step|intros _].
    destruct (step_result st) as [[c|]| |e];
      auto using keeps_ret, keeps_raise.
    apply keeps_bind; [apply bus_within_check|intros _]. apply IH.
Qed.

Lemma bus_within_vlm_iteration b0 rq tok trc :
  keeps (bus_within b0) (vlm_iteration rq tok trc).
Proof.
  unfold vlm_iteration, get_messages.
  apply keeps_bind; [apply bus_within_check|intros _].
  apply keeps_bind; [apply bus_within_observe|intros screen].
  apply keeps_bind; [apply bus_within_check|intros _].
  apply keeps_bind; [apply bus_within_decide_vlm|intros [tools json]].
  apply keeps_bind; [apply bus_within_check|intros _].
  apply keeps_bind; [keep|intros _].
  apply keeps_try_except; [|intros e; apply keeps_ret].
  apply keeps_bind; [apply bus_within_call_executor|intros steps].
  apply bus_within_vlm_items.
Qed.

Lemma bus_within_vlm_loop b0 rq tok fuel trc :
  keeps (bus_within b0) (vlm_loop rq tok fuel trc).
Proof.
  revert trc. induction fuel as [|fuel IH]; intros trc; simpl.
  - apply keeps_pure.
  - apply keeps_bind; [apply bus_within_vlm_iteration|intros trc'].
    destruct (falsy trc'); [unfold get_messages; keep|apply IH].
Qed.

Lemma bus_within_anthropic_loop b0 rq tok fuel trc :
  keeps (bus_within b0) (anthropic_loop rq tok fuel trc).
Proof.
  revert trc. induction fuel as [|fuel IH]; intros trc; simpl.
  - apply keeps_pure.
  - unfold get_messages, put_messages.
    apply keeps_bind; [apply bus_within_check|intros _].
    apply keeps_bind; [apply bus_within_observe|intros screen].
    apply keeps_bind; [apply bus_within_check|intros _].
    apply keeps_bind; [keep|intros ms].
    apply keeps_bind; [keep|intros _].
    apply keeps_bind; [apply bus_within_check|intros _].
    apply keeps_bind; [apply bus_within_decide_anthropic|intros tools].
    apply keeps_bind; [apply bus_within_check|intros _].
    apply keeps_bind; [apply bus_within_call_executor|intros steps].
    apply keeps_bind; [apply bus_within_anthropic_items|intros trc'].
    apply keeps_bind; [keep|intros ms'].
    destruct (falsy trc'); [keep|].
    apply keeps_bind; [keep|intros _]. apply IH.
Qed.

Lemma bus_within_sampling_loop_sync b0 rq tok fuel model :
  keeps (bus_within b0) (sampling_loop_sync rq tok fuel model).
Proof.
  unfold sampling_loop_sync.
  apply keeps_bind; [apply bus_within_check|intros _].
  apply keeps_bind; [keep|intros _].
  apply keeps_bind; [apply bus_within_check|intros _].
  destruct (bool_decide (model = _));
    [apply bus_within_anthropic_loop|apply bus_within_vlm_loop].
Qed.

(** ** The driver of the agent loop *)

Lemma hoare_stop_seen (P : list Ev → Prop) a :
  hoare P (stop_seen a) (λ b n, pushed (EvDriverCheck b) P n) (λ _ _, False).
Proof.
  intros s t0 n Ht Hn. unfold stop_seen. cbv zeta. simpl.
  eexists (_ :: n). rewrite Ht. split; [reflexivity|]. now exists n.
Qed.

Lemma bus_within_stop_seen b0 a : keeps (bus_within b0) (stop_seen a).
Proof. intros s Hs. now apply bus_within_deliver_stops in Hs. Qed.

(** What the driver gets from [yield generator]: [None] after a check
    of the loop saw the flag, anything else with no flag seen. *)
Definition awaited (r : LoopResult) (n : list Ev) : Prop :=
  r = None ∨ orderly n.

Definition no_return {R} (x : Exit R) (n : list Ev) : Prop :=
  (∀ r, x ≠ Returned r) ∧ orderly n.

Lemma hoare_await (m : M LoopResult Empty_set) :
  hoare orderly m (λ _ _, False) ended →
  hoare orderly (await m) awaited no_return.
Proof.
  intros Hm s t0 n Ht Hn. destruct (Hm s t0 n Ht Hn) as (n' & Ht' & Hp).
  unfold await. destruct (m s) as [[[]|[[ms|]|e|]] s']; simpl in *;
    exists n'; (split; [done|]); unfold awaited, no_return; auto.
Qed.

Lemma hoare_drive n a generator :
  hoare orderly generator awaited no_return →
  hoare orderly (drive n a generator) (λ _ _, True) no_return.
Proof.
  revert generator. induction n as [|n IH]; intros generator Hgen; simpl.
  - eapply hoare_post;
      [apply (hoare_out_of_fuel _ (λ _ _, True)) | auto |].
    intros x m [-> Hm]. split; [congruence|done].
  - eapply hoare_bind; [apply hoare_stop_seen | intros ? ? [] | intros stopping].
    destruct stopping.
    + eapply hoare_post; [apply hoare_modify; reflexivity | auto | ].
      intros x m H. exact H.
    + eapply hoare_bind;
        [ eapply hoare_conseq; [ | exact Hgen | | ];
          [hside | intros ? ? H; exact H | intros ? ? H; exact H]
        | auto | intros loop_msg ].
      destruct loop_msg as [ms|].
      * eapply hoare_bind;
          [apply hoare_stop_seen | intros ? ? [] | intros stopping].
        destruct stopping.
        -- eapply hoare_post; [apply hoare_modify; reflexivity | auto | ].
           intros x m H. exact H.
        -- eapply hoare_conseq; [ | apply IH | | ].
           ++ intros m (m0 & -> & [Hnone|Hm0]); [discriminate|]. hside.
           ++ eapply hoare_post; [apply hoare_ret | | intros ? ? H; exact H].
              intros r m [_ Hm]. now right.
           ++ auto.
           ++ auto.
      * eapply hoare_post; [apply hoare_ret | auto | intros ? ? H; exact H].
Qed.

Lemma bus_within_drive b0 n a generator :
  keeps (bus_within b0) generator →
  keeps (bus_within b0) (drive n a generator).
Proof.
  revert generator. induction n as [|n IH]; intros generator Hgen; simpl.
  - apply keeps_pure.
  - apply keeps_bind; [apply bus_within_stop_seen|intros stopping].
    destruct stopping; [keep|].
    apply keeps_bind; [exact Hgen|intros loop_msg].
    destruct loop_msg as [ms|]; [|keep].
    apply keeps_bind; [apply bus_within_stop_seen|intros stopping].
    destruct stopping; [keep|]. apply IH. apply keeps_ret.
Qed.

Lemma bus_within_await b0 (m : M LoopResult Empty_set) :
  keeps (bus_within b0) m → keeps (bus_within b0) (await m).
Proof.
  intros Hm s Hs. specialize (Hm s Hs). unfold await.
  now destruct (m s) as [[[]|[r|e|]] s'].
Qed.

(** How the first part of the handler ends: with the [started]
    publication, or with an error response and nothing published. *)
Lemma accept_outcome msg s :
  match accept msg s with
  | (Val a, s1) =>
      trace s1 = trace s
      ∧ ∃ p, bus (world s1) = bus (world s) ++ [p] ∧ pub_status p = Started
  | (Ret r, s1) =>
      trace s1 = trace s ∧ rr_status r = Error
      ∧ bus (world s1) = bus (world s)
  | (Exc _, _) | (Fuel, _) => False
  end.
Proof.
  unfold accept, bind, register, gets.
  destruct (get (user_id msg)) as [uid|]; [|simpl; auto].
  destruct (truthy (Some uid)); [|simpl; auto].
  simpl.
  match goal with |- context [if truthy ?i then _ else _] =>
    destruct (truthy i) end; [|simpl; auto].
  simpl. destruct (valid_params _ _); simpl; [|auto].
  split; [done|]. eexists. split; [reflexivity|done].
Qed.

(** The topic of the task of a request. *)
Definition task_topic (msg : RpcMsg) : string :=
  topic_of (get_default (prompt_id msg) "0") (get (user_id msg)).

(** The last part of the handler publishes [completed], whatever
    happens to the removal from the registry after it. *)
Lemma persist_effect msg s :
  ∃ s', persist msg s = (Val tt, s')
        ∧ bus (world s') = bus (world s) ∧ trace s' = trace s.
Proof.
  unfold persist. destruct disk_ok; eexists; (split; [reflexivity|done]).
Qed.

Lemma publish_status_effect msg st p final s :
  ∃ s' q, publish_status msg st p final s = (Val tt, s')
          ∧ bus (world s') = bus (world s) ++ [q]
          ∧ pub_status q = st ∧ pub_is_final q = final
          ∧ pub_topic q = task_topic msg
          ∧ trace s' = trace s.
Proof.
  unfold publish_status, modify, publish. simpl.
  eexists. eexists. split; [reflexivity|]. simpl.
  split; [reflexivity|]. done.
Qed.

Lemma unregister_effect msg s :
  bus (world (unregister msg s).2) = bus (world s)
  ∧ trace (unregister msg s).2 = trace s.
Proof.
  unfold unregister, bind, gets.
  destruct (get (user_id msg)) as [uid|]; [|done].
  destruct (active_sessions (app_state (world s))) as [|kv d]; [done|].
  destruct (truthy (Some uid)); [|done].
  now destruct (dict_mem uid (kv :: d)).
Qed.

Lemma finish_outcome msg s :
  trace (finish msg s).2 = trace s
  ∧ ∃ p, bus (world (finish msg s).2) = bus (world s) ++ [p]
         ∧ pub_status p = Completed
         ∧ pub_is_final p = Some true
         ∧ pub_topic p = task_topic msg.
Proof.
  destruct (persist_effect msg s) as (s1 & E1 & B1 & T1).
  destruct (publish_status_effect msg Completed
              (PText "Processing Completed") (Some true) s1)
    as (s2 & p & E2 & B2 & Hst & Hfin & Htop & T2).
  destruct (unregister_effect msg s2) as (B3 & T3).
  assert (∃ o, finish msg s = (o, (unregister msg s2).2)) as [o ->].
  { unfold finish, bind. rewrite E1. cbv beta iota. rewrite E2.
    cbv beta iota. destruct (unregister msg s2) as [[[]|x] s3]; simpl; eauto. }
  simpl. split; [congruence|]. exists p. rewrite B3, B2, B1. done.
Qed.

Lemma live_no_stop t e : live t → e ∈ t → saw_stop e = true → False.
Proof. intros Hl He Hs. exact (live_not_elem t e Hl Hs He). Qed.

(** The agent part of the handler: either the driver loop is left
    normally, having published progress notices only, or no check has
    seen a stop flag. *)
Lemma run_agent_outcome fuel msg a s :
  trace s = [] →
  match run_agent fuel msg a s with
  | (Val _, s') => bus_within (bus (world s)) s'
  | (Stop _, s') => live (trace s')
  end.
Proof.
  intros Htrace. unfold run_agent, bind, gets, try_except.
  match goal with
  | |- context [drive fuel a (await (sampling_loop_sync ?rq ?tk ?fl ?md)) s] =>
      pose proof (hoare_drive fuel a _
                    (hoare_await _ (hoare_sampling_loop_sync rq tk fl md))
                    s [] [] ) as Hd;
      pose proof (bus_within_drive (bus (world s)) fuel a _
                    (bus_within_await _ _
                       (bus_within_sampling_loop_sync _ rq tk fl md))
                    s (grows_refl _ _)) as Hb;
      destruct (drive fuel a (await (sampling_loop_sync rq tk fl md)) s)
        as [[[]|x] s2]
  end.
  - exact Hb.
  - rewrite Htrace in Hd.
    destruct (Hd eq_refl) as (n' & Hn' & Hno & _ & _ & Hlive);
      [repeat split|].
    rewrite app_nil_r in Hn'. simpl in Hn'. subst n'.
    destruct x as [r|e|]; cbv beta iota.
    + now destruct (Hno r).
    + destruct (publish_status_effect msg Errored
                  (PText ("Error processing request: " +:+ exn_str e))
                  None s2) as (s3 & q & E & _ & _ & _ & _ & T).
      unfold bind. rewrite E. simpl. now rewrite T.
    + exact Hlive.
Qed.

(** The state the handler ends in, by the part that ends it. *)
Lemma handler_state fuel msg s :
  (handle_rpc_request fuel msg s).2
  = match accept msg s with
    | (Val a, s1) =>
        match run_agent fuel msg a s1 with
        | (Val _, s2) => (finish msg s2).2
        | (Stop _, s2) => s2
        end
    | (Stop _, s1) => s1
    end.
Proof.
  unfold handle_rpc_request, try_except, bind.
  destruct (accept msg s) as [[a|x] s1]; [|destruct x; reflexivity].
  destruct (run_agent fuel msg a s1) as [[[]|x] s2];
    [|destruct x; reflexivity].
  destruct (finish msg s2) as [[[]|[r|e|]] s3]; reflexivity.
Qed.

(** The bus during a call of the handler in which a check has seen a
    stop flag, with the stop requests handled between two steps of the
    call: [started]; then only [in_progress], [stopping] and [stopped];
    and last [completed]. *)
Lemma publications_of_a_stopped_task (fuel : nat) (msg : RpcMsg)
    (w : World) :
  let r := run_rpc fuel msg w in
  (∃ e, e ∈ trace r.2 ∧ saw_stop e = true) →
  ∃ first mid last,
    bus (world r.2) = bus w ++ first :: mid ++ [last]
    ∧ pub_status first = Started
    ∧ Forall (λ p, progress_notice (pub_status p)) mid
    ∧ pub_status last = Completed
    ∧ pub_is_final last = Some true
    ∧ pub_topic last = task_topic msg.
Proof.
  intros r (e & He & Hsaw). unfold r, run_rpc in *. clear r.
  set (s0 := {| world := w; session := _; trace := [] |}) in *.
  rewrite handler_state in *.
  pose proof (accept_outcome msg s0) as Hacc.
  destruct (accept msg s0) as [[a|[r|ex|]] s1]; try done.
  - destruct Hacc as (Ht1 & first & Hb1 & Hfirst).
    pose proof (run_agent_outcome fuel msg a s1 Ht1) as Hrun.
    destruct (run_agent fuel msg a s1) as [[[]|x] s2].
    + destruct (finish_outcome msg s2) as (_ & last & Hb & Hst & Hfin & Htop).
      destruct Hrun as (mid & Hmid & Hprog).
      exists first, mid, last. rewrite Hb, Hmid, Hb1.
      rewrite <- !app_assoc. done.
    + exfalso. exact (live_no_stop _ e Hrun He Hsaw).
  - destruct Hacc as (Ht1 & _). simpl in He. rewrite Ht1 in He.
    inversion He.
Qed.

(** The publications of the stop handler. *)
Definition by_stop_handler (p : Publication) : bool :=
  match pub_status p with
  | Stopping | Stopped => true
  | _ => false
  end.

(** C2, as the code has it. When a check of the agent loop or of its
    driver has seen a stop flag during a call of the handler (the task
    was cancelled through the stop handler), the call publishes no
    [error], but it does publish [completed], as for a task that ran to
    its end: leaving aside the [stopping] and [stopped] publications of
    the stop handler, what the call adds to the bus is [started], then
    [in_progress] records, and last one [completed] publication with the
    final flag on the topic of the task. *)
Theorem stopped_task_is_reported_completed (fuel : nat) (msg : RpcMsg)
    (w : World) :
  let r := run_rpc fuel msg w in
  (∃ e, e ∈ trace r.2 ∧ saw_stop e = true) →
  ∃ news first mid last,
    bus (world r.2) = bus w ++ news
    ∧ Forall (λ p, pub_status p ≠ Errored) news
    ∧ filter (λ p, by_stop_handler p = false) news = first :: mid ++ [last]
    ∧ pub_status first = Started
    ∧ Forall (λ p, pub_status p = InProgress) mid
    ∧ pub_status last = Completed
    ∧ pub_is_final last = Some true
    ∧ pub_topic last = task_topic msg.
Proof.
  intros r Hsaw.
  destruct (publications_of_a_stopped_task fuel msg w Hsaw)
    as (first & mid & last & Hbus & Hfirst & Hmid & Hlast & Hfin & Htop).
  fold r in Hbus.
  exists (first :: mid ++ [last]), first,
    (filter (λ p, by_stop_handler p = false) mid), last.
  split; [exact Hbus|]. split; [|split; [|split; [|split]]].
  - constructor; [congruence|]. apply Forall_app. split.
    + eapply Forall_impl; [exact Hmid|].
      intros p [-> | [-> | ->]]; discriminate.
    + constructor; [congruence|constructor].
  - rewrite filter_cons_True by (unfold by_stop_handler; now rewrite Hfirst).
    rewrite filter_app, filter_cons_True, filter_nil
      by (unfold by_stop_handler; now rewrite Hlast).
    reflexivity.
  - exact Hfirst.
  - clear -Hmid. induction Hmid as [|p mid Hp _ IH]; [constructor|].
    unfold by_stop_handler at 1.
    destruct Hp as [Hp | [Hp | Hp]].
    + rewrite filter_cons_True by (unfold by_stop_handler; now rewrite Hp).
      now constructor.
    + rewrite filter_cons_False
        by (unfold by_stop_handler; rewrite Hp; discriminate).
      exact IH.
    + rewrite filter_cons_False
        by (unfold by_stop_handler; rewrite Hp; discriminate).
      exact IH.
  - auto.
Qed.

(** ** What a stop request does to the process *)

(** Whether a stop request names a target: a truthy [stop_all] or a
    truthy [user_id]. *)
Definition names_target (msg : StopMsg) : bool :=
  truthy_flag (get_default (sm_stop_all msg) false)
  || truthy (get (sm_user_id msg)).

(** The topic on which the stop handler notifies a task. *)
Definition stop_topic (t : string * option string) : string :=
  topic_of t.2 (Some t.1).

Lemma publish_eq tp uid pid st p final w :
  publish tp uid pid st p final w
  = (set_bus (bus w ++ [ {| pub_topic := tp; pub_user := uid;
                            pub_prompt := pid; pub_status := st;
                            pub_payload := p; pub_is_final := final;
                            pub_ok := bus_up (length (bus w)) |} ]) w,
     bus_up (length (bus w))).
Proof. reflexivity. Qed.

Lemma names_target_resolves msg w :
  names_target msg = true → is_Some (resolve_stop msg w).
Proof.
  unfold names_target, resolve_stop.
  destruct (truthy_flag _); [eauto|]. simpl.
  destruct (get (sm_user_id msg)) as [uid|]; [|discriminate].
  intros ->.
  match goal with |- context [if truthy ?p then _ else _] =>
    destruct (truthy p) end; eauto.
Qed.

Lemma names_target_not_empty msg :
  names_target msg = true → empty_payload msg = false.
Proof.
  unfold names_target, empty_payload.
  destruct (sm_user_id msg), (sm_prompt_id msg), (sm_stop_all msg),
    (sm_force msg); simpl; try reflexivity; discriminate.
Qed.

Lemma mark_tasks_sessions (tasks : list (string * option string)) (w : World) :
  let w' := foldl (λ w t, upd_app (mark_task (task_key (Some t.1) t.2)) w)
                  w tasks in
  active_sessions (app_state w') = active_sessions (app_state w)
  ∧ saved_json w' = saved_json w.
Proof.
  revert w. induction tasks as [|t tasks IH]; intros w; simpl; [done|].
  destruct (IH (upd_app (mark_task (task_key (Some t.1) t.2)) w)) as [-> ->].
  done.
Qed.

Lemma heap_set_global_token w :
  heap (set_global_token w)
  = match cancellation_token (app_state w) with
    | Some a => alter raise_flag a (heap w)
    | None => heap w
    end.
Proof. unfold set_global_token. now destruct (cancellation_token _). Qed.

Lemma bus_set_global_token w : bus (set_global_token w) = bus w.
Proof. unfold set_global_token. now destruct (cancellation_token _). Qed.

Lemma saved_json_set_global_token w :
  saved_json (set_global_token w) = saved_json w.
Proof. unfold set_global_token. now destruct (cancellation_token _). Qed.

(** What the resolution of a stop request leaves: the flag of the
    current token object raised, the process-wide flag set, and the bus,
    the files and the registry as they were. *)
Lemma resolve_stop_state msg w w1 tasks pid :
  resolve_stop msg w = Some (w1, tasks, pid) →
  heap w1 = heap (set_global_token w)
  ∧ bus w1 = bus w
  ∧ saved_json w1 = saved_json w
  ∧ active_sessions (app_state w1) = active_sessions (app_state w)
  ∧ stop (app_state w1) = true.
Proof.
  unfold resolve_stop.
  destruct (truthy_flag _).
  - intros [= <- _ _]. rewrite set_global_token_app.
    unfold set_global_token. simpl.
    destruct (cancellation_token (app_state w)); done.
  - destruct (get (sm_user_id msg)) as [uid|]; [|discriminate].
    destruct (truthy (Some uid)); [|discriminate].
    match goal with |- context [if truthy ?p then _ else _] =>
      destruct (truthy p) end; intros [= <- _ _].
    + cbn [upd_app app_state heap bus saved_json stop set_stop
           active_sessions].
      rewrite set_global_token_app.
      unfold set_global_token. simpl.
      unfold ensure_task_tokens.
      destruct (task_tokens (app_state w)); simpl;
        destruct (cancellation_token (app_state w)); repeat split; reflexivity.
    + match goal with |- context [foldl ?f ?w0 ?l] =>
        destruct (mark_tasks_marked l w0) as (Hh & Hb & _ & Hc & _);
        destruct (mark_tasks_sessions l w0) as (Hs & Hj);
        set (W := foldl f w0 l) in *
      end.
      clearbody W. cbv zeta in *. simpl in Hh, Hb, Hs, Hj.
      assert (Hc' : cancellation_token (app_state W)
                    = cancellation_token (app_state w)).
      { rewrite Hc. simpl. unfold ensure_task_tokens.
        now destruct (task_tokens _). }
      assert (Hs' : active_sessions (app_state W)
                    = active_sessions (app_state w)).
      { rewrite Hs. unfold ensure_task_tokens.
        now destruct (task_tokens _). }
      cbn [upd_app app_state heap bus saved_json stop set_stop
           active_sessions].
      rewrite set_global_token_app, !heap_set_global_token,
        !bus_set_global_token, !saved_json_set_global_token.
      rewrite Hc', Hh, Hb, Hj, Hs'. done.
Qed.

Lemma dict_get_del_ne {V} k u (d : list (string * V)) :
  k ≠ u → dict_get k (dict_del u d) = dict_get k d.
Proof.
  intros Hne. unfold dict_del.
  induction d as [|[k' v] d IH]; simpl; [done|].
  destruct (decide (k' = u)) as [->|Hk'].
  - rewrite filter_cons_False by (simpl; intros Hu; now apply Hu).
    destruct (decide (u = k)); [congruence|exact IH].
  - rewrite filter_cons_True by done. simpl.
    destruct (decide (k' = k)); [done|exact IH].
Qed.

Lemma dict_get_del_Some {V} k u (d : list (string * V)) v :
  dict_get k (dict_del u d) = Some v → dict_get k d = Some v.
Proof.
  destruct (decide (k = u)) as [->|Hne].
  - now rewrite dict_get_del.
  - now rewrite dict_get_del_ne.
Qed.

(** The first notification loop: one [stopping] publication for each
    task, in order; the tasks whose publication the bus took are the
    ones reported; nothing but the bus and the registry changes, and the
    registry only loses entries. *)
Lemma notify_stopping_state pid tasks stopped w :
  let r := notify_stopping pid tasks stopped w in
  heap r.1 = heap w
  ∧ saved_json r.1 = saved_json w
  ∧ stop (app_state r.1) = stop (app_state w)
  ∧ (∀ k v, dict_get k (active_sessions (app_state r.1)) = Some v →
            dict_get k (active_sessions (app_state w)) = Some v)
  ∧ ∃ news,
      bus r.1 = bus w ++ news
      ∧ pub_status <$> news = replicate (length tasks) Stopping
      ∧ pub_topic <$> news = stop_topic <$> tasks
      ∧ r.2 = stopped
              ++ (filter (λ tp, pub_ok tp.2 = true) (zip tasks news)).*1.
Proof.
  revert stopped w. induction tasks as [|[u p] tasks IH]; intros stopped w.
  - simpl. repeat split; auto. exists []. now rewrite !app_nil_r.
  - cbv zeta. rewrite notify_stopping_cons, publish_eq. cbv zeta.
    set (p0 := {| pub_topic := topic_of p (Some u); pub_user := Some u;
                  pub_prompt := p; pub_status := Stopping;
                  pub_payload := PText "Processing stop request...";
                  pub_is_final := None;
                  pub_ok := bus_up (length (bus w)) |}).
    set (w1 := set_bus (bus w ++ [p0]) w).
    assert (Hstep : ∀ stopped' w1',
      heap w1' = heap w → saved_json w1' = saved_json w →
      stop (app_state w1') = stop (app_state w) →
      (∀ k v, dict_get k (active_sessions (app_state w1')) = Some v →
              dict_get k (active_sessions (app_state w)) = Some v) →
      bus w1' = bus w ++ [p0] →
      stopped' = stopped
                 ++ (if bus_up (length (bus w)) then [(u, p)] else []) →
      let r := notify_stopping pid tasks stopped' w1' in
      heap r.1 = heap w
      ∧ saved_json r.1 = saved_json w
      ∧ stop (app_state r.1) = stop (app_state w)
      ∧ (∀ k v, dict_get k (active_sessions (app_state r.1)) = Some v →
                dict_get k (active_sessions (app_state w)) = Some v)
      ∧ ∃ news,
          bus r.1 = bus w ++ news
          ∧ pub_status <$> news = replicate (length ((u, p) :: tasks)) Stopping
          ∧ pub_topic <$> news = stop_topic <$> (u, p) :: tasks
          ∧ r.2 = stopped
                  ++ (filter (λ tp, pub_ok tp.2 = true)
                             (zip ((u, p) :: tasks) news)).*1).
    { intros stopped' w1' Hh Hj Hs Hreg Hb ->.
      destruct (IH (stopped ++ (if bus_up (length (bus w)) then [(u, p)] else []))
                  w1') as (Hh' & Hj' & Hs' & Hreg' & news & Hb' & Hst & Htp & Hr).
      cbv zeta. repeat split; try congruence.
      - intros k v Hk. auto.
      - exists (p0 :: news). rewrite Hb', Hb, <- app_assoc.
        split; [reflexivity|].
        split; [rewrite fmap_cons, Hst; reflexivity|].
        split; [rewrite !fmap_cons, Htp; reflexivity|].
        rewrite Hr, <- app_assoc. f_equal.
        change (zip ((u, p) :: tasks) (p0 :: news))
          with ((u, p, p0) :: zip tasks news).
        destruct (bus_up (length (bus w))) eqn:Hup.
        + rewrite filter_cons_True by done. reflexivity.
        + rewrite filter_cons_False by done. reflexivity. }
    destruct (bus_up (length (bus w))) eqn:Hup.
    + destruct (dict_mem u (active_sessions (app_state w1))) eqn:Hmem;
        [destruct (_ || _)|]; apply Hstep; auto.
      cbn. intros k v. apply dict_get_del_Some.
    + apply Hstep; auto. now rewrite app_nil_r.
Qed.

(** The second notification loop: one [stopped] publication for each
    reported task, and nothing else. *)
Lemma notify_stopped_state stopped w :
  let w' := notify_stopped stopped w in
  heap w' = heap w
  ∧ saved_json w' = saved_json w
  ∧ app_state w' = app_state w
  ∧ ∃ news,
      bus w' = bus w ++ news
      ∧ pub_status <$> news = replicate (length stopped) Stopped
      ∧ pub_topic <$> news = stop_topic <$> stopped.
Proof.
  revert w. induction stopped as [|[u p] stopped IH]; intros w.
  - simpl. repeat split; auto. exists []. now rewrite app_nil_r.
  - cbv zeta. rewrite notify_stopped_cons, publish_eq.
    cbn [fst].
    match goal with |- context [notify_stopped stopped ?w1] =>
      destruct (IH w1) as (Hh & Hj & Ha & news & Hb & Hst & Htp) end.
    cbv zeta in *.
    split; [rewrite Hh; reflexivity|]. split; [rewrite Hj; reflexivity|].
    split; [rewrite Ha; reflexivity|].
    eexists (_ :: news). rewrite Hb. cbn [set_bus bus]. rewrite <- app_assoc.
    split; [reflexivity|]. rewrite !fmap_cons, Hst, Htp. split; reflexivity.
Qed.

Lemma resolve_stop_None msg w :
  resolve_stop msg w = None ↔ names_target msg = false.
Proof.
  unfold names_target, resolve_stop.
  destruct (truthy_flag _); [done|]. simpl.
  destruct (get (sm_user_id msg)) as [uid|]; [|done].
  destruct (truthy (Some uid)); [|done].
  match goal with |- context [if truthy ?p then _ else _] =>
    destruct (truthy p) end; done.
Qed.

(** The handler on a request that resolves to tasks. *)
Lemma handle_stop_request_resolved msg w w1 tasks pid :
  resolve_stop msg w = Some (w1, tasks, pid) →
  tasks ≠ [] →
  handle_stop_request msg w =
    let r := notify_stopping pid tasks [] w1 in
    let w3 := notify_stopped r.2 r.1 in
    (if negb (truthy_flag (get_default (sm_force msg) true))
        && bool_decide (length r.2 = length tasks)
     then upd_app (set_stop false) w3 else w3,
     {| status := Success; message := StoppedFor (length r.2);
        stopped_tasks := r.2 |}).
Proof.
  intros Hres Hne. unfold handle_stop_request.
  destruct (empty_payload msg) eqn:Hempty.
  { rewrite (empty_payload_resolves_nothing msg w Hempty) in Hres.
    discriminate. }
  rewrite Hres. destruct tasks as [|t tasks]; [done|].
  cbv zeta. destruct (notify_stopping pid (t :: tasks) [] w1). reflexivity.
Qed.

(** The handler on a request that resolves to no task. *)
Lemma handle_stop_request_unmatched msg w w1 pid :
  resolve_stop msg w = Some (w1, [], pid) →
  handle_stop_request msg w
  = (w1, {| status := Warning; message := NoActiveTasks;
            stopped_tasks := [] |}).
Proof.
  intros Hres. unfold handle_stop_request.
  destruct (empty_payload msg) eqn:Hempty.
  { rewrite (empty_payload_resolves_nothing msg w Hempty) in Hres.
    discriminate. }
  now rewrite Hres.
Qed.

(** The handler on a request that names no target. *)
Lemma handle_stop_request_untargeted msg w :
  names_target msg = false →
  (handle_stop_request msg w).1 = w
  ∧ status (handle_stop_request msg w).2 = Error.
Proof.
  intros Hno. unfold handle_stop_request.
  destruct (empty_payload msg); [done|].
  now rewrite (proj2 (resolve_stop_None msg w) Hno).
Qed.

(** The token objects and the registry after a stop request: the flag
    of the current token object is raised when the request names a
    target, and the registry has lost entries at most. *)
Lemma handle_stop_request_heap_registry msg w :
  let w' := (handle_stop_request msg w).1 in
  heap w' = (if names_target msg then heap (set_global_token w) else heap w)
  ∧ ∀ k v, dict_get k (active_sessions (app_state w')) = Some v →
           dict_get k (active_sessions (app_state w)) = Some v.
Proof.
  cbv zeta. destruct (names_target msg) eqn:Htarget.
  - destruct (names_target_resolves msg w Htarget) as [[[w1 tasks] pid] Hres].
    destruct (resolve_stop_state msg w w1 tasks pid Hres)
      as (Hh & _ & _ & Hs & _).
    destruct tasks as [|t tasks].
    + rewrite (handle_stop_request_unmatched msg w w1 pid Hres). simpl.
      rewrite Hs. auto.
    + rewrite (handle_stop_request_resolved msg w w1 (t :: tasks) pid Hres)
        by done.
      cbv zeta.
      destruct (notify_stopping_state pid (t :: tasks) [] w1)
        as (Hh1 & _ & _ & Hreg & _).
      cbv zeta in Hh1, Hreg.
      destruct (notify_stopped_state
                  (notify_stopping pid (t :: tasks) [] w1).2
                  (notify_stopping pid (t :: tasks) [] w1).1)
        as (Hh2 & _ & Ha & _).
      cbv zeta in Hh2, Ha.
      destruct (_ && _); cbn [fst upd_app heap app_state active_sessions
                              set_stop];
        rewrite Hh2, Hh1, Hh, Ha; (split; [done|]);
        intros k v Hk; rewrite <- Hs; auto.
  - destruct (handle_stop_request_untargeted msg w Htarget) as [-> _]. auto.
Qed.

(** A stop request that names a target raises the flag of the current
    token object. *)
Lemma targeted_token_raised msg w :
  names_target msg = true →
  ∀ a t, cancellation_token (app_state w) = Some a →
         heap w !! a = Some t →
         heap (handle_stop_request msg w).1 !! a = Some (raise_flag t).
Proof.
  intros Htarget a t Hcur Hlook.
  destruct (handle_stop_request_heap_registry msg w) as [Hheap _].
  cbv zeta in Hheap. rewrite Htarget, heap_set_global_token, Hcur in Hheap.
  now rewrite Hheap, list_lookup_alter_eq, Hlook.
Qed.

(** The per-task tokens of the process, by task key. *)
Definition tokens_of (w : World) : gmap string bool :=
  default ∅ (task_tokens (app_state w)).

(** Every per-task token is as it was, or is there with its flag up. *)
Definition tokens_raised (w w' : World) : Prop :=
  ∀ key, tokens_of w' !! key = tokens_of w !! key
         ∨ tokens_of w' !! key = Some true.

Lemma tokens_raised_refl w : tokens_raised w w.
Proof. intros key. now left. Qed.

Lemma tokens_raised_trans w1 w2 w3 :
  tokens_raised w1 w2 → tokens_raised w2 w3 → tokens_raised w1 w3.
Proof.
  intros H12 H23 key.
  destruct (H23 key) as [->| ->]; [apply H12|now right].
Qed.

Lemma tokens_raised_same w w' :
  tokens_of w' = tokens_of w → tokens_raised w w'.
Proof. intros H key. rewrite H. now left. Qed.

Lemma tokens_raised_mark_task k w :
  tokens_raised w (upd_app (mark_task k) w).
Proof.
  intros key. unfold tokens_of, mark_task. simpl.
  destruct (decide (k = key)) as [->|Hne].
  - right. apply lookup_insert_eq.
  - left. now rewrite lookup_insert_ne.
Qed.

Lemma tokens_raised_mark_tasks (tasks : list (string * option string)) w :
  tokens_raised w
    (foldl (λ w t, upd_app (mark_task (task_key (Some t.1) t.2)) w) w tasks).
Proof.
  revert w. induction tasks as [|t tasks IH]; intros w; simpl.
  - apply tokens_raised_refl.
  - eapply tokens_raised_trans; [apply tokens_raised_mark_task|apply IH].
Qed.

Lemma tokens_of_ensure w :
  tokens_of (upd_app ensure_task_tokens w) = tokens_of w.
Proof.
  unfold tokens_of, ensure_task_tokens. simpl.
  destruct (task_tokens (app_state w)) eqn:Htokens; simpl;
    [now rewrite Htokens|reflexivity].
Qed.

Lemma tokens_of_set_global_token w :
  tokens_of (set_global_token w) = tokens_of w.
Proof. unfold tokens_of. now rewrite set_global_token_app. Qed.

Lemma tokens_of_set_stop b w :
  tokens_of (upd_app (set_stop b) w) = tokens_of w.
Proof. reflexivity. Qed.

Lemma tokens_raised_resolve_stop msg w w1 tasks pid :
  resolve_stop msg w = Some (w1, tasks, pid) → tokens_raised w w1.
Proof.
  unfold resolve_stop.
  destruct (truthy_flag _).
  - intros [= <- _ _]. apply tokens_raised_same.
    now rewrite tokens_of_set_global_token.
  - destruct (get (sm_user_id msg)) as [uid|]; [|discriminate].
    destruct (truthy (Some uid)); [|discriminate].
    match goal with |- context [if truthy ?p then _ else _] =>
      destruct (truthy p) end; intros [= <- _ _].
    + eapply tokens_raised_trans;
        [apply tokens_raised_same, tokens_of_ensure|].
      eapply tokens_raised_trans; [apply tokens_raised_mark_task|].
      apply tokens_raised_same.
      now rewrite tokens_of_set_stop, tokens_of_set_global_token.
    + eapply tokens_raised_trans;
        [apply tokens_raised_same, tokens_of_ensure|].
      eapply tokens_raised_trans; [apply tokens_raised_mark_tasks|].
      apply tokens_raised_same.
      now rewrite tokens_of_set_stop, tokens_of_set_global_token.
Qed.

Lemma tokens_of_notify_stopping pid tasks stopped w :
  tokens_of (notify_stopping pid tasks stopped w).1 = tokens_of w.
Proof.
  revert stopped w. induction tasks as [|[u p] tasks IH]; intros stopped w.
  - reflexivity.
  - rewrite notify_stopping_cons, publish_eq. cbv zeta.
    destruct (bus_up (length (bus w))); [|now rewrite IH].
    rewrite IH. destruct (dict_mem u _); [|reflexivity].
    now destruct (_ || _).
Qed.

(** The per-task tokens and the process-wide flag after a stop request:
    tokens are created or raised, never lowered or removed; a request
    that names a target leaves the process-wide flag up, unless it
    carries a falsy [force] and is answered with success, the one case
    in which the handler lowers the flag again. *)
Lemma handle_stop_request_flags msg w :
  let r := handle_stop_request msg w in
  tokens_raised w r.1
  ∧ (names_target msg = true →
     stop (app_state r.1) = true
     ∨ (stop (app_state r.1) = false
        ∧ truthy_flag (get_default (sm_force msg) true) = false
        ∧ status r.2 = Success)).
Proof.
  cbv zeta. destruct (names_target msg) eqn:Htarget.
  - destruct (names_target_resolves msg w Htarget) as [[[w1 tasks] pid] Hres].
    pose proof (tokens_raised_resolve_stop msg w w1 tasks pid Hres) as Htok.
    destruct (resolve_stop_state msg w w1 tasks pid Hres)
      as (_ & _ & _ & _ & Hstop).
    destruct tasks as [|t tasks].
    + rewrite (handle_stop_request_unmatched msg w w1 pid Hres). simpl.
      split; [exact Htok|]. intros _. now left.
    + rewrite (handle_stop_request_resolved msg w w1 (t :: tasks) pid Hres)
        by done.
      cbv zeta.
      destruct (notify_stopping_state pid (t :: tasks) [] w1)
        as (_ & _ & Hs1 & _).
      destruct (notify_stopped_state
                  (notify_stopping pid (t :: tasks) [] w1).2
                  (notify_stopping pid (t :: tasks) [] w1).1)
        as (_ & _ & Ha & _).
      cbv zeta in Hs1, Ha.
      pose proof (tokens_of_notify_stopping pid (t :: tasks) [] w1) as Ht1.
      assert (Htok3 : tokens_raised w
                (notify_stopped (notify_stopping pid (t :: tasks) [] w1).2
                                (notify_stopping pid (t :: tasks) [] w1).1)).
      { eapply tokens_raised_trans; [exact Htok|].
        apply tokens_raised_same. unfold tokens_of. rewrite Ha. exact Ht1. }
      destruct (truthy_flag (get_default (sm_force msg) true));
        cbn [negb andb fst snd status].
      * split; [exact Htok3|]. intros _. left. now rewrite Ha, Hs1.
      * destruct (bool_decide _); cbn [fst snd status].
        -- split; [exact Htok3|]. intros _. right. auto.
        -- split; [exact Htok3|]. intros _. left. now rewrite Ha, Hs1.
  - destruct (handle_stop_request_untargeted msg w Htarget) as [-> _].
    split; [apply tokens_raised_refl|discriminate].
Qed.

(** The stop handler never does anything but this.
    - It publishes [stopping] and [stopped] notices.
    - It raises the flag of the token object of the request that
      [app_state] holds as current, and leaves every other token object
      alone.
    - It removes entries from the registry and adds or changes none.
    - It creates per-task tokens with their flag up, or raises the flag
      of the ones that are there, and never lowers or removes one.
    - A request that names a target leaves the process-wide flag up; the
      one exception is a request with a falsy [force] that is answered
      with success, after which the flag is down.
    - It leaves the saved files, the configuration, the message history
      and the current token reference as they were.
    A request that names no target (no [stop_all], no [user_id]) leaves
    the whole state as it was. *)
Theorem stop_handler_footprint (msg : StopMsg) (w : World) :
  let r := handle_stop_request msg w in
  let w' := r.1 in
  (∃ news, bus w' = bus w ++ news
           ∧ Forall (λ p, pub_status p = Stopping ∨ pub_status p = Stopped)
                    news)
  ∧ length (heap w') = length (heap w)
  ∧ (∀ a t, heap w !! a = Some t →
       heap w' !! a = Some t
       ∨ (cancellation_token (app_state w) = Some a
          ∧ heap w' !! a = Some (raise_flag t)))
  ∧ (∀ k v, dict_get k (active_sessions (app_state w')) = Some v →
            dict_get k (active_sessions (app_state w)) = Some v)
  ∧ (∀ key, tokens_of w' !! key = tokens_of w !! key
            ∨ tokens_of w' !! key = Some true)
  ∧ (names_target msg = true →
     stop (app_state w') = true
     ∨ (stop (app_state w') = false
        ∧ truthy_flag (get_default (sm_force msg) true) = false
        ∧ status r.2 = Success))
  ∧ (names_target msg = false → w' = w)
  ∧ saved_json w' = saved_json w
  ∧ config (app_state w') = config (app_state w)
  ∧ messages (app_state w') = messages (app_state w)
  ∧ cancellation_token (app_state w') = cancellation_token (app_state w).
Proof.
  cbv zeta.
  destruct (frame_handle_stop_request msg w)
    as (Hbus & [Hlen _] & Hj & Hc & Hm & Ht).
  destruct (handle_stop_request_heap_registry msg w) as [Hheap Hreg].
  destruct (handle_stop_request_flags msg w) as [Htokens Hstop].
  cbv zeta in Hheap, Hreg, Htokens, Hstop.
  split; [exact Hbus|]. split; [exact Hlen|].
  split; [|split; [exact Hreg|]; split; [exact Htokens|];
           split; [exact Hstop|]; split;
           [intros Hno; apply (handle_stop_request_untargeted msg w Hno)|];
           repeat split; auto].
  intros a t Hlook. rewrite Hheap.
  destruct (names_target msg); [|auto].
  rewrite heap_set_global_token.
  destruct (cancellation_token (app_state w)) as [c|]; [|auto].
  destruct (decide (c = a)) as [->|Hne].
  - right. split; [done|]. now rewrite list_lookup_alter_eq, Hlook.
  - left. now rewrite list_lookup_alter_ne.
Qed.

(** A stop request that resolves to tasks is answered with success,
    whatever the bus does. The handler publishes one [stopping] notice
    for each resolved task, in order, on the topic of the task; it
    reports as stopped exactly the tasks whose notice the bus took, in
    that number; and it then publishes one [stopped] notice for each
    reported task. *)
Theorem stop_notices_and_report (msg : StopMsg) (w w1 : World)
    (tasks : list (string * option string)) (pid : option string) :
  resolve_stop msg w = Some (w1, tasks, pid) →
  tasks ≠ [] →
  let r := handle_stop_request msg w in
  status r.2 = Success
  ∧ message r.2 = StoppedFor (length (stopped_tasks r.2))
  ∧ ∃ first second,
      bus r.1 = bus w ++ first ++ second
      ∧ pub_status <$> first = replicate (length tasks) Stopping
      ∧ pub_topic <$> first = stop_topic <$> tasks
      ∧ stopped_tasks r.2
        = (filter (λ tp, pub_ok tp.2 = true) (zip tasks first)).*1
      ∧ pub_status <$> second
        = replicate (length (stopped_tasks r.2)) Stopped
      ∧ pub_topic <$> second = stop_topic <$> stopped_tasks r.2.
Proof.
  intros Hres Hne. cbv zeta.
  rewrite (handle_stop_request_resolved msg w w1 tasks pid Hres Hne).
  cbv zeta.
  destruct (resolve_stop_state msg w w1 tasks pid Hres) as (_ & Hb & _).
  destruct (notify_stopping_state pid tasks [] w1)
    as (_ & _ & _ & _ & first & Hb1 & Hst1 & Htp1 & Hr).
  cbv zeta in Hb1, Hr. rewrite app_nil_l in Hr.
  destruct (notify_stopped_state (notify_stopping pid tasks [] w1).2
              (notify_stopping pid tasks [] w1).1)
    as (_ & _ & _ & second & Hb2 & Hst2 & Htp2).
  cbv zeta in Hb2.
  cbn [snd status message stopped_tasks].
  split; [done|]. split; [done|].
  exists first, second.
  split.
  { destruct (_ && _); cbn [fst upd_app bus];
      now rewrite Hb2, Hb1, Hb, <- app_assoc. }
  auto.
Qed.

(** Any stop request that names a target, a user or everybody, raises
    the flag of the token object of the request in progress, whoever
    that request belongs to and whatever the answer is (success, or the
    warning that no task matched): the next cancellation check of the
    loop that holds this token returns [None]. *)
Theorem targeted_stop_cancels_the_running_task (msg : StopMsg) (w : World)
    (a : nat) (t : TokenObj) :
  names_target msg = true →
  cancellation_token (app_state w) = Some a →
  heap w !! a = Some t →
  let w' := (handle_stop_request msg w).1 in
  heap w' !! a = Some (raise_flag t)
  ∧ ∀ key s, world s = w' →
      (check_cancellation (Some a) key s).1 = Ret None.
Proof.
  intros Htarget Hcur Hlook. cbv zeta.
  destruct (handle_stop_request_heap_registry msg w) as [Hheap _].
  cbv zeta in Hheap. rewrite Htarget, heap_set_global_token, Hcur in Hheap.
  assert (Hcell : heap (handle_stop_request msg w).1 !! a
                  = Some (raise_flag t)).
  { now rewrite Hheap, list_lookup_alter_eq, Hlook. }
  split; [exact Hcell|].
  intros key s Hs.
  rewrite (check_sees_raised_flag a key s (raise_flag t)).
  - reflexivity.
  - now rewrite Hs.
  - reflexivity.
Qed.

(** *** The registry after a stop request *)

Lemma dict_get_None_keys {V} k (d : list (string * V)) :
  dict_get k d = None → ∀ kv, kv ∈ d → kv.1 ≠ k.
Proof.
  induction d as [|[k' v] d IH]; simpl; intros Hd kv Hin.
  - inversion Hin.
  - destruct (decide (k' = k)) as [->|Hne]; [discriminate|].
    apply elem_of_cons in Hin as [->|Hin]; [exact Hne|auto].
Qed.

Lemma dict_del_absent {V} k (d : list (string * V)) :
  dict_get k d = None → dict_del k d = d.
Proof.
  unfold dict_del. induction d as [|[k' v] d IH]; simpl; [done|].
  destruct (decide (k' = k)); [discriminate|].
  intros Hd. rewrite filter_cons_True by done. now rewrite IH.
Qed.

Lemma dict_mem_del {V} k (d : list (string * V)) :
  dict_mem k (dict_del k d) = false.
Proof. apply dict_mem_get, dict_get_del. Qed.

Lemma sessions_finish_stop (b : bool) w :
  active_sessions (app_state (if b then upd_app (set_stop false) w else w))
  = active_sessions (app_state w).
Proof. now destruct b. Qed.

(** Notices for tasks of a user who has no entry leave the registry as
    it is. *)
Lemma notify_stopping_absent pid uid tasks stopped w :
  dict_mem uid (active_sessions (app_state w)) = false →
  Forall (λ t, t.1 = uid) tasks →
  active_sessions (app_state (notify_stopping pid tasks stopped w).1)
  = active_sessions (app_state w).
Proof.
  intros Hmem Hall. revert stopped w Hmem.
  induction Hall as [|[u p] tasks Hu _ IH]; intros stopped w Hmem; [done|].
  simpl in Hu. subst u.
  rewrite notify_stopping_cons, publish_eq. cbv zeta.
  cbn [set_bus app_state active_sessions]. rewrite Hmem.
  destruct (bus_up _); now rewrite IH.
Qed.

(** Notices for the tasks of one user, the first of which the bus takes
    and which passes the test of the removal: the entry of the user is
    removed. *)
Lemma notify_stopping_removes pid uid p tasks stopped w :
  bus_up (length (bus w)) = true →
  dict_mem uid (active_sessions (app_state w)) = true →
  bool_decide (dict_get uid (active_sessions (app_state w)) = Some p)
  || negb (truthy pid) = true →
  Forall (λ t, t.1 = uid) tasks →
  active_sessions
    (app_state (notify_stopping pid ((uid, p) :: tasks) stopped w).1)
  = dict_del uid (active_sessions (app_state w)).
Proof.
  intros Hup Hmem Hcond Hall.
  rewrite notify_stopping_cons, publish_eq. cbv zeta.
  cbn [set_bus app_state active_sessions]. rewrite Hup, Hmem, Hcond.
  rewrite (notify_stopping_absent pid uid); [reflexivity| |exact Hall].
  apply dict_mem_del.
Qed.

Lemma filter_key_Forall {V} k (d : list (string * V)) :
  Forall (λ t, t.1 = k) (filter (λ t, t.1 = k) d).
Proof.
  apply Forall_forall. intros t Ht.
  now apply list_elem_of_filter in Ht as [Ht _].
Qed.

Lemma dict_get_first_of_filter {V} k (d : list (string * V)) :
  match filter (λ t, t.1 = k) d with
  | [] => dict_get k d = None
  | t :: _ => t.1 = k ∧ dict_get k d = Some t.2
  end.
Proof.
  induction d as [|[k' v] d IH]; simpl; [done|].
  destruct (decide (k' = k)) as [->|Hne].
  - rewrite filter_cons_True by done. done.
  - rewrite filter_cons_False by done. exact IH.
Qed.

(** A stop request that names a user and no prompt, with a bus that
    takes the notices: afterwards the user has no entry in the registry,
    and the entries of the other users are as before. *)
Theorem stop_by_user_unregisters_the_user (msg : StopMsg) (w : World)
    (uid : string) :
  (∀ n, bus_up n = true) →
  get (sm_user_id msg) = Some uid →
  truthy (Some uid) = true →
  truthy_flag (get_default (sm_stop_all msg) false) = false →
  truthy (get (sm_prompt_id msg)) = false →
  let w' := (handle_stop_request msg w).1 in
  dict_get uid (active_sessions (app_state w')) = None
  ∧ ∀ k, k ≠ uid →
      dict_get k (active_sessions (app_state w'))
      = dict_get k (active_sessions (app_state w)).
Proof.
  intros Hup Huid Htruthy Hall Hprompt. cbv zeta.
  set (sessions := active_sessions (app_state w)).
  assert (Hgoal : active_sessions (app_state (handle_stop_request msg w).1)
                  = dict_del uid sessions).
  { destruct (resolve_stop msg w) as [[[w1 tasks] pid]|] eqn:Hres.
    2:{ apply resolve_stop_None in Hres. unfold names_target in Hres.
        rewrite Huid, Htruthy, orb_true_r in Hres. discriminate. }
    destruct (resolve_stop_state msg w w1 tasks pid Hres)
      as (_ & Hb & _ & Hs & _).
    pose proof Hres as Hres'. unfold resolve_stop in Hres'.
    rewrite Hall, Huid, Htruthy, Hprompt in Hres'. cbn [negb andb] in Hres'.
    fold sessions in Hres'.
    pose proof (dict_get_first_of_filter uid sessions) as Hfirst.
    destruct (dict_mem uid sessions) eqn:Hmem.
    - apply bool_decide_eq_true in Hmem as [reg Hreg].
      rewrite Hreg in Hres'. cbn [default from_option id] in Hres'.
      assert (Hmem1 : dict_mem uid (active_sessions (app_state w1)) = true).
      { rewrite Hs. apply bool_decide_eq_true. fold sessions.
        rewrite Hreg. eauto. }
      destruct (truthy reg) eqn:Hreg_truthy.
      + injection Hres' as _ <- <-.
        rewrite (handle_stop_request_resolved msg w w1 [(uid, reg)] reg Hres)
          by done.
        cbv zeta. cbn [fst]. rewrite sessions_finish_stop.
        destruct (notify_stopped_state
                    (notify_stopping reg [(uid, reg)] [] w1).2
                    (notify_stopping reg [(uid, reg)] [] w1).1)
          as (_ & _ & -> & _).
        rewrite (notify_stopping_removes reg uid reg [] [] w1);
          [now rewrite Hs|apply Hup|exact Hmem1| |constructor].
        rewrite Hs. fold sessions. rewrite Hreg.
        now rewrite bool_decide_eq_true_2.
      + injection Hres' as _ <- <-.
        rewrite Hreg in Hfirst.
        destruct (filter (λ t, t.1 = uid) sessions) as [|[u p] rest] eqn:Hf;
          [discriminate|].
        destruct Hfirst as [Hu _]. simpl in Hu. subst u.
        rewrite (handle_stop_request_resolved msg w w1 ((uid, p) :: rest)
                   reg Hres) by done.
        cbv zeta. cbn [fst]. rewrite sessions_finish_stop.
        destruct (notify_stopped_state
                    (notify_stopping reg ((uid, p) :: rest) [] w1).2
                    (notify_stopping reg ((uid, p) :: rest) [] w1).1)
          as (_ & _ & -> & _).
        rewrite (notify_stopping_removes reg uid p rest [] w1);
          [now rewrite Hs|apply Hup|exact Hmem1| |].
        * rewrite Hreg_truthy. apply orb_true_r.
        * pose proof (filter_key_Forall uid sessions) as Hk.
          rewrite Hf in Hk. now inversion Hk.
    - apply dict_mem_get in Hmem.
      rewrite Hprompt in Hres'.
      rewrite (dict_get_filter_key uid sessions Hmem) in Hres'.
      injection Hres' as _ <- <-.
      rewrite (handle_stop_request_unmatched msg w w1 _ Hres). simpl.
      rewrite Hs. fold sessions. symmetry. now apply dict_del_absent. }
  rewrite Hgoal. split; [apply dict_get_del|].
  intros k Hk. now apply dict_get_del_ne.
Qed.

(** A stop request that names a user and a prompt other than the one
    the user has in the registry: the answer is success for the named
    task, and the registry is left as it is. (The token object of the
    request in progress is raised all the same, as by every stop
    request that names a target.) *)
Theorem stop_of_another_prompt_keeps_the_entry (msg : StopMsg) (w : World)
    (uid pid : string) (registered : option string) :
  get (sm_user_id msg) = Some uid →
  truthy (Some uid) = true →
  truthy_flag (get_default (sm_stop_all msg) false) = false →
  get (sm_prompt_id msg) = Some pid →
  truthy (Some pid) = true →
  dict_get uid (active_sessions (app_state w)) = Some registered →
  registered ≠ Some pid →
  let r := handle_stop_request msg w in
  status r.2 = Success
  ∧ stopped_tasks r.2
    = (if bus_up (length (bus w)) then [(uid, Some pid)] else [])
  ∧ active_sessions (app_state r.1) = active_sessions (app_state w).
Proof.
  intros Huid Htruthy Hall Hpid Hptruthy Hreg Hother. cbv zeta.
  destruct (resolve_stop msg w) as [[[w1 tasks] p]|] eqn:Hres.
  2:{ apply resolve_stop_None in Hres. unfold names_target in Hres.
      rewrite Huid, Htruthy, orb_true_r in Hres. discriminate. }
  destruct (resolve_stop_state msg w w1 tasks p Hres)
    as (_ & Hb & _ & Hs & _).
  pose proof Hres as Hres'. unfold resolve_stop in Hres'.
  rewrite Hall, Huid, Htruthy, Hpid, Hptruthy in Hres'.
  cbn [negb andb] in Hres'. rewrite Hptruthy in Hres'.
  injection Hres' as _ <- <-.
  rewrite (handle_stop_request_resolved msg w w1 [(uid, Some pid)] (Some pid)
             Hres) by done.
  cbv zeta. cbn [fst snd status stopped_tasks]. rewrite sessions_finish_stop.
  destruct (notify_stopped_state
              (notify_stopping (Some pid) [(uid, Some pid)] [] w1).2
              (notify_stopping (Some pid) [(uid, Some pid)] [] w1).1)
    as (_ & _ & -> & _).
  rewrite notify_stopping_cons, publish_eq. cbv zeta.
  cbn [set_bus app_state active_sessions]. rewrite Hb, Hs, Hreg, Hptruthy.
  assert (Hno : bool_decide (Some registered = Some (Some pid)) = false).
  { apply bool_decide_eq_false. congruence. }
  rewrite Hno. cbn [orb negb].
  destruct (bus_up (length (bus w)));
    [destruct (dict_mem uid (active_sessions (app_state w)))|];
    simpl; rewrite ?Hs; done.
Qed.

(** Notices for a list of tasks that covers the keys of the registry,
    from a request without prompt and with a bus that takes them all:
    every task is reported and the registry ends empty. *)
Lemma notify_stopping_everything pid tasks stopped w :
  (∀ n, bus_up n = true) →
  truthy pid = false →
  (∀ kv, kv ∈ active_sessions (app_state w) → ∃ t, t ∈ tasks ∧ t.1 = kv.1) →
  (notify_stopping pid tasks stopped w).2 = stopped ++ tasks
  ∧ active_sessions (app_state (notify_stopping pid tasks stopped w).1) = [].
Proof.
  intros Hup Hpid. revert stopped w.
  induction tasks as [|[u p] tasks IH]; intros stopped w Hcover.
  - simpl. rewrite app_nil_r. split; [done|].
    destruct (active_sessions (app_state w)) as [|kv d]; [done|].
    destruct (Hcover kv) as (t & Ht & _); [left|]. inversion Ht.
  - rewrite notify_stopping_cons, publish_eq. cbv zeta.
    cbn [set_bus app_state active_sessions]. rewrite Hup, Hpid.
    rewrite orb_true_r.
    set (sessions := active_sessions (app_state w)) in *.
    assert (Hrest : ∀ sessions' : list (string * option string),
      (∀ kv, kv ∈ sessions' → kv ∈ sessions ∧ kv.1 ≠ u) →
      ∀ kv, kv ∈ sessions' → ∃ t, t ∈ tasks ∧ t.1 = kv.1).
    { intros sessions' Hsub kv Hkv. destruct (Hsub kv Hkv) as [Hin Hne].
      destruct (Hcover kv Hin) as (t & Ht & Hk).
      apply elem_of_cons in Ht as [->|Ht]; [simpl in Hk; congruence|eauto]. }
    destruct (dict_mem u sessions) eqn:Hmem.
    + destruct (IH (stopped ++ [(u, p)])
                  (upd_app (set_active_sessions (dict_del u sessions))
                     (set_bus (bus w ++ [ {| pub_topic := topic_of p (Some u);
                        pub_user := Some u; pub_prompt := p;
                        pub_status := Stopping;
                        pub_payload := PText "Processing stop request...";
                        pub_is_final := None; pub_ok := true |} ]) w)))
        as [-> ->].
      * apply Hrest. intros kv Hkv. unfold dict_del in Hkv.
        now apply list_elem_of_filter in Hkv as [Hne Hin].
      * now rewrite <- app_assoc.
    + destruct (IH (stopped ++ [(u, p)])
                  (set_bus (bus w ++ [ {| pub_topic := topic_of p (Some u);
                     pub_user := Some u; pub_prompt := p;
                     pub_status := Stopping;
                     pub_payload := PText "Processing stop request...";
                     pub_is_final := None; pub_ok := true |} ]) w))
        as [-> ->].
      * apply Hrest. intros kv Hkv. split; [exact Hkv|].
        apply dict_mem_get in Hmem.
        exact (dict_get_None_keys u sessions Hmem kv Hkv).
      * now rewrite <- app_assoc.
Qed.

(** A request to stop everything, without prompt and with a bus that
    takes the notices: every registered task is reported as stopped, in
    the order of the registry, and the registry ends empty. With an
    empty registry the answer is the warning. *)
Theorem stop_all_empties_the_registry (msg : StopMsg) (w : World) :
  (∀ n, bus_up n = true) →
  truthy_flag (get_default (sm_stop_all msg) false) = true →
  truthy (get (sm_prompt_id msg)) = false →
  let r := handle_stop_request msg w in
  active_sessions (app_state r.1) = []
  ∧ stopped_tasks r.2 = active_sessions (app_state w)
  ∧ status r.2 = match active_sessions (app_state w) with
                 | [] => Warning
                 | _ => Success
                 end.
Proof.
  intros Hup Hall Hprompt. cbv zeta.
  assert (Hres : resolve_stop msg w
                 = Some (set_global_token (upd_app (set_stop true) w),
                         active_sessions (app_state w),
                         get (sm_prompt_id msg))).
  { unfold resolve_stop. rewrite Hall. cbv zeta.
    now rewrite set_global_token_app. }
  destruct (active_sessions (app_state w)) as [|t tasks] eqn:Hs.
  - rewrite (handle_stop_request_unmatched msg w _ _ Hres). simpl.
    now rewrite set_global_token_app.
  - rewrite (handle_stop_request_resolved msg w _ _ _ Hres) by done.
    cbv zeta. cbn [fst snd status stopped_tasks].
    rewrite sessions_finish_stop.
    match goal with |- context [notify_stopping ?pid ?l [] ?w1] =>
      destruct (notify_stopped_state (notify_stopping pid l [] w1).2
                  (notify_stopping pid l [] w1).1) as (_ & _ & -> & _);
      destruct (notify_stopping_everything pid l [] w1 Hup Hprompt)
        as [-> ->]
    end.
    + rewrite set_global_token_app. simpl. rewrite Hs.
      intros kv Hkv. eauto.
    + done.
Qed.

(** ** How the RPC handler answers *)

(** The instruction the handler works with: the enhanced instruction
    under its heading when there is one, the plain instruction
    otherwise. *)
Definition instruction_of (msg : RpcMsg) : option string :=
  let enhanced := get (enhanced_instruction msg) in
  if truthy enhanced
  then Some ("[REUSING PREVIOUS SUCCESSFUL EXECUTING]"
             +:+ String (ascii_of_nat 10) "" +:+ fmt enhanced)
  else get (instruction_to_vlm_agent msg).

(** The validation accepts exactly when the parser answers the probe
    with status 200, the API key is not blank, the Azure resource name
    is not blank if the provider is Azure, and there is a request
    text. *)
Theorem valid_params_accepts_iff (user_input : option string) (cfg : Config) :
  valid_params user_input cfg = [] ↔
    probe = Returns 200
    ∧ strip (api_key cfg) ≠ ""
    ∧ (provider cfg = "azure" → strip (azure_resource_name cfg) ≠ "")
    ∧ truthy user_input = true.
Proof.
  unfold valid_params.
  destruct probe as [code|e]; [|split; [discriminate|intros [[=] _]]].
  destruct (bool_decide (code = 200)) eqn:Hcode.
  2:{ split; [discriminate|]. intros [[= ->] _]. done. }
  apply bool_decide_eq_true in Hcode as ->.
  destruct (bool_decide (strip (api_key cfg) = "")) eqn:Hkey.
  { apply bool_decide_eq_true in Hkey.
    split; [discriminate|]. intros (_ & Hk & _). done. }
  apply bool_decide_eq_false in Hkey.
  destruct (bool_decide (provider cfg = "azure")) eqn:Hprov.
  - apply bool_decide_eq_true in Hprov.
    destruct (bool_decide (strip (azure_resource_name cfg) = "")) eqn:Hres.
    + apply bool_decide_eq_true in Hres.
      split; [discriminate|]. intros (_ & _ & Hr & _). now destruct Hr.
    + apply bool_decide_eq_false in Hres.
      destruct (truthy user_input); simpl.
      * split; [intros _; repeat split; auto|reflexivity].
      * split; [discriminate|]. intros (_ & _ & _ & [=]).
  - apply bool_decide_eq_false in Hprov.
    destruct (truthy user_input); simpl.
    + split; [intros _; repeat split; auto|reflexivity].
    + split; [discriminate|]. intros (_ & _ & _ & [=]).
Qed.

Lemma dict_get_set {V} k (v : V) (d : list (string * V)) :
  dict_get k (dict_set k v d) = Some v.
Proof.
  induction d as [|[k' v'] d IH]; simpl.
  - now destruct (decide (k = k)).
  - destruct (decide (k' = k)) as [->|Hne]; simpl.
    + now destruct (decide (k = k)).
    + now destruct (decide (k' = k)).
Qed.

Lemma dict_get_set_ne {V} k k' (v : V) (d : list (string * V)) :
  k' ≠ k → dict_get k' (dict_set k v d) = dict_get k' d.
Proof.
  intros Hne. induction d as [|[k0 v0] d IH]; simpl.
  - destruct (decide (k = k')); [congruence|done].
  - destruct (decide (k0 = k)) as [->|Hk0]; simpl.
    + destruct (decide (k = k')); [congruence|done].
    + destruct (decide (k0 = k')); [done|exact IH].
Qed.

(** The state in which the handler returns its error for a request
    without user: the state it was called in. *)
Lemma accept_without_user msg s :
  truthy (get (user_id msg)) = false →
  accept msg s = (Ret (error_response "No user_id provided"), s).
Proof.
  intros Hno. unfold accept, bind, register.
  destruct (get (user_id msg)) as [uid|]; [|reflexivity].
  now rewrite Hno.
Qed.

(** A request without [user_id] (missing, null or empty) is answered
    with the error [No user_id provided], and the whole state is as it
    was: nothing is registered, published or reset, whatever else the
    request carries. *)
Theorem request_without_user_changes_nothing (fuel : nat) (msg : RpcMsg)
    (s : LState) :
  truthy (get (user_id msg)) = false →
  handle_rpc_request fuel msg s
  = (Ret (error_response "No user_id provided"), s).
Proof.
  intros Hno. unfold handle_rpc_request, try_except, bind.
  now rewrite (accept_without_user msg s Hno).
Qed.

Lemma accept_invalid msg s uid :
  get (user_id msg) = Some uid →
  truthy (Some uid) = true →
  truthy (instruction_of msg) = true →
  valid_params (instruction_of msg) (config (app_state (world s))) ≠ [] →
  accept msg s
  = (Ret (error_response
            ("Validation errors: "
             +:+ join_errors
                   (valid_params (instruction_of msg)
                                 (config (app_state (world s)))))),
     registered msg uid s).
Proof.
  intros Huid Htruthy Hinstr Hbad.
  unfold accept, bind, register, gets, instruction_of in *.
  rewrite Huid, Htruthy, Hinstr.
  cbn [modify ret returnValue upd_world upd_app world app_state config
       set_active_sessions].
  destruct (valid_params _ _) as [|e errors]; [done|reflexivity].
Qed.

(** A request that fails the validation is answered with the error
    that lists the failures, in the order of the validation; nothing is
    published and nothing is reset; but the user is left in the
    registry, with the prompt of the rejected request. *)
Theorem invalid_setup_rejects_and_registers (fuel : nat) (msg : RpcMsg)
    (s : LState) (uid : string) :
  get (user_id msg) = Some uid →
  truthy (Some uid) = true →
  truthy (instruction_of msg) = true →
  valid_params (instruction_of msg) (config (app_state (world s))) ≠ [] →
  let r := handle_rpc_request fuel msg s in
  r.1 = Ret (error_response
               ("Validation errors: "
                +:+ join_errors
                      (valid_params (instruction_of msg)
                                    (config (app_state (world s))))))
  ∧ r.2 = registered msg uid s
  ∧ bus (world r.2) = bus (world s)
  ∧ messages (app_state (world r.2)) = messages (app_state (world s))
  ∧ stop (app_state (world r.2)) = stop (app_state (world s))
  ∧ heap (world r.2) = heap (world s)
  ∧ dict_get uid (active_sessions (app_state (world r.2)))
    = Some (get_default (prompt_id msg) "0").
Proof.
  intros Huid Htruthy Hinstr Hbad. cbv zeta.
  unfold handle_rpc_request, try_except, bind.
  rewrite (accept_invalid msg s uid Huid Htruthy Hinstr Hbad).
  cbn [fst snd]. repeat split.
  simpl. apply dict_get_set.
Qed.

(** The state in which a request is accepted. *)
Lemma accept_accepted (msg : RpcMsg) (s s1 : LState) (a : nat) :
  accept msg s = (Val a, s1) →
  a = length (heap (world s))
  ∧ heap (world s1)
    = heap (world s) ++ [ {| tok_stop := false; tok_task_tokens := None |} ]
  ∧ cancellation_token (app_state (world s1)) = Some a
  ∧ stop (app_state (world s1)) = false
  ∧ messages (app_state (world s1)) = [UserText (fmt (instruction_of msg))]
  ∧ session s1 = {| assistant_responses := []; extracted_responses := [] |}
  ∧ task_tokens (app_state (world s1)) = task_tokens (app_state (world s))
  ∧ config (app_state (world s1)) = config (app_state (world s))
  ∧ saved_json (world s1) = saved_json (world s)
  ∧ trace s1 = trace s
  ∧ (∃ p, bus (world s1) = bus (world s) ++ [p]
          ∧ pub_status p = Started ∧ pub_topic p = task_topic msg)
  ∧ ∃ uid, get (user_id msg) = Some uid
           ∧ truthy (Some uid) = true
           ∧ truthy (instruction_of msg) = true
           ∧ valid_params (instruction_of msg) (config (app_state (world s)))
             = []
           ∧ active_sessions (app_state (world s1))
             = dict_set uid (get_default (prompt_id msg) "0")
                        (active_sessions (app_state (world s))).
Proof.
  unfold accept, bind, register, gets, instruction_of.
  destruct (get (user_id msg)) as [uid|] eqn:Huid; [|discriminate].
  destruct (truthy (Some uid)) eqn:Htruthy; [|discriminate].
  cbn [modify ret returnValue upd_world upd_app world app_state config
       set_active_sessions].
  destruct (truthy (if truthy (get (enhanced_instruction msg)) then _ else _))
    eqn:Hinstr; [|discriminate].
  simpl. destruct (valid_params _ _) eqn:Hvalid; [|discriminate].
  intros [= <- <-]. simpl.
  repeat split; eauto 10.
Qed.

(** A request that is accepted starts from a clean slate: any stop
    handled before is forgotten (the process-wide flag is reset and the
    request gets a token object of its own, with its flag down, at a
    fresh address, which becomes the current one), the message history
    holds the instruction alone, the lists of the callback are empty,
    and [started] is published. The token objects of earlier requests
    and the per-task tokens of the process are left as they are, and the
    user is in the registry with the prompt of the request. *)
Theorem accepted_request_starts_clean (msg : RpcMsg) (s s1 : LState)
    (a : nat) :
  accept msg s = (Val a, s1) →
  a = length (heap (world s))
  ∧ heap (world s1)
    = heap (world s) ++ [ {| tok_stop := false; tok_task_tokens := None |} ]
  ∧ cancellation_token (app_state (world s1)) = Some a
  ∧ stop (app_state (world s1)) = false
  ∧ messages (app_state (world s1)) = [UserText (fmt (instruction_of msg))]
  ∧ session s1 = {| assistant_responses := []; extracted_responses := [] |}
  ∧ task_tokens (app_state (world s1)) = task_tokens (app_state (world s))
  ∧ config (app_state (world s1)) = config (app_state (world s))
  ∧ saved_json (world s1) = saved_json (world s)
  ∧ trace s1 = trace s
  ∧ (∃ p, bus (world s1) = bus (world s) ++ [p]
          ∧ pub_status p = Started ∧ pub_topic p = task_topic msg)
  ∧ ∃ uid, get (user_id msg) = Some uid
           ∧ truthy (Some uid) = true
           ∧ truthy (instruction_of msg) = true
           ∧ valid_params (instruction_of msg) (config (app_state (world s)))
             = []
           ∧ active_sessions (app_state (world s1))
             = dict_set uid (get_default (prompt_id msg) "0")
                        (active_sessions (app_state (world s))).
Proof. exact (accept_accepted msg s s1 a). Qed.

(** ** Edge cases of the agent loop *)

(** Called without a cancellation token, which is the default of the
    parameter and what [process_message] of [agentic.py] does, the loop
    fails at its first statement: [None] has no [get]. No collaborator
    is called and the message history is as it was. *)
Theorem loop_without_token_fails_at_once (rq : Request) (fuel : nat)
    (model : string) (s : LState) :
  let r := sampling_loop_sync rq None fuel model s in
  r.1 = Exc AttributeError
  ∧ trace r.2 = trace s
  ∧ session r.2 = session s
  ∧ messages (app_state (world r.2)) = messages (app_state (world s)).
Proof.
  cbv zeta. unfold sampling_loop_sync, bind, check_cancellation.
  cbn [mbind option_bind fst snd].
  destruct (frame_deliver_stops s) as (_ & _ & _ & _ & Hm & _).
  repeat split; auto.
Qed.

(** With a model name that is neither the Anthropic one nor one of the
    omniparser ones, the loop raises [ValueError] right after its first
    cancellation check, when that check passes: no collaborator is
    called. A raised flag wins over the model name: the loop then
    returns [None]. *)
Theorem unsupported_model_fails_after_first_check (rq : Request)
    (tok : option nat) (fuel : nat) (model : string) (s : LState) :
  model ≠ "claude-3-5-sonnet-20241022" →
  model ∉ omniparser_models →
  let key := task_key (rq_user_id rq) (rq_prompt_id rq) in
  let r := sampling_loop_sync rq tok fuel model s in
  match check_cancellation tok key s with
  | (Val _, s1) =>
      r = (Exc (ValueError ("Model " +:+ model +:+ " not supported")), s1)
      ∧ trace s1 = EvCheck false :: trace s
  | (Stop x, s1) => r = (Stop x, s1)
  end.
Proof.
  intros Hclaude Homni. cbv zeta.
  unfold sampling_loop_sync, bind.
  pose proof (trace_check_passed tok
                (task_key (rq_user_id rq) (rq_prompt_id rq)) s) as Htrace.
  destruct (check_cancellation tok _ s) as [[[]|x] s1]; [|reflexivity].
  rewrite bool_decide_eq_false_2 by exact Hclaude.
  rewrite bool_decide_eq_false_2 by exact Homni.
  split; [reflexivity|]. now apply Htrace.
Qed.

Lemma try_except_with_value {R A} (m : M R A) (a : A) s e :
  (try_except m (λ _, ret a) s).1 ≠ Exc e.
Proof.
  unfold try_except. destruct (m s) as [[b|[r|e'|]] s1]; simpl; discriminate.
Qed.

Lemma vlm_items_unfold rq tok steps trc :
  vlm_items rq tok steps trc
  = try_except
      (check_cancellation tok (task_key (rq_user_id rq) (rq_prompt_id rq)) ;;;
       match steps with
       | [] => modify (record EvNext) ;;; ret trc
       | st :: rest =>
           run_step rq st ;;;
           match step_result st with
           | Yields (ItemPair c) => vlm_items rq tok rest c
           | Yields (ItemOther _) => vlm_items rq tok rest trc
           | Stops => ret trc
           | Fails _ => ret trc
           end
       end)
      (λ _, ret trc).
Proof. destruct steps; reflexivity. Qed.

(** The omniparser backend swallows the failures of the executor: no
    exception comes out of its loop over the executor's results, and
    when the call of the executor itself raises, the iteration ends with
    the tool-result content it began with. With an empty content, as in
    the first iteration, the loop then returns the message history, as
    it does for a task that is done. The Anthropic backend lets a
    failing step of the executor through. *)
Theorem omniparser_loop_swallows_executor_failures (rq : Request)
    (tok : option nat) (fuel : nat) (trc : option (list string))
    (s : LState) :
  let key := task_key (rq_user_id rq) (rq_prompt_id rq) in
  (∀ steps trc' s' e, (vlm_items rq tok steps trc' s').1 ≠ Exc e)
  ∧ (∀ s1 screen s2 s3 tools response s4 s5 e s6,
       check_cancellation tok key s = (Val tt, s1) →
       observe s1 = (Val screen, s2) →
       check_cancellation tok key s2 = (Val tt, s3) →
       decide_vlm rq screen s3 = (Val (tools, response), s4) →
       check_cancellation tok key s4 = (Val tt, s5) →
       completion_detected response = false →
       call_executor tools s5 = (Exc e, s6) →
       vlm_iteration rq tok trc s = (Val trc, s6)
       ∧ vlm_loop rq tok (S fuel) trc s
         = if falsy trc
           then (Ret (Some (messages (app_state (world s6)))), s6)
           else vlm_loop rq tok fuel trc s6)
  ∧ (∀ st rest trc' s' e,
       step_result st = Fails e →
       (anthropic_items rq tok (st :: rest) trc' s').1 = Exc e).
Proof.
  intros key. split; [|split].
  - intros steps trc' s' e. rewrite vlm_items_unfold.
    apply try_except_with_value.
  - intros s1 screen s2 s3 tools response s4 s5 e s6 H1 H2 H3 H4 H5 Hnot Hex.
    assert (Hit : vlm_iteration rq tok trc s = (Val trc, s6)).
    { unfold vlm_iteration, bind, try_except. fold key.
      rewrite H1, H2, H3, H4, H5, Hnot. cbn [ret]. now rewrite Hex. }
    split; [exact Hit|]. simpl. unfold bind at 1. rewrite Hit.
    destruct (falsy trc); reflexivity.
  - intros st rest trc' s' e Hfail. simpl. unfold bind at 1.
    destruct (hoare_run_step (λ _, True) rq st (λ _ _, False) s'
                (trace s') [] eq_refl I) as (n' & _ & Hp).
    destruct (run_step rq st s') as [[[]|x] s1]; [|destruct Hp].
    now rewrite Hfail.
Qed.

(** ** The output callback over a run *)

(** The text a message adds to the assistant responses, if any. *)
Definition rendered_text (hide_images : bool) (m : Message) : option string :=
  match _render_message hide_images m with
  | Some (String c r) => Some (String c r)
  | _ => None
  end.

(** The notices the callback publishes for a request. *)
Definition progress_of (rq : Request) (p : Publication) : Prop :=
  pub_status p = InProgress
  ∧ pub_is_final p = Some false
  ∧ pub_topic p = topic rq
  ∧ pub_user p = rq_user_id rq
  ∧ pub_prompt p = rq_prompt_id rq.

Lemma output_callback_step rq hide m ses w :
  let r := output_callback rq hide m (ses, w) in
  assistant_responses r.1
  = assistant_responses ses ++ option_list (rendered_text hide m)
  ∧ app_state r.2 = app_state w
  ∧ heap r.2 = heap w
  ∧ saved_json r.2 = saved_json w
  ∧ ∃ records news,
      extracted_responses r.1 = extracted_responses ses ++ records
      ∧ bus r.2 = bus w ++ news
      ∧ pub_payload <$> news = PRecord <$> records
      ∧ Forall (progress_of rq) news
      ∧ length records ≤ length (option_list (rendered_text hide m)).
Proof.
  cbv zeta. unfold output_callback, rendered_text.
  destruct (_render_message hide m) as [[|c r]|].
  - simpl. rewrite app_nil_r. repeat split; auto.
    exists [], []. rewrite !app_nil_r. repeat split; auto.
  - destruct (message_type_of (String c r)) as [ty|].
    + destruct (extraction ty (String c r)) as [[] content].
      * rewrite publish_eq. simpl. repeat split; auto.
        eexists [_], [_]. repeat split; auto; repeat constructor.
      * simpl. repeat split; auto.
        exists [], []. rewrite !app_nil_r. repeat split; auto; simpl; lia.
    + simpl. repeat split; auto.
      exists [], []. rewrite !app_nil_r. repeat split; auto; simpl; lia.
  - simpl. rewrite app_nil_r. repeat split; auto.
    exists [], []. rewrite !app_nil_r. repeat split; auto.
Qed.

(** Over any sequence of messages handed to the output callback of a
    request: every message that renders to a non-empty text is added to
    the assistant responses, in order; the extracted records and the
    [in_progress] notices grow together, one notice for each record and
    carrying it, on the topic of the request and not final; there are
    never more records than assistant responses; and the callback
    touches nothing else in the process. *)
Theorem callback_records_and_notices_agree (rq : Request) (hide : bool)
    (ms : list Message) (ses : Session) (w : World) :
  let r := foldl (λ cs m, output_callback rq hide m cs) (ses, w) ms in
  assistant_responses r.1
  = assistant_responses ses ++ omap (rendered_text hide) ms
  ∧ app_state r.2 = app_state w
  ∧ heap r.2 = heap w
  ∧ saved_json r.2 = saved_json w
  ∧ ∃ records news,
      extracted_responses r.1 = extracted_responses ses ++ records
      ∧ bus r.2 = bus w ++ news
      ∧ pub_payload <$> news = PRecord <$> records
      ∧ Forall (progress_of rq) news
      ∧ length records ≤ length (omap (rendered_text hide) ms).
Proof.
  revert ses w. induction ms as [|m ms IH]; intros ses w.
  - simpl. rewrite app_nil_r. repeat split; auto.
    exists [], []. rewrite !app_nil_r. repeat split; auto.
  - cbn [foldl].
    destruct (output_callback_step rq hide m ses w)
      as (Ha & Hs & Hh & Hj & recs1 & news1 & He1 & Hb1 & Hp1 & Hf1 & Hl1).
    cbv zeta in Ha, Hs, Hh, Hj, He1, Hb1.
    destruct (output_callback rq hide m (ses, w)) as [ses1 w1].
    cbn [fst snd] in *.
    destruct (IH ses1 w1)
      as (Ha' & Hs' & Hh' & Hj' & recs2 & news2 & He2 & Hb2 & Hp2 & Hf2 & Hl2).
    cbv zeta in *.
    assert (Homap : omap (rendered_text hide) (m :: ms)
                    = option_list (rendered_text hide m)
                      ++ omap (rendered_text hide) ms).
    { simpl. now destruct (rendered_text hide m). }
    rewrite Homap.
    split; [now rewrite Ha', Ha, <- app_assoc|].
    split; [congruence|]. split; [congruence|]. split; [congruence|].
    exists (recs1 ++ recs2), (news1 ++ news2).
    split; [now rewrite He2, He1, <- app_assoc|].
    split; [now rewrite Hb2, Hb1, <- app_assoc|].
    split; [now rewrite !fmap_app, Hp1, Hp2|].
    split; [now apply Forall_app|].
    rewrite !length_app. lia.
Qed.

(** ** Result persistence *)

Lemma filter_from_succ (used : list nat) n :
  n ∈ used →
  length (filter (λ x, S n ≤ x) used) < length (filter (λ x, n ≤ x) used).
Proof.
  induction used as [|x used IH]; intros Hin; [inversion Hin|].
  assert (Hle : length (filter (λ x, S n ≤ x) used)
                ≤ length (filter (λ x, n ≤ x) used)).
  { clear. induction used as [|y used IH]; [done|].
    destruct (decide (S n ≤ y)).
    - rewrite !filter_cons_True by lia. simpl. lia.
    - rewrite (filter_cons_False (λ x, S n ≤ x)) by done.
      destruct (decide (n ≤ y)).
      + rewrite filter_cons_True by done. simpl. lia.
      + now rewrite filter_cons_False by done. }
  destruct (decide (x = n)) as [->|Hne].
  - rewrite (filter_cons_False (λ x, S n ≤ x)) by lia.
    rewrite filter_cons_True by lia. simpl. lia.
  - apply elem_of_cons in Hin as [->|Hin]; [done|].
    specialize (IH Hin).
    destruct (decide (S n ≤ x)).
    + rewrite !filter_cons_True by lia. simpl. lia.
    + rewrite (filter_cons_False (λ x, S n ≤ x)) by done.
      destruct (decide (n ≤ x)).
      * rewrite filter_cons_True by done. simpl. lia.
      * now rewrite filter_cons_False by done.
Qed.

(** The search for a file index ends on the smallest index from [n] on
    that is not in use, when the budget covers the indices in use. *)
Lemma first_free_spec (used : list nat) budget n :
  length (filter (λ x, n ≤ x) used) ≤ budget →
  let r := first_free used budget n in
  n ≤ r ∧ (r ∉ used) ∧ ∀ k, n ≤ k → k < r → k ∈ used.
Proof.
  revert n. induction budget as [|budget IH]; intros n Hlen; simpl.
  - split; [lia|]. split; [|lia].
    intros Hin. assert (Hf : n ∈ filter (λ x, n ≤ x) used).
    { apply list_elem_of_filter. split; [lia|done]. }
    destruct (filter (λ x, n ≤ x) used); [inversion Hf|simpl in Hlen; lia].
  - destruct (bool_decide (n ∈ used)) eqn:Hn.
    + apply bool_decide_eq_true in Hn.
      pose proof (filter_from_succ used n Hn) as Hlt.
      destruct (IH (S n)) as (Hle & Hfree & Hbelow); [lia|].
      split; [lia|]. split; [exact Hfree|].
      intros k Hk1 Hk2. destruct (decide (k = n)) as [->|Hne]; [done|].
      apply Hbelow; lia.
    + apply bool_decide_eq_false in Hn. split; [lia|]. split; [done|lia].
Qed.

(** Result persistence never overwrites a file: with a working disk it
    adds one file for the task, under the smallest index that no saved
    file of the task has, holding the extracted records of the run, and
    leaves the files that were there; with a failing disk it changes
    nothing. It never fails. *)
Theorem persist_never_overwrites (msg : RpcMsg) (s : LState) :
  let base := task_key (get (user_id msg)) (get_default (prompt_id msg) "0") in
  let r := persist msg s in
  r.1 = Val tt
  ∧ if disk_ok then
      ∃ i data,
        r.2 = upd_world
                (set_saved_json (saved_json (world s) ++ [(base, i, data)])) s
        ∧ (∀ f, f ∈ saved_json (world s) → f.1 ≠ (base, i))
        ∧ (∀ j, j < i → ∃ f, f ∈ saved_json (world s) ∧ f.1 = (base, j))
        ∧ session_id data = base
        ∧ sd_instruction data = instruction_of msg
        ∧ sd_messages data = extracted_responses (session s)
    else r.2 = s.
Proof.
  cbv zeta. unfold persist. destruct disk_ok; [|done].
  split; [reflexivity|]. eexists _, _. split; [reflexivity|].
  set (base := task_key _ _).
  set (used := (λ f : string * nat * SessionData, f.1.2)
                 <$> filter (λ f, f.1.1 = base) (saved_json (world s))).
  destruct (first_free_spec used (length used) 0) as (_ & Hfree & Hbelow).
  { apply length_filter. }
  cbv zeta in Hfree, Hbelow.
  split; [|split; [|done]].
  - intros [[b i] d] Hin Heq. simpl in Heq. injection Heq as -> Hi.
    apply Hfree.
    change (first_free used (length used) 0)
      with (file_index base (saved_json (world s))).
    subst used. rewrite <- Hi.
    apply (list_elem_of_fmap_2 (λ f : string * nat * SessionData, f.1.2)
             _ (base, i, d)).
    apply list_elem_of_filter. done.
  - intros j Hj. pose proof (Hbelow j (Nat.le_0_l j) Hj) as Hin.
    subst used. apply list_elem_of_fmap in Hin as ([[b i] d] & -> & Hin).
    apply list_elem_of_filter in Hin as [Hb Hin]. simpl in Hb. subst b.
    eauto.
Qed.

(** ** Invariants of the state over a run of the agent loop *)

Section LoopInvariant.
Variable I : LState → Prop.
Hypothesis I_check : ∀ tok key, keeps I (check_cancellation tok key).
Hypothesis I_emit : ∀ rq ms, keeps (R:=LoopResult) I (emit rq ms).
Hypothesis I_record : ∀ e s, I s → I (record e s).
Hypothesis I_messages :
  ∀ ms s, I s → I (upd_world (upd_app (set_messages ms)) s).

Ltac keep_inv :=
  repeat first
    [ apply keeps_bind; [|intros ?]
    | apply keeps_pure | apply keeps_ret | apply keeps_returnValue
    | apply keeps_raise | apply keeps_lift_reply | apply keeps_gets
    | apply I_check | apply I_emit
    | apply keeps_modify; intros ? ?;
      first [ apply I_record | apply I_messages ]; assumption
    | apply keeps_try_except; [|intros ?]
    | match goal with
      | |- keeps _ (if ?b then _ else _) => destruct b
      | |- keeps _ (let '(_, _) := ?x in _) => destruct x
      | |- keeps _ (match ?x with _ => _ end) => destruct x
      end ].

Lemma inv_observe : keeps I observe.
Proof. unfold observe, now. keep_inv. Qed.

Lemma inv_decide_vlm rq screen : keeps I (decide_vlm rq screen).
Proof. unfold decide_vlm, now, get_messages, put_messages. keep_inv. Qed.

Lemma inv_decide_anthropic : keeps I decide_anthropic.
Proof. unfold decide_anthropic, now, get_messages, put_messages. keep_inv. Qed.

Lemma inv_call_executor tools : keeps I (call_executor tools).
Proof. unfold call_executor, now, get_messages. keep_inv. Qed.

Lemma inv_run_step rq st : keeps (R:=LoopResult) I (run_step rq st).
Proof. unfold run_step, put_messages. keep_inv. Qed.

Lemma inv_vlm_items rq tok steps trc : keeps I (vlm_items rq tok steps trc).
Proof.
  revert trc. induction steps as [|st rest IH]; intros trc; simpl;
    (apply keeps_try_except; [|intros e; apply keeps_ret]).
  - keep_inv.
  - apply keeps_bind; [apply I_check|intros _].
    apply keeps_bind; [apply inv_run_step|intros _].
    destruct (step_result st) as [[c|]| |e]; auto using keeps_ret.
Qed.

Lemma inv_anthropic_items rq tok steps trc :
  keeps I (anthropic_items rq tok steps trc).
Proof.
  revert trc. induction steps as [|st rest IH]; intros trc; simpl.
  - keep_inv.
  - apply keeps_bind; [apply inv_run_step|intros _].
    destruct (step_result st) as [[c|]| |e];
      auto using keeps_ret, keeps_raise.
    apply keeps_bind; [apply I_check|intros _]. apply IH.
Qed.

Lemma inv_vlm_iteration rq tok trc : keeps I (vlm_iteration rq tok trc).
Proof.
  unfold vlm_iteration, get_messages.
  apply keeps_bind; [apply I_check|intros _].
  apply keeps_bind; [apply inv_observe|intros screen].
  apply keeps_bind; [apply I_check|intros _].
  apply keeps_bind; [apply inv_decide_vlm|intros [tools json]].
  apply keeps_bind; [apply I_check|intros _].
  apply keeps_bind; [keep_inv|intros _].
  apply keeps_try_except; [|intros e; apply keeps_ret].
  apply keeps_bind; [apply inv_call_executor|intros steps].
  apply inv_vlm_items.
Qed.

Lemma inv_vlm_loop rq tok fuel trc : keeps I (vlm_loop rq tok fuel trc).
Proof.
  revert trc. induction fuel as [|fuel IH]; intros trc; simpl.
  - apply keeps_pure.
  - apply keeps_bind; [apply inv_vlm_iteration|intros trc'].
    destruct (falsy trc'); [unfold get_messages; keep_inv|apply IH].
Qed.

Lemma inv_anthropic_loop rq tok fuel trc :
  keeps I (anthropic_loop rq tok fuel trc).
Proof.
  revert trc. induction fuel as [|fuel IH]; intros trc; simpl.
  - apply keeps_pure.
  - unfold get_messages, put_messages.
    apply keeps_bind; [apply I_check|intros _].
    apply keeps_bind; [apply inv_observe|intros screen].
    apply keeps_bind; [apply I_check|intros _].
    apply keeps_bind; [keep_inv|intros ms].
    apply keeps_bind; [keep_inv|intros _].
    apply keeps_bind; [apply I_check|intros _].
    apply keeps_bind; [apply inv_decide_anthropic|intros tools].
    apply keeps_bind; [apply I_check|intros _].
    apply keeps_bind; [apply inv_call_executor|intros steps].
    apply keeps_bind; [apply inv_anthropic_items|intros trc'].
    apply keeps_bind; [keep_inv|intros ms'].
    destruct (falsy trc'); [keep_inv|].
    apply keeps_bind; [keep_inv|intros _]. apply IH.
Qed.

Lemma inv_sampling_loop_sync rq tok fuel model :
  keeps I (sampling_loop_sync rq tok fuel model).
Proof.
  unfold sampling_loop_sync.
  apply keeps_bind; [apply I_check|intros _].
  apply keeps_bind; [keep_inv|intros _].
  apply keeps_bind; [apply I_check|intros _].
  destruct (bool_decide (model = _));
    [apply inv_anthropic_loop|apply inv_vlm_loop].
Qed.
End LoopInvariant.

(** ** A request that no stop request disturbs *)

(** What the agent loop itself never writes: the registry, the
    process-wide flag, the token objects, the per-task tokens, the
    configuration and the saved files. *)
Definition control_of (w : World) :=
  (active_sessions (app_state w), stop (app_state w),
   cancellation_token (app_state w), task_tokens (app_state w),
   config (app_state w), heap w, saved_json w).

Section Quiet.
Hypothesis quiet : ∀ time, arrivals time = [].

Lemma deliver_stops_quiet s :
  deliver_stops s
  = {| world := world s; session := session s; trace := trace s |}.
Proof. unfold deliver_stops, upd_world. now rewrite quiet. Qed.

Lemma quiet_check c tok key :
  keeps (λ s, control_of (world s) = c) (check_cancellation tok key).
Proof.
  intros s Hs. unfold check_cancellation. cbv zeta.
  rewrite deliver_stops_quiet. cbn [world].
  destruct (tok ≫= _) as [t|]; [|exact Hs].
  destruct (cancel_requested t key); exact Hs.
Qed.

Lemma quiet_emit {R} c rq ms :
  keeps (R:=R) (λ s, control_of (world s) = c) (emit rq ms).
Proof.
  apply keeps_modify. intros s.
  generalize (session s) (world s). clear.
  induction ms as [|m ms IH]; intros ses w Hw; cbn [foldl].
  - exact Hw.
  - destruct (output_callback_step rq false m ses w)
      as (_ & Ha & Hh & Hj & _).
    cbv zeta in Ha, Hh, Hj.
    destruct (output_callback rq false m (ses, w)) as [ses' w'].
    apply IH. unfold control_of in *. cbn [snd] in *. congruence.
Qed.

(** Without stop requests, the agent loop leaves the registry, the
    flags, the token objects and the saved files as they are. *)
Lemma quiet_sampling_loop_sync c rq tok fuel model :
  keeps (λ s, control_of (world s) = c)
        (sampling_loop_sync rq tok fuel model).
Proof.
  apply inv_sampling_loop_sync.
  - intros tok' key. apply quiet_check.
  - intros rq' ms. apply quiet_emit.
  - intros e s Hs. exact Hs.
  - intros ms s Hs. exact Hs.
Qed.

Lemma stop_seen_quiet a s t :
  stop (app_state (world s)) = false →
  heap (world s) !! a = Some t →
  tok_stop t = false →
  stop_seen a s = (Val false, record (EvDriverCheck false) s).
Proof.
  intros Hstop Hlook Hflag. unfold stop_seen. cbv zeta.
  rewrite deliver_stops_quiet. cbn [world].
  rewrite Hstop, Hlook. cbn [from_option orb]. now rewrite Hflag.
Qed.
End Quiet.

(** The request the handler passes to the loop and to its callback. *)
Definition request_of (msg : RpcMsg) : Request :=
  {| rq_user_id := get (user_id msg);
     rq_prompt_id := get_default (prompt_id msg) "0";
     rq_instruction := instruction_of msg |}.

(** The answer to a request whose loop has raised. *)
Definition failure_response (msg : RpcMsg) (e : Exn) : RpcResponse :=
  {| rr_status := Error;
     rr_message := Some ("Error processing request: " +:+ exn_str e);
     rr_user_id := get (user_id msg);
     rr_prompt_id := get_default (prompt_id msg) "0";
     rr_total_messages := None;
     rr_extracted_responses := [] |}.

(** The answer to a request that went through. *)
Definition success_response (msg : RpcMsg) (ses : Session) : RpcResponse :=
  {| rr_status := Success; rr_message := None;
     rr_user_id := get (user_id msg);
     rr_prompt_id := get_default (prompt_id msg) "0";
     rr_total_messages := Some (length (assistant_responses ses));
     rr_extracted_responses := extracted_responses ses |}.

Lemma handle_rpc_request_accepted fuel msg s a s1 :
  accept msg s = (Val a, s1) →
  handle_rpc_request fuel msg s
  = match run_agent fuel msg a s1 with
    | (Val _, s2) =>
        match finish msg s2 with
        | (Exc e, s3) => (Ret (error_response (exn_str e)), s3)
        | r => r
        end
    | (Exc e, s2) => (Ret (error_response (exn_str e)), s2)
    | (Ret r, s2) => (Ret r, s2)
    | (Fuel, s2) => (Fuel, s2)
    end.
Proof.
  intros Hacc. unfold handle_rpc_request, try_except, bind. rewrite Hacc.
  destruct (run_agent fuel msg a s1) as [[[]|[r|e|]] s2]; reflexivity.
Qed.

Lemma run_agent_unfold fuel msg a s :
  run_agent fuel msg a s
  = match drive fuel a
            (await (sampling_loop_sync (request_of msg) (Some a) fuel
                      (model (config (app_state (world s)))))) s with
    | (Exc e, s2) =>
        (Ret (failure_response msg e),
         upd_world (λ w,
           (publish (task_topic msg) (get (user_id msg))
                    (get_default (prompt_id msg) "0") Errored
                    (PText ("Error processing request: " +:+ exn_str e))
                    None w).1) s2)
    | r => r
    end.
Proof.
  unfold run_agent, bind, gets, try_except, request_of, instruction_of.
  destruct (drive _ _ _ s) as [[[]|[r|e|]] s2]; reflexivity.
Qed.

(** The last part of the handler on a state in which the user is in
    the registry. *)
Lemma finish_registered msg s uid :
  get (user_id msg) = Some uid →
  truthy (Some uid) = true →
  is_Some (dict_get uid (active_sessions (app_state (world s)))) →
  (finish msg s).1 = Ret (success_response msg (session s))
  ∧ active_sessions (app_state (world (finish msg s).2))
    = dict_del uid (active_sessions (app_state (world s))).
Proof.
  intros Huid Htruthy Hin.
  assert (Hmem : dict_mem uid (active_sessions (app_state (world s))) = true).
  { unfold dict_mem. now rewrite bool_decide_eq_true_2. }
  destruct (active_sessions (app_state (world s))) as [|kv d] eqn:Hd;
    [now destruct Hin|].
  unfold finish, persist, publish_status, unregister, gets, modify,
    returnValue, success_response, publish, bind.
  rewrite Huid, Htruthy.
  destruct disk_ok;
    cbn [upd_world world session app_state upd_app set_saved_json set_bus
         fst snd ret active_sessions];
    rewrite Hd, Hmem;
    cbn [upd_world world session app_state upd_app set_active_sessions
         fst snd active_sessions];
    rewrite ?Hd; split; reflexivity.
Qed.

(** Without stop requests, and with a Deferred that gives [None] when
    it is waited for a second time, the answer to an accepted request is
    decided by the way its agent loop ends.
    - The loop returns (the message history, or [None]): the answer is
      success, with the number of assistant responses and the extracted
      records of the run; [completed] is the last publication; the user
      is out of the registry and the other entries are as before.
    - The loop raises: the answer is the error with the text of the
      exception, published as [error]; nothing is saved, and the user
      stays in the registry with the prompt of the request.
    The loop is started right after the first check of the driver. *)
Theorem undisturbed_request_outcome (fuel : nat) (msg : RpcMsg)
    (s s1 : LState) (a : nat) :
  (∀ time, arrivals time = []) →
  (∀ r, refire r = None) →
  accept msg s = (Val a, s1) →
  let loop :=
    sampling_loop_sync (request_of msg) (Some a) (S (S fuel))
      (model (config (app_state (world s))))
      (record (EvDriverCheck false) s1) in
  let r := handle_rpc_request (S (S fuel)) msg s in
  let registry (x : LState) := active_sessions (app_state (world x)) in
  match loop.1 with
  | Val x => False
  | Ret _ =>
      r.1 = Ret (success_response msg (session loop.2))
      ∧ (∃ p, bus (world r.2) = bus (world loop.2) ++ [p]
              ∧ pub_status p = Completed ∧ pub_is_final p = Some true)
      ∧ ∀ k, dict_get k (registry r.2)
             = if decide (Some k = get (user_id msg)) then None
               else dict_get k (registry s)
  | Exc e =>
      r.1 = Ret (failure_response msg e)
      ∧ (∃ p, bus (world r.2) = bus (world loop.2) ++ [p]
              ∧ pub_status p = Errored)
      ∧ saved_json (world r.2) = saved_json (world s)
      ∧ ∀ k, dict_get k (registry r.2)
             = if decide (Some k = get (user_id msg))
               then Some (get_default (prompt_id msg) "0")
               else dict_get k (registry s)
  | Fuel => r.1 = Fuel
  end.
Proof.
  intros quiet Hrefire Hacc. cbv zeta.
  destruct (accept_accepted msg s s1 a Hacc)
    as (Ha & Hheap & Hcur & Hstop & _ & _ & _ & Hcfg & Hsaved & _ & _
        & uid & Huid & Htruthy & _ & _ & Hreg).
  assert (Hlook : heap (world s1) !! a
                  = Some {| tok_stop := false; tok_task_tokens := None |}).
  { rewrite Hheap, Ha. apply list_lookup_middle. reflexivity. }
  rewrite (handle_rpc_request_accepted _ msg s a s1 Hacc), run_agent_unfold.
  rewrite Hcfg.
  set (L := sampling_loop_sync (request_of msg) (Some a) (S (S fuel))
              (model (config (app_state (world s))))).
  pose proof (quiet_sampling_loop_sync quiet
                (control_of (world s1)) (request_of msg) (Some a)
                (S (S fuel)) (model (config (app_state (world s))))
                (record (EvDriverCheck false) s1) eq_refl) as Hinv.
  fold L in Hinv. unfold control_of in Hinv.
  assert (Hreg_k : ∀ k,
    dict_get k (active_sessions (app_state (world s1)))
    = if decide (Some k = get (user_id msg))
      then Some (get_default (prompt_id msg) "0")
      else dict_get k (active_sessions (app_state (world s)))).
  { intros k. rewrite Hreg, Huid. destruct (decide (Some k = Some uid)) as [E|N].
    - injection E as ->. apply dict_get_set.
    - apply dict_get_set_ne. congruence. }
  assert (Hdrive :
    drive (S (S fuel)) a (await L) s1
    = match L (record (EvDriverCheck false) s1) with
      | (Val x, _) => match x with end
      | (Ret (Some _), sb) =>
          (Val tt, record (EvDriverCheck false)
                     (record (EvDriverCheck false) sb))
      | (Ret None, sb) => (Val tt, sb)
      | (Exc e, sb) => (Exc e, sb)
      | (Fuel, sb) => (Fuel, sb)
      end).
  { cbn [drive]. unfold bind at 1.
    rewrite (stop_seen_quiet quiet a s1 _ Hstop Hlook eq_refl).
    unfold bind at 1. unfold await at 1.
    destruct (L (record (EvDriverCheck false) s1))
      as [[[]|[[ms|]|e|]] sb] eqn:HL; cbn [fst snd] in *; try reflexivity.
    injection Hinv as _ Hstopb _ _ _ Hheapb _.
    unfold bind at 1.
    rewrite (stop_seen_quiet quiet a sb
               {| tok_stop := false; tok_task_tokens := None |});
      [|now rewrite Hstopb|now rewrite Hheapb|reflexivity].
    unfold bind at 1.
    rewrite (stop_seen_quiet quiet a (record (EvDriverCheck false) sb)
               {| tok_stop := false; tok_task_tokens := None |});
      [|cbn [record world]; now rewrite Hstopb
       |cbn [record world]; now rewrite Hheapb|reflexivity].
    unfold bind at 1. now rewrite Hrefire. }
  rewrite Hdrive. clear Hdrive.
  destruct (L (record (EvDriverCheck false) s1)) as [[[]|[res|e|]] sb] eqn:HL;
    cbn [fst snd] in *.
  - injection Hinv as Hsess Hstopb Hcurb Httb Hcfgb Hheapb Hsavedb.
    assert (Hfin : ∀ sc,
      world sc = world sb → session sc = session sb →
      (finish msg sc).1 = Ret (success_response msg (session sb))
      ∧ (∃ p, bus (world (finish msg sc).2) = bus (world sb) ++ [p]
              ∧ pub_status p = Completed ∧ pub_is_final p = Some true)
      ∧ ∀ k, dict_get k (active_sessions (app_state (world (finish msg sc).2)))
             = if decide (Some k = get (user_id msg)) then None
               else dict_get k (active_sessions (app_state (world s)))).
    { intros sc Hw Hs.
      destruct (finish_registered msg sc uid Huid Htruthy) as [Hr Hd].
      { rewrite Hw, Hsess, Hreg, dict_get_set. eauto. }
      destruct (finish_outcome msg sc) as (_ & p & Hb & Hst & Hf & _).
      rewrite Hr, Hs. split; [reflexivity|].
      split; [exists p; now rewrite Hb, Hw|].
      intros k. rewrite Hd, Hw, Hsess.
      specialize (Hreg_k k). rewrite Huid in *.
      destruct (decide (Some k = Some uid)) as [E|N].
      - injection E as ->. apply dict_get_del.
      - rewrite dict_get_del_ne by congruence. exact Hreg_k. }
    destruct res as [ms|].
    + destruct (Hfin (record (EvDriverCheck false)
                        (record (EvDriverCheck false) sb)) eq_refl eq_refl)
        as (Hr & Hb & Hk).
      destruct (finish msg _) as [o sd].
      cbn [fst snd] in *. subst o. auto.
    + destruct (Hfin sb eq_refl eq_refl) as (Hr & Hb & Hk).
      destruct (finish msg sb) as [o sd].
      cbn [fst snd] in *. subst o. auto.
  - injection Hinv as Hsess Hstopb Hcurb Httb Hcfgb Hheapb Hsavedb.
    cbn [fst snd upd_world world]. rewrite publish_eq.
    cbn [fst snd set_bus bus saved_json app_state].
    split; [reflexivity|]. split; [eauto|]. split; [congruence|].
    intros k. rewrite Hsess. apply Hreg_k.
  - reflexivity.
Qed.

Lemma await_no_return (m : M LoopResult Empty_set) s r :
  (await m s).1 ≠ Ret r.
Proof.
  unfold await. destruct (m s) as [[[]|[x|e|]] s']; discriminate.
Qed.

Lemma drive_no_return n a (generator : M RpcResponse LoopResult) s r :
  (∀ s' r', (generator s').1 ≠ Ret r') →
  (drive n a generator s).1 ≠ Ret r.
Proof.
  revert generator s. induction n as [|n IH]; intros generator s Hgen;
    [discriminate|].
  cbn [drive]. unfold bind at 1. unfold stop_seen at 1. cbv zeta.
  destruct (_ || _); [discriminate|].
  unfold bind at 1.
  match goal with |- context [generator ?s1] =>
    specialize (Hgen s1); destruct (generator s1) as [[[ms|]|[x|e|]] s2] end;
    try discriminate.
  - unfold bind at 1. unfold stop_seen at 1. cbv zeta.
    destruct (_ || _); [discriminate|].
    apply IH. discriminate.
  - now destruct (Hgen x).
Qed.

(** The ways the last part of the handler ends for a registered
    user. *)
Lemma finish_cases msg s uid :
  get (user_id msg) = Some uid →
  truthy (Some uid) = true →
  (∃ e, (finish msg s).1 = Exc e)
  ∨ ((finish msg s).1 = Ret (success_response msg (session s))
     ∧ session (finish msg s).2 = session s
     ∧ dict_get uid (active_sessions (app_state (world (finish msg s).2)))
       = None
     ∧ (disk_ok = true →
        ∃ i data,
          last (saved_json (world (finish msg s).2))
          = Some (task_key (Some uid) (get_default (prompt_id msg) "0"),
                  i, data)
          ∧ sd_messages data = extracted_responses (session s))).
Proof.
  intros Huid Htruthy.
  destruct (active_sessions (app_state (world s))) as [|kv d] eqn:Hd.
  - right.
    unfold finish, persist, publish_status, unregister, gets, modify,
      returnValue, success_response, publish, bind.
    rewrite Huid.
    destruct disk_ok;
      cbn [upd_world world session app_state upd_app set_saved_json set_bus
           fst snd ret active_sessions saved_json];
      rewrite Hd; simpl; rewrite ?Hd;
      (repeat split; try (intros ?; discriminate));
      intros _; eexists _, _; rewrite last_snoc; split; reflexivity.
  - destruct (dict_mem uid (kv :: d)) eqn:Hmem.
    + right.
      unfold finish, persist, publish_status, unregister, gets, modify,
        returnValue, success_response, publish, bind.
      rewrite Huid, Htruthy.
      destruct disk_ok;
        cbn [upd_world world session app_state upd_app set_saved_json set_bus
             fst snd ret active_sessions saved_json];
        rewrite Hd, Hmem;
        cbn [upd_world world session app_state upd_app set_active_sessions
             set_saved_json set_bus fst snd active_sessions saved_json];
        (split; [reflexivity|]); (split; [reflexivity|]);
        (split; [apply dict_get_del|]); try (intros ?; discriminate);
        intros _; eexists _, _; rewrite last_snoc; split; reflexivity.
    + left. exists (KeyError uid).
      unfold finish, persist, publish_status, unregister, gets, modify,
        returnValue, publish, bind.
      rewrite Huid, Htruthy.
      destruct disk_ok;
        cbn [upd_world world session app_state upd_app set_saved_json set_bus
             fst snd ret active_sessions saved_json];
        rewrite Hd, Hmem; reflexivity.
Qed.

(** Leaving aside the notices of the stop handler, a sequence of
    [started], progress notices and [completed] is [started], then
    [in_progress] records, and last [completed]; it holds no [error]. *)
Lemma own_publications first mid last :
  pub_status first = Started →
  Forall (λ p, progress_notice (pub_status p)) mid →
  pub_status last = Completed →
  Forall (λ p, pub_status p ≠ Errored) (first :: mid ++ [last])
  ∧ filter (λ p, by_stop_handler p = false) (first :: mid ++ [last])
    = first :: filter (λ p, by_stop_handler p = false) mid ++ [last]
  ∧ Forall (λ p, pub_status p = InProgress)
           (filter (λ p, by_stop_handler p = false) mid).
Proof.
  intros Hfirst Hmid Hlast. split; [|split].
  - constructor; [congruence|]. apply Forall_app. split.
    + eapply Forall_impl; [exact Hmid|].
      intros p [-> | [-> | ->]]; discriminate.
    + constructor; [congruence|constructor].
  - rewrite filter_cons_True by (unfold by_stop_handler; now rewrite Hfirst).
    rewrite filter_app, filter_cons_True, filter_nil
      by (unfold by_stop_handler; now rewrite Hlast).
    reflexivity.
  - clear -Hmid. induction Hmid as [|p mid Hp _ IH]; [constructor|].
    destruct Hp as [Hp | [Hp | Hp]].
    + rewrite filter_cons_True by (unfold by_stop_handler; now rewrite Hp).
      now constructor.
    + rewrite filter_cons_False
        by (unfold by_stop_handler; rewrite Hp; discriminate).
      exact IH.
    + rewrite filter_cons_False
        by (unfold by_stop_handler; rewrite Hp; discriminate).
      exact IH.
Qed.

(** What an answer with the success status means, whatever stop
    requests came in during the run: it is the answer built at the end
    of the handler, with the number of assistant responses and the
    extracted records of the run; the call has published no [error],
    and leaving aside the [stopping] and [stopped] notices of the stop
    handler, wherever they fall, what it has published is [started],
    then [in_progress] records, and last [completed] with the final
    flag on the topic of the task; the user has no entry in the
    registry; and with a working disk the last saved file holds the
    extracted records of the answer. *)
Theorem success_answer_means (fuel : nat) (msg : RpcMsg) (w : World)
    (response : RpcResponse) :
  (run_rpc fuel msg w).1 = Ret response →
  rr_status response = Success →
  let s' := (run_rpc fuel msg w).2 in
  response = success_response msg (session s')
  ∧ (∃ uid, get (user_id msg) = Some uid
            ∧ dict_get uid (active_sessions (app_state (world s'))) = None)
  ∧ (∃ news first mid last,
       bus (world s') = bus w ++ news
       ∧ Forall (λ p, pub_status p ≠ Errored) news
       ∧ filter (λ p, by_stop_handler p = false) news = first :: mid ++ [last]
       ∧ pub_status first = Started
       ∧ Forall (λ p, pub_status p = InProgress) mid
       ∧ pub_status last = Completed
       ∧ pub_is_final last = Some true
       ∧ pub_topic last = task_topic msg)
  ∧ (disk_ok = true →
     ∃ name data, last (saved_json (world s')) = Some (name, data)
                  ∧ sd_messages data = rr_extracted_responses response).
Proof.
  unfold run_rpc.
  set (s0 := {| world := w; session := _; trace := [] |}).
  intros Hret Hsuccess. cbv zeta.
  pose proof (accept_outcome msg s0) as Hacc.
  destruct (accept msg s0) as [[a|[r|ex|]] s1] eqn:Hacc_eq; try done.
  2:{ exfalso. destruct Hacc as (_ & Herr & _).
      unfold handle_rpc_request, try_except, bind in Hret.
      rewrite Hacc_eq in Hret. simpl in Hret. injection Hret as <-.
      rewrite Herr in Hsuccess. discriminate. }
  destruct Hacc as (Ht1 & first & Hb1 & Hfirst).
  destruct (accept_accepted msg s0 s1 a Hacc_eq)
    as (_ & _ & _ & _ & _ & _ & _ & _ & _ & _ & _
        & uid & Huid & Htruthy & _).
  rewrite (handle_rpc_request_accepted fuel msg s0 a s1 Hacc_eq) in *.
  pose proof (run_agent_outcome fuel msg a s1 Ht1) as Hrun.
  pose proof (run_agent_unfold fuel msg a s1) as Hunf.
  destruct (run_agent fuel msg a s1) as [[[]|[r|e|]] s2] eqn:Hrun_eq.
  - destruct (finish_outcome msg s2) as (_ & last & Hb & Hst & Hfin & Htop).
    destruct (finish_cases msg s2 uid Huid Htruthy)
      as [[e He]|(Hr & Hses & Hgone & Hfile)].
    + exfalso. destruct (finish msg s2) as [o s3]. simpl in He. subst o.
      simpl in Hret. injection Hret as <-. discriminate.
    + destruct (finish msg s2) as [o s3]. cbn [fst snd] in *. subst o.
      injection Hret as <-. cbn [fst snd].
      split; [now rewrite Hses|]. split; [eauto|].
      split.
      { destruct Hrun as (mid & Hmid & Hprog).
        destruct (own_publications first mid last Hfirst Hprog Hst)
          as (Hclean & Hown & Hrecords).
        exists (first :: mid ++ [last]), first,
          (filter (λ p, by_stop_handler p = false) mid), last.
        rewrite Hb, Hmid, Hb1, <- !app_assoc. done. }
      intros Hdisk. destruct (Hfile Hdisk) as (i & data & Hlast & Hdata).
      exists (task_key (Some uid) (get_default (prompt_id msg) "0"), i), data.
      done.
  - exfalso. simpl in Hret. injection Hret as ->.
    pose proof (drive_no_return fuel a
                  (await (sampling_loop_sync (request_of msg) (Some a) fuel
                            (model (config (app_state (world s1))))))
                  s1 response
                  (λ s' r', await_no_return _ s' r')) as Hno.
    destruct (drive fuel a _ s1) as [[[]|[r|e|]] sd]; try discriminate.
    + injection Hunf as -> _. now destruct Hno.
    + injection Hunf as -> _. discriminate.
  - exfalso. simpl in Hret. injection Hret as <-. discriminate.
  - discriminate.
Qed.

(** ** The stop API over HTTP, and the stop button of the companion *)

(** The JSON body of an answer of the [/stop] endpoint: the dictionary
    returned by the stop handler, the dictionary
    [{"status": "error", "message": ...}] of the endpoint itself, or a
    JSON array. *)
Inductive HttpBody :=
| BodyStop (result : StopResponse)
| BodyError (text : string)
| BodyArray.

Record HttpResponse := { status_code : nat; body : HttpBody }.

(** For an empty payload the stop handler does not return a dictionary
    but the pair of a Flask response and the number 400, and the
    endpoint hands that pair to [jsonify]. What [jsonify] does with it
    is decided by Flask: it raises, or it returns a response whose body
    is an array. *)
Variable jsonify_pair : Reply unit.

(** [stop_endpoint] of [agentic_rpc.py], on what [request.json] gives. *)
Definition stop_endpoint (request_json : Reply StopMsg) (w : World)
    : World * HttpResponse :=
  match request_json with
  | Raises e => (w, {| status_code := 500; body := BodyError (exn_str e) |})
  | Returns msg =>
      let '(w, result) := handle_stop_request msg w in
      match message result with
      | MissingPayload =>
          match jsonify_pair with
          | Returns _ => (w, {| status_code := 200; body := BodyArray |})
          | Raises e =>
              (w, {| status_code := 500; body := BodyError (exn_str e) |})
          end
      | _ => (w, {| status_code := 200; body := BodyStop result |})
      end
  end.

(** The file [user_data.json] of the companion: missing; unreadable or
    not a dictionary; or a dictionary, of which the keys [user_id] and
    [prompt_id] are read. *)
Inductive UserDataFile :=
| NoFile
| Unreadable
| UserData (user_id prompt_id : field string).

(** [stop_payload] as [call_stop_api] builds it, in [main.py] and in
    [app.py] alike. *)
Definition stop_payload (f : UserDataFile) : StopMsg :=
  let user_id :=
    match f with UserData u _ => get u | _ => None end in
  let prompt_id :=
    match f with UserData _ p => get p | _ => None end in
  {| sm_user_id :=
       match user_id with
       | Some u => if truthy user_id then Given u else Absent
       | None => Absent
       end;
     sm_prompt_id :=
       match prompt_id with
       | Some p => if truthy user_id && truthy prompt_id then Given p
                   else Absent
       | None => Absent
       end;
     sm_stop_all := Absent; sm_force := Absent; sm_other := false |}.

(** [call_stop_api] of [main.py]: the state the worker is left in and
    the result. [network_up] tells whether the request and its answer
    get through. *)
Definition call_stop_api (network_up : bool) (f : UserDataFile) (w : World)
    : World * bool :=
  if network_up then
    let '(w, response) := stop_endpoint (Returns (stop_payload f)) w in
    (w,
     if status_code response =? 200 then
       match body response with
       | BodyStop result =>
           match status result with
           | Success | Warning => true
           | Error => false
           end
       | BodyError _ => false
       | BodyArray => false
       end
     else false)
  else (w, false).

(** [call_stop_api] of [app.py], which only looks at the status code. *)
Definition call_stop_api_app (network_up : bool) (f : UserDataFile)
    (w : World) : World * bool :=
  if network_up then
    let '(w, response) := stop_endpoint (Returns (stop_payload f)) w in
    (w, status_code response =? 200)
  else (w, false).

(** Whether the user data file gives a user. *)
Definition has_user (f : UserDataFile) : bool :=
  match f with
  | UserData u _ => truthy (get u)
  | _ => false
  end.

Lemma stop_payload_target f : names_target (stop_payload f) = has_user f.
Proof.
  destruct f as [| |u p]; try reflexivity.
  unfold names_target, stop_payload, has_user. simpl.
  destruct (get u) as [uid|]; [|reflexivity].
  destruct (truthy (Some uid)) eqn:Hu; simpl; [exact Hu|reflexivity].
Qed.

Lemma stop_payload_empty f :
  has_user f = false → empty_payload (stop_payload f) = true.
Proof.
  destruct f as [| |u p]; try reflexivity.
  unfold stop_payload, has_user, empty_payload. simpl.
  destruct (get u) as [uid|], (get p) as [pid|]; try reflexivity;
    intros ->; reflexivity.
Qed.

Lemma handle_stop_request_message msg w :
  message (handle_stop_request msg w).2 = MissingPayload
  ↔ empty_payload msg = true.
Proof.
  unfold handle_stop_request. destruct (empty_payload msg); [done|].
  destruct (resolve_stop msg w) as [[[w1 tasks] pid]|]; [|done].
  destruct tasks; [done|].
  destruct (notify_stopping _ _ _ _). done.
Qed.

(** The stop button of the companion.
    - [call_stop_api] of [main.py] reports success exactly when the
      worker is reached and the user data file gives a user.
    - Without a user (no file, an unreadable file, no [user_id]) the
      payload is empty: what the log calls a global stop is answered
      with the missing-payload error, and the worker is left as it was,
      running task included.
    - With a user and a worker that is reached, the token object of the
      request in progress is raised, whoever it belongs to, and both
      versions of [call_stop_api] report success. *)
Theorem companion_stop_button (network_up : bool) (f : UserDataFile)
    (w : World) :
  (call_stop_api network_up f w).2 = network_up && has_user f
  ∧ (has_user f = false →
     (call_stop_api network_up f w).1 = w
     ∧ (call_stop_api_app network_up f w).1 = w)
  ∧ (has_user f = true →
     (call_stop_api_app network_up f w).2 = network_up
     ∧ (call_stop_api_app network_up f w).1 = (call_stop_api network_up f w).1
     ∧ (network_up = true →
        ∀ a t, cancellation_token (app_state w) = Some a →
               heap w !! a = Some t →
               heap (call_stop_api network_up f w).1 !! a
               = Some (raise_flag t))).
Proof.
  unfold call_stop_api, call_stop_api_app, stop_endpoint.
  destruct network_up; [|repeat split; auto; discriminate].
  pose proof (handle_stop_request_message (stop_payload f) w) as Hmsg.
  pose proof (stop_payload_target f) as Htarget.
  destruct (has_user f) eqn:Huser.
  - pose proof (targeted_token_raised (stop_payload f) w Htarget) as Hraise.
    assert (Hne : empty_payload (stop_payload f) = false)
      by now apply names_target_not_empty.
    destruct (names_target_resolves (stop_payload f) w Htarget)
      as [[[w1 tasks] pid] Hres].
    assert (Hst : status (handle_stop_request (stop_payload f) w).2 ≠ Error).
    { destruct tasks as [|t tasks].
      - now rewrite (handle_stop_request_unmatched _ _ _ _ Hres).
      - now rewrite (handle_stop_request_resolved _ _ _ _ _ Hres). }
    destruct (handle_stop_request (stop_payload f) w) as [w' result].
    cbn [fst snd] in *.
    destruct (message result) eqn:Hm;
      try (destruct Hmsg as [Hmsg _]; specialize (Hmsg eq_refl); congruence);
      cbn [fst snd status_code body Nat.eqb];
      (destruct (status result); [| |done]);
      repeat split; auto; discriminate.
  - apply stop_payload_empty in Huser.
    unfold handle_stop_request in *. rewrite Huser in *.
    cbn [message]. destruct jsonify_pair; repeat split; auto; discriminate.
Qed.

(** ** The configuration at startup *)

(** The keys of the configuration file that [main] reads into
    [app_state]; a key may be missing, and the values are texts. *)
Record ConfigFile := {
  cf_model : option string;
  cf_provider : option string;
  cf_api_key : option string;
  cf_azure_resource_name : option string;
  cf_omniparser_server_url : option string
}.

(** The dictionary of [create_default_config]. *)
Definition default_config : ConfigFile :=
  {| cf_model := Some "omniparser + gpt-4o";
     cf_provider := Some "azure";
     cf_api_key := Some "";
     cf_azure_resource_name := Some "";
     cf_omniparser_server_url := Some "localhost:8080" |}.

(** The file [config/config.json]: missing, or what reading and parsing
    it gives. *)
Definition ConfigDisk : Type := option (Reply ConfigFile).

(** [create_default_config]: the default dictionary, written to the
    file when the disk allows; a failure to write is only logged, and is
    taken to leave the file as it was. *)
Definition create_default_config (writable : bool) (disk : ConfigDisk)
    : ConfigFile * ConfigDisk :=
  (default_config, if writable then Some (Returns default_config) else disk).

(** [load_config] *)
Definition load_config (writable : bool) (disk : ConfigDisk)
    : ConfigFile * ConfigDisk :=
  match disk with
  | Some (Returns config) => (config, disk)
  | Some (Raises _) => create_default_config writable disk
  | None => create_default_config writable disk
  end.

(** The part of [app_state] that [main] takes from the configuration,
    the command line ([--omniparser_server_url]) and the environment
    ([OPENAI_API_KEY], [ANTHROPIC_API_KEY]). *)
Definition initial_config (config : ConfigFile)
    (omniparser_arg openai_key anthropic_key : option string) : Config :=
  let url :=
    if truthy omniparser_arg then omniparser_arg
    else cf_omniparser_server_url config in
  let provider := default "openai" (cf_provider config) in
  let api_key := default (default "" openai_key) (cf_api_key config) in
  {| model := default "omniparser + gpt-4o" (cf_model config);
     provider := provider;
     api_key :=
       if bool_decide (provider = "openai") && truthy openai_key
       then fmt openai_key
       else if bool_decide (provider = "anthropic") && truthy anthropic_key
            then fmt anthropic_key
            else api_key;
     azure_resource_name := default "" (cf_azure_resource_name config);
     omniparser_server_url := default "localhost:8000" url |}.

(** [load_config] never fails. A file that parses is returned as it is
    and left alone. A file that is missing, or that cannot be read or
    parsed, gives the default configuration, and with a writable disk
    the file is written, or overwritten, with it. Loading a second time
    gives the same configuration and, with a writable disk, changes
    nothing more. *)
Theorem load_config_defaults_and_settles (writable : bool)
    (disk : ConfigDisk) :
  let r := load_config writable disk in
  match disk with
  | Some (Returns config) => r = (config, disk)
  | _ => r.1 = default_config
         ∧ r.2 = if writable then Some (Returns default_config) else disk
  end
  ∧ (load_config writable r.2).1 = r.1
  ∧ (writable = true → load_config writable r.2 = r).
Proof.
  destruct disk as [[config|e]|], writable; simpl; repeat split; auto.
Qed.

(** A request that the validation cannot pass is never accepted: the
    handler answers with an error and publishes nothing. *)
Lemma invalid_configuration_rejects fuel msg s :
  (∀ input, valid_params input (config (app_state (world s))) ≠ []) →
  ∃ r, (handle_rpc_request fuel msg s).1 = Ret r
       ∧ rr_status r = Error
       ∧ bus (world (handle_rpc_request fuel msg s).2) = bus (world s).
Proof.
  intros Hbad.
  pose proof (accept_outcome msg s) as Hacc.
  destruct (accept msg s) as [[a|[r|e|]] s1] eqn:Hacc_eq; try done.
  - destruct (accept_accepted msg s s1 a Hacc_eq)
      as (_ & _ & _ & _ & _ & _ & _ & _ & _ & _ & _
          & uid & _ & _ & _ & Hvalid & _).
    now destruct (Hbad (instruction_of msg)).
  - destruct Hacc as (_ & Herr & Hbus).
    unfold handle_rpc_request, try_except, bind. rewrite Hacc_eq.
    exists r. auto.
Qed.

(** A worker started without [--config] and without a configuration
    file (or with one that cannot be read or parsed) cannot serve any
    request: the default configuration names Azure as the provider with
    an empty API key and an empty resource name, the keys of the
    environment are only used for the providers [openai] and
    [anthropic], and so the validation fails with both messages,
    whatever [--omniparser_server_url] and the environment give. Every
    request is answered with an error and nothing is published. *)
Theorem default_configuration_serves_no_request (writable : bool)
    (disk : ConfigDisk)
    (omniparser_arg openai_key anthropic_key : option string)
    (fuel : nat) (msg : RpcMsg) (s : LState) :
  (∀ config, disk ≠ Some (Returns config)) →
  config (app_state (world s))
  = initial_config (load_config writable disk).1
                   omniparser_arg openai_key anthropic_key →
  (∀ input,
     ∃ before after,
       valid_params input (config (app_state (world s)))
       = before ++ ["LLM API Key is not set";
                    "Azure Resource Name is required when using Azure OpenAI"]
                ++ after)
  ∧ ∃ r, (handle_rpc_request fuel msg s).1 = Ret r
         ∧ rr_status r = Error
         ∧ bus (world (handle_rpc_request fuel msg s).2) = bus (world s).
Proof.
  intros Hdisk Hcfg.
  assert (Hload : (load_config writable disk).1 = default_config).
  { destruct disk as [[config|e]|]; [now destruct (Hdisk config)|done|done]. }
  rewrite Hload in Hcfg.
  assert (Hvalid : ∀ input,
    ∃ before after,
      valid_params input (config (app_state (world s)))
      = before ++ ["LLM API Key is not set";
                   "Azure Resource Name is required when using Azure OpenAI"]
               ++ after).
  { intros input. rewrite Hcfg. unfold valid_params, initial_config. simpl.
    eexists _, _. reflexivity. }
  split; [exact Hvalid|].
  apply invalid_configuration_rejects. intros input.
  destruct (Hvalid input) as (before & after & ->).
  now destruct before.
Qed.

End Agent.

(** * Scenarios

    Concrete collaborators, requests and process states, on which the
    handlers and the loop are run. *)

(** The characters outside ASCII that the examples use, in UTF-8: the
    no-break space U+00A0, the letters U+00E9 and U+00C9 (e with acute
    accent, small and capital) and the letter U+0131 (dotless i). *)
Definition no_break_space : string :=
  String (ascii_of_nat 194) (String (ascii_of_nat 160) "").

Definition e_acute : string :=
  String (ascii_of_nat 195) (String (ascii_of_nat 169) "").

Definition capital_e_acute : string :=
  String (ascii_of_nat 195) (String (ascii_of_nat 137) "").

Definition dotless_i : string :=
  String (ascii_of_nat 196) (String (ascii_of_nat 177) "").

(** What the Unicode database says of these characters: the no-break
    space is white space; the three letters are alphanumeric, the
    capital letter is the upper case of the small one, and the ASCII
    letter I is the upper case of the dotless i. The other characters
    outside ASCII are not used, and are entered as symbols. *)
Definition unicode_sample : Unicode :=
  {| isspace ch := bool_decide (ch = no_break_space);
     isalnum ch := bool_decide (ch ∈ [e_acute; capital_e_acute; dotless_i]);
     to_upper ch :=
       if bool_decide (ch = e_acute) then capital_e_acute
       else if bool_decide (ch = dotless_i) then "I"
       else ch |}.

Definition bus_always_up (n : nat) : bool := true.

Definition json_rejects (text : string) : bool := false.

Definition test_config : Config :=
  {| model := "omniparser + gpt-4o"; provider := "openai";
     api_key := "sk-test"; azure_resource_name := "";
     omniparser_server_url := "localhost:8000" |}.

(** A process that runs no task, with a given registry. *)
Definition idle_world (sessions : list (string * option string)) : World :=
  {| app_state :=
       {| config := test_config; stop := false; cancellation_token := None;
          task_tokens := None; active_sessions := sessions; messages := [] |};
     heap := []; bus := []; saved_json := [] |}.

Definition fresh_state (w : World) : LState :=
  {| world := w;
     session := {| assistant_responses := []; extracted_responses := [] |};
     trace := [] |}.

Definition desktop_screen (time : nat) : Reply Screen :=
  Returns {| screen_info := "desktop" |}.

Definition idle_actor (time : nat) (ms : list ChatMsg)
    : Reply (list ChatMsg * unit) :=
  Returns (ms, tt).

(** A decision function that asks for a click until a given time and then
    reports that nothing is left to do. *)
Definition clicking_agent (until : nat) (time : nat) (ms : list ChatMsg)
    (screen : Screen)
    : list Message * Reply (list ChatMsg * (unit * VlmResponse)) :=
  if decide (time < until) then
    ([MTextBlock "Status: SUCCESS clicked"; MToolUse "{'action': 'click'}"],
     Returns (ms ++ [Appended "click"],
              (tt, VDict {[ "Next Action" := Some "click" ]})))
  else
    ([MTextBlock "Status: FAILED nothing to click"],
     Returns (ms, (tt, VDict {[ "Next Action" := Some "None" ]}))).

(** A decision function that answers with the empty dictionary. *)
Definition silent_agent (time : nat) (ms : list ChatMsg) (screen : Screen)
    : list Message * Reply (list ChatMsg * (unit * VlmResponse)) :=
  ([], Returns (ms, (tt, VDict ∅))).

(** An executor that yields one result. *)
Definition one_step_executor (time : nat) (tools : unit) (ms : list ChatMsg)
    : Reply (list ExecStep) :=
  Returns [ {| step_emitted := [MToolResult (Some "done") None None];
               step_messages := ms ++ [Appended "tool result"];
               step_result := Yields (ItemPair (Some ["ok"])) |} ].

Definition no_arrivals (time : nat) : list StopMsg := [].

Definition arrives_at (k : nat) (msg : StopMsg) (time : nat) : list StopMsg :=
  if decide (time = k) then [msg] else [].

Definition twisted_refire (r : LoopResult) : LoopResult := None.

(** The stop requests [{"user_id": "42"}],
    [{"user_id": "42", "prompt_id": "7"}], [{"stop_all": true}] and
    [{"force": true}]. *)
Definition stop_user_42 : StopMsg :=
  {| sm_user_id := Given "42"; sm_prompt_id := Absent; sm_stop_all := Absent;
     sm_force := Absent; sm_other := false |}.

Definition stop_task_42_7 : StopMsg :=
  {| sm_user_id := Given "42"; sm_prompt_id := Given "7";
     sm_stop_all := Absent; sm_force := Absent; sm_other := false |}.

Definition stop_everything : StopMsg :=
  {| sm_user_id := Absent; sm_prompt_id := Absent; sm_stop_all := Given true;
     sm_force := Absent; sm_other := false |}.

Definition stop_nobody : StopMsg :=
  {| sm_user_id := Absent; sm_prompt_id := Absent; sm_stop_all := Absent;
     sm_force := Given true; sm_other := false |}.

(** The instruction messages
    [{"user_id": "42", "prompt_id": "7", "instruction_to_vlm_agent": "open edge"}],
    [{"user_id": "42"}] and
    [{"user_id": "42", "enhanced_instruction": "click ok"}]. *)
Definition open_edge : RpcMsg :=
  {| user_id := Given "42"; prompt_id := Given "7";
     instruction_to_vlm_agent := Given "open edge";
     enhanced_instruction := Absent |}.

Definition no_instruction : RpcMsg :=
  {| user_id := Given "42"; prompt_id := Absent;
     instruction_to_vlm_agent := Absent; enhanced_instruction := Absent |}.

Definition enhanced_only : RpcMsg :=
  {| user_id := Given "42"; prompt_id := Absent;
     instruction_to_vlm_agent := Absent;
     enhanced_instruction := Given "click ok" |}.

(** A call of the RPC handler with a reachable parser, a working disk and
    the given decision function and stop requests. *)
Definition rpc_scenario agent (arrivals : nat → list StopMsg) (fuel : nat)
    (msg : RpcMsg) (w : World) : Outcome RpcResponse Empty_set * LState :=
  run_rpc unicode_sample bus_always_up json_rejects unit desktop_screen idle_actor agent
          one_step_executor arrivals (Returns 200) true twisted_refire
          fuel msg w.

(** An executor that has nothing to yield. *)
Definition idle_executor (time : nat) (tools : unit) (ms : list ChatMsg)
    : Reply (list ExecStep) :=
  Returns [].

(** A task in flight: user 42 runs prompt 7, with its token at address 0
    and, when [others] is not empty, other users in the registry. *)
Definition running_world (others : list (string * option string)) : World :=
  {| app_state :=
       {| config := test_config; stop := false; cancellation_token := Some 0;
          task_tokens := None;
          active_sessions := ("42", Some "7") :: others;
          messages := [UserText "open edge"] |};
     heap := [ {| tok_stop := false; tok_task_tokens := None |} ];
     bus := []; saved_json := [] |}.

Definition task_42_7 : Request :=
  {| rq_user_id := Some "42"; rq_prompt_id := Some "7";
     rq_instruction := Some "open edge" |}.

(** ** The text functions on concrete texts *)

Example strip_analysis :
  strip unicode_sample
    (default "" (after_colon "Analysis: Status: FAILED - no window "))
  = "Status: FAILED - no window".
Proof. reflexivity. Qed.

Example status_match_failed :
  status_match unicode_sample "Status:  failed - no window"
  = Some ("failed", " - no window")
  ∧ upper unicode_sample "failed" = "FAILED".
Proof. split; reflexivity. Qed.

Example status_match_needs_a_word :
  status_match unicode_sample "Status: - no window" = None
  ∧ status_match unicode_sample "Statuses: FAILED" = None.
Proof. split; reflexivity. Qed.

Example endswith_brace :
  endswith "{'action': 'click'}" "}" = true ∧ endswith "{" "}" = false.
Proof. split; reflexivity. Qed.

(** ** The stop handler on concrete requests *)

(** C5, on two requests: [{"force": true}] names no target, gets an error
    and changes nothing; [{"user_id": "42"}] on an empty registry resolves
    to no task and gets a warning. *)
Lemma stop_without_target_witness :
  ((handle_stop_request bus_always_up stop_nobody (running_world [])).1
   = running_world []
   ∧ status (handle_stop_request bus_always_up stop_nobody
               (running_world [])).2 = Error)
  ∧ status (handle_stop_request bus_always_up stop_user_42 (idle_world [])).2
    = Warning.
Proof.
  split.
  - exact (proj1 (stop_request_without_target_or_match bus_always_up
                    stop_nobody (running_world []))
                 eq_refl eq_refl).
  - eapply (proj2 (stop_request_without_target_or_match bus_always_up
                     stop_user_42 (idle_world []))).
    reflexivity.
Defined.

(** C4, on an empty registry: the request that names the user alone gets
    a warning, the request that names user and prompt gets success. *)
Lemma repeated_stop_witness :
  status (handle_stop_request bus_always_up stop_user_42 (idle_world [])).2
  = Warning
  ∧ status (handle_stop_request bus_always_up stop_task_42_7 (idle_world [])).2
    = Success.
Proof.
  split.
  - exact (repeated_stop_of_stopped_task bus_always_up stop_user_42
             (idle_world []) "42" eq_refl eq_refl eq_refl eq_refl).
  - exact (repeated_stop_of_stopped_task bus_always_up stop_task_42_7
             (idle_world []) "42" eq_refl eq_refl eq_refl eq_refl).
Defined.

(** C4 fails as stated: task (42, 7) is registered; a first stop request
    with user and prompt succeeds and removes it from the registry; the
    same request again gets success, not a warning. *)
Lemma second_explicit_stop_succeeds :
  let first :=
    handle_stop_request bus_always_up stop_task_42_7 (running_world []) in
  let second := handle_stop_request bus_always_up stop_task_42_7 first.1 in
  status first.2 = Success
  ∧ stopped_tasks first.2 = [("42", Some "7")]
  ∧ active_sessions (app_state first.1) = []
  ∧ status second.2 = Success
  ∧ stopped_tasks second.2 = [("42", Some "7")].
Proof. vm_compute. repeat split. Qed.

(** C6 fails for [stop_all]: with task (42, 7) registered, the request
    [{"stop_all": true}] stops it, raises the process-wide flag and the
    flag of the current token object, and leaves [task_tokens] without
    any entry: no per-task token is set for the key ["42_7"]. *)
Lemma stop_all_sets_no_task_token :
  let r := handle_stop_request bus_always_up stop_everything (running_world []) in
  status r.2 = Success
  ∧ stopped_tasks r.2 = [("42", Some "7")]
  ∧ stop (app_state r.1) = true
  ∧ heap r.1 = [ {| tok_stop := true; tok_task_tokens := None |} ]
  ∧ task_tokens (app_state r.1) = None.
Proof. vm_compute. repeat split. Qed.

(** The same task stopped through its user: the per-task token is set. *)
Lemma stop_by_user_sets_task_token :
  let r := handle_stop_request bus_always_up stop_user_42 (running_world []) in
  status r.2 = Success
  ∧ stopped_tasks r.2 = [("42", Some "7")]
  ∧ (task_tokens (app_state r.1) ≫= (λ m, m !! "42_7")) = Some true.
Proof. vm_compute. repeat split. Qed.

(** ** The RPC handler on concrete requests *)

Definition status_of (r : Outcome RpcResponse Empty_set * LState)
    : option RespStatus :=
  match r.1 with
  | Ret response => Some (rr_status response)
  | _ => None
  end.

Definition message_of (r : Outcome RpcResponse Empty_set * LState)
    : option string :=
  match r.1 with
  | Ret response => rr_message response
  | _ => None
  end.

(** A task that is stopped while its first decision is under way: the
    stop request [{"user_id": "42"}] reaches the stop handler before the
    check that follows the decision call. *)
Definition stopped_run (others : list (string * option string))
    : Outcome RpcResponse Empty_set * LState :=
  rpc_scenario (clicking_agent 10) (arrives_at 7 stop_user_42) 5 open_edge
               (idle_world others).

(** C2 fails as stated: the loop of the stopped task ends at the check
    that sees the flag, the stop handler has published [stopping] and
    [stopped], and the handler of the task then publishes [completed] on
    the same topic. *)
Lemma stopped_task_publishes_completed :
  reverse (trace (stopped_run []).2)
  = [EvDriverCheck false; EvCheck false; EvCheck false; EvCheck false;
     EvObserve; EvCheck false; EvDecide; EvCheck true]
  ∧ pub_status <$> bus (world (stopped_run []).2)
    = [Started; InProgress; InProgress; Stopping; Stopped; Completed]
  ∧ pub_topic <$> bus (world (stopped_run []).2)
    = replicate 6 "com.hertzai.hevolve.action.7.42"
  ∧ status_of (stopped_run []) = Some Success.
Proof. vm_compute. repeat split. Qed.

(** C2 as amended, on the stopped task. *)
Lemma stopped_task_witness :
  ∃ news first mid last,
    bus (world (stopped_run []).2) = bus (idle_world []) ++ news
    ∧ Forall (λ p, pub_status p ≠ Errored) news
    ∧ filter (λ p, by_stop_handler p = false) news = first :: mid ++ [last]
    ∧ pub_status first = Started
    ∧ Forall (λ p, pub_status p = InProgress) mid
    ∧ pub_status last = Completed
    ∧ pub_is_final last = Some true
    ∧ pub_topic last = task_topic open_edge.
Proof.
  apply (stopped_task_is_reported_completed unicode_sample bus_always_up json_rejects unit
           desktop_screen idle_actor (clicking_agent 10) one_step_executor
           (arrives_at 7 stop_user_42) (Returns 200) true twisted_refire
           5 open_edge (idle_world [])).
  exists (EvCheck true). split; [|reflexivity].
  vm_compute. apply list_elem_of_here.
Defined.

(** C7 fails: the same stopped task while user 9 also has an entry in the
    registry. The stop handler has removed the entry of user 42; the
    registry is not empty, so the handler of the task deletes a key that
    is not there: [KeyError], and the call that has just published
    [completed] returns an error status with the text of the exception. *)
Lemma unregister_raises_after_stop :
  pub_status <$> bus (world (stopped_run [("9", Some "1")]).2)
  = [Started; InProgress; InProgress; Stopping; Stopped; Completed]
  ∧ active_sessions (app_state (world (stopped_run [("9", Some "1")]).2))
    = [("9", Some "1")]
  ∧ status_of (stopped_run [("9", Some "1")]) = Some Error
  ∧ message_of (stopped_run [("9", Some "1")]) = Some "'42'".
Proof. vm_compute. repeat split. Qed.

(** The removal step alone, in a state where only user 9 is registered. *)
Lemma unregister_absent_user_raises :
  unregister open_edge (fresh_state (idle_world [("9", Some "1")]))
  = (Exc (KeyError "42"), fresh_state (idle_world [("9", Some "1")])).
Proof. reflexivity. Qed.

(** C3 fails as stated: a message with a user and an enhanced instruction
    but no [instruction_to_vlm_agent] is accepted, publishes [started] and
    [completed] and returns success. *)
Lemma enhanced_instruction_is_accepted :
  let r := rpc_scenario (clicking_agent 0) no_arrivals 5 enhanced_only
                        (idle_world []) in
  get (instruction_to_vlm_agent enhanced_only) = None
  ∧ status_of r = Some Success
  ∧ pub_status <$> bus (world r.2) = [Started; Completed].
Proof. vm_compute. repeat split. Qed.

(** C3 as amended, on the message [{"user_id": "42"}]. *)
Lemma missing_instruction_witness :
  ∃ r,
    (handle_rpc_request unicode_sample bus_always_up json_rejects unit desktop_screen
       idle_actor (clicking_agent 0) one_step_executor no_arrivals
       (Returns 200) true twisted_refire 5 no_instruction
       (fresh_state (idle_world []))).1 = Ret r
    ∧ rr_status r = Error
    ∧ bus (world
        (handle_rpc_request unicode_sample bus_always_up json_rejects unit desktop_screen
           idle_actor (clicking_agent 0) one_step_executor no_arrivals
           (Returns 200) true twisted_refire 5 no_instruction
           (fresh_state (idle_world []))).2) = bus (idle_world [])
    ∧ trace
        (handle_rpc_request unicode_sample bus_always_up json_rejects unit desktop_screen
           idle_actor (clicking_agent 0) one_step_executor no_arrivals
           (Returns 200) true twisted_refire 5 no_instruction
           (fresh_state (idle_world []))).2 = [].
Proof.
  exact (missing_instruction_is_an_error unicode_sample bus_always_up json_rejects unit
           desktop_screen idle_actor (clicking_agent 0) one_step_executor
           no_arrivals (Returns 200) true twisted_refire 5 no_instruction
           (fresh_state (idle_world [])) "42" eq_refl eq_refl eq_refl eq_refl).
Defined.

(** The entry that the rejected message leaves in the registry. *)
Lemma rejected_message_is_registered :
  let r := rpc_scenario (clicking_agent 0) no_arrivals 5 no_instruction
                        (idle_world []) in
  status_of r = Some Error
  ∧ message_of r = Some "No instruction provided"
  ∧ bus (world r.2) = []
  ∧ active_sessions (app_state (world r.2)) = [("42", Some "0")].
Proof. vm_compute. repeat split. Qed.

(** ** The agent loop on concrete collaborators *)

(** The state in which the loop of task (42, 7) starts. *)
Definition ready : LState := fresh_state (running_world []).

Definition omniparser_loop agent executor (fuel : nat)
    : Outcome LoopResult Empty_set * LState :=
  vlm_loop unicode_sample bus_always_up json_rejects unit desktop_screen agent executor
           no_arrivals task_42_7 (Some 0) fuel None ready.

(** C8 fails as stated: the decision function answers with the empty
    dictionary, in which ["Next Action"] is absent; the completion test is
    skipped and the executor is invoked (the loop ends afterwards, on the
    empty tool-result content). *)
Lemma empty_response_reaches_executor :
  (silent_agent 3 [UserText "open edge"] {| screen_info := "desktop" |}).2
  = Returns ([UserText "open edge"], (tt, VDict ∅))
  ∧ reverse (trace (omniparser_loop silent_agent idle_executor 1).2)
    = [EvCheck false; EvObserve; EvCheck false; EvDecide; EvCheck false;
       EvExecutor; EvCheck false; EvNext]
  ∧ (omniparser_loop silent_agent idle_executor 1).1
    = Ret (Some [UserText "open edge"]).
Proof. vm_compute. repeat split. Qed.

(** One iteration of the omniparser loop of task (42, 7). *)
Definition omniparser_iteration agent executor
    : Outcome LoopResult (option (list string)) * LState :=
  vlm_iteration unicode_sample bus_always_up json_rejects unit desktop_screen agent executor
                no_arrivals task_42_7 (Some 0) None ready.

(** C8 as amended, on three runs: the decision function answers with
    ["Next Action"] set to the text None, and the loop returns without
    the executor; the decision function asks for a click, the executor
    yields nothing, and the loop returns at the end of the iteration;
    the decision function answers with the empty dictionary, and the
    iteration goes on to the executor. *)
Lemma completion_witness :
  ((omniparser_loop (clicking_agent 0) idle_executor 1).1
   = Ret (Some [UserText "open edge"])
   ∧ reverse (trace (omniparser_loop (clicking_agent 0) idle_executor 1).2)
     = [EvCheck false; EvObserve; EvCheck false; EvDecide; EvCheck false])
  ∧ (omniparser_loop (clicking_agent 10) idle_executor 1).1
    = Ret (Some [UserText "open edge"; Appended "click"])
  ∧ reverse (trace (omniparser_iteration silent_agent idle_executor).2)
    = [EvCheck false; EvObserve; EvCheck false; EvDecide; EvCheck false;
       EvExecutor; EvCheck false; EvNext].
Proof.
  split; [|split].
  - destruct (proj1 (completion_ends_the_loop unicode_sample bus_always_up json_rejects unit
                       desktop_screen (clicking_agent 0) idle_executor
                       no_arrivals task_42_7 (Some 0) 0 None ready)
                    _ _ _ _ _ _ _ _
                    eq_refl eq_refl eq_refl eq_refl eq_refl
                    (map_non_empty_singleton "Next Action" (Some "None"))
                    (or_introl eq_refl)) as [Hrun Htrace].
    unfold omniparser_loop. rewrite Hrun. split; reflexivity.
  - unfold omniparser_loop.
    rewrite (proj1 (proj2 (completion_ends_the_loop unicode_sample bus_always_up
                             json_rejects unit desktop_screen
                             (clicking_agent 10) idle_executor no_arrivals
                             task_42_7 (Some 0) 0 None ready))
                   _ _ eq_refl eq_refl).
    reflexivity.
  - unfold omniparser_iteration.
    rewrite (proj1 (proj2 (proj2 (completion_ends_the_loop unicode_sample bus_always_up
                                    json_rejects unit desktop_screen
                                    silent_agent idle_executor no_arrivals
                                    task_42_7 (Some 0) 0 None ready))
                          _ _ _ _ _ _ _ _
                          eq_refl eq_refl eq_refl eq_refl eq_refl
                          (or_intror (or_introl eq_refl)))).
    vm_compute. reflexivity.
Defined.

(** The empty lists of the callback. *)
Definition no_responses : Session :=
  {| assistant_responses := []; extracted_responses := [] |}.

(** C10, on messages of task (42, 7): an analysis with status FAILED is
    kept out of the extracted records and of the bus; an analysis with
    status SUCCESS, an analysis without status and a next action are
    extracted and published once each. With letters outside ASCII: the
    status word of the lower-case text failed, written with a dotless
    i, has FAILED as its upper case, and the analysis is not extracted;
    the status word FAILED followed at once by an accented letter is
    another word, and the analysis is extracted. *)
Lemma failed_analysis_witness :
  let callback m :=
    output_callback unicode_sample bus_always_up json_rejects task_42_7 false
      m (no_responses, running_world []) in
  let extracted rendered record :=
    extracted_with bus_always_up rendered record task_42_7
      (no_responses, running_world []) in
  callback (MTextBlock "Status: FAILED nothing to click")
  = ({| assistant_responses := ["Analysis: Status: FAILED nothing to click"];
        extracted_responses := [] |}, running_world [])
  ∧ callback (MTextBlock "Status: SUCCESS clicked")
    = extracted "Analysis: Status: SUCCESS clicked"
        {| ex_type := analysis; ex_content := CStr "clicked" |}
  ∧ callback (MTextBlock "The window is open")
    = extracted "Analysis: The window is open"
        {| ex_type := analysis; ex_content := CStr "The window is open" |}
  ∧ callback (MToolUse "{'action': 'click'}")
    = extracted "Next action: {'action': 'click'}"
        {| ex_type := next_action;
           ex_content := CStr "{'action': 'click'}" |}
  ∧ callback (MTextBlock ("Status: fa" +:+ dotless_i +:+ "led no window"))
    = ({| assistant_responses :=
            ["Analysis: Status: fa" +:+ dotless_i +:+ "led no window"];
          extracted_responses := [] |}, running_world [])
  ∧ callback (MTextBlock ("Status: FAILED" +:+ e_acute +:+ " no window"))
    = extracted ("Analysis: Status: FAILED" +:+ e_acute +:+ " no window")
        {| ex_type := analysis; ex_content := CStr "no window" |}.
Proof.
  cbv zeta.
  pose proof (λ m rendered,
    failed_analysis_not_extracted unicode_sample bus_always_up json_rejects
      task_42_7 false m no_responses (running_world []) rendered) as C10.
  cbv zeta in C10.
  split; [|split; [|split; [|split; [|split]]]].
  - apply (proj1 (C10 (MTextBlock "Status: FAILED nothing to click")
                      "Analysis: Status: FAILED nothing to click"
                      eq_refl ltac:(discriminate))
                 "FAILED" " nothing to click"); reflexivity.
  - apply (proj1 (proj2 (C10 (MTextBlock "Status: SUCCESS clicked")
                             "Analysis: Status: SUCCESS clicked"
                             eq_refl ltac:(discriminate)))
                 "SUCCESS" " clicked"); [reflexivity|reflexivity|discriminate].
  - apply (proj1 (proj2 (proj2 (C10 (MTextBlock "The window is open")
                                    "Analysis: The window is open"
                                    eq_refl ltac:(discriminate)))));
      reflexivity.
  - apply (proj2 (proj2 (proj2 (C10 (MToolUse "{'action': 'click'}")
                                    "Next action: {'action': 'click'}"
                                    eq_refl ltac:(discriminate))))).
    reflexivity.
  - apply (proj1 (C10 (MTextBlock ("Status: fa" +:+ dotless_i
                                   +:+ "led no window"))
                      ("Analysis: Status: fa" +:+ dotless_i
                       +:+ "led no window")
                      eq_refl ltac:(discriminate))
                 ("fa" +:+ dotless_i +:+ "led") " no window"); reflexivity.
  - apply (proj1 (proj2 (C10 (MTextBlock ("Status: FAILED" +:+ e_acute
                                          +:+ " no window"))
                             ("Analysis: Status: FAILED" +:+ e_acute
                              +:+ " no window")
                             eq_refl ltac:(discriminate)))
                 ("FAILED" +:+ e_acute) " no window");
      [reflexivity|reflexivity|discriminate].
Defined.

(** ** More stop requests, on a task in flight *)

(** The stop requests [{"user_id": "99"}] and
    [{"user_id": "42", "prompt_id": "8"}]. *)
Definition stop_user_99 : StopMsg :=
  {| sm_user_id := Given "99"; sm_prompt_id := Absent; sm_stop_all := Absent;
     sm_force := Absent; sm_other := false |}.

Definition stop_task_42_8 : StopMsg :=
  {| sm_user_id := Given "42"; sm_prompt_id := Given "8";
     sm_stop_all := Absent; sm_force := Absent; sm_other := false |}.

(** The notices and the report of the stop handler for
    [{"user_id": "42"}] while user 42 runs prompt 7 and user 9 is
    registered. *)
Lemma stop_notices_witness :
  let r := handle_stop_request bus_always_up stop_user_42
             (running_world [("9", Some "1")]) in
  status r.2 = Success
  ∧ message r.2 = StoppedFor (length (stopped_tasks r.2)).
Proof.
  destruct (stop_notices_and_report bus_always_up stop_user_42
              (running_world [("9", Some "1")]) _ _ _ eq_refl)
    as (Hstatus & Hmessage & _); [discriminate|].
  split; [exact Hstatus|exact Hmessage].
Defined.

Example stop_notices_on_the_bus :
  let r := handle_stop_request bus_always_up stop_user_42
             (running_world [("9", Some "1")]) in
  stopped_tasks r.2 = [("42", Some "7")]
  ∧ pub_status <$> bus r.1 = [Stopping; Stopped]
  ∧ pub_topic <$> bus r.1 = replicate 2 "com.hertzai.hevolve.action.7.42".
Proof. vm_compute. repeat split. Qed.

(** A stop request for user 99, who runs nothing, is answered with the
    warning, and raises the token of the task of user 42 all the same. *)
Lemma stop_of_a_stranger_witness :
  heap (handle_stop_request bus_always_up stop_user_99 (running_world [])).1
    !! 0
  = Some {| tok_stop := true; tok_task_tokens := None |}
  ∧ status (handle_stop_request bus_always_up stop_user_99
              (running_world [])).2 = Warning.
Proof.
  split; [|reflexivity].
  exact (proj1 (targeted_stop_cancels_the_running_task bus_always_up
                  no_arrivals stop_user_99 (running_world []) 0
                  {| tok_stop := false; tok_task_tokens := None |}
                  eq_refl eq_refl eq_refl)).
Defined.

(** [{"user_id": "42"}] takes user 42 out of the registry and leaves
    user 9 in. *)
Lemma stop_by_user_witness :
  let w' := (handle_stop_request bus_always_up stop_user_42
               (running_world [("9", Some "1")])).1 in
  dict_get "42" (active_sessions (app_state w')) = None
  ∧ dict_get "9" (active_sessions (app_state w')) = Some (Some "1").
Proof.
  destruct (stop_by_user_unregisters_the_user bus_always_up stop_user_42
              (running_world [("9", Some "1")]) "42"
              (λ _, eq_refl) eq_refl eq_refl eq_refl eq_refl)
    as [Hgone Hothers].
  split; [exact Hgone|]. rewrite Hothers by discriminate. reflexivity.
Defined.

(** [{"user_id": "42", "prompt_id": "8"}] while user 42 runs prompt 7:
    success, and the registry still holds 42 with prompt 7. *)
Lemma stop_of_another_prompt_witness :
  let r := handle_stop_request bus_always_up stop_task_42_8
             (running_world []) in
  status r.2 = Success
  ∧ stopped_tasks r.2 = [("42", Some "8")]
  ∧ active_sessions (app_state r.1) = [("42", Some "7")].
Proof.
  destruct (stop_of_another_prompt_keeps_the_entry bus_always_up
              stop_task_42_8 (running_world []) "42" "8" (Some "7")
              eq_refl eq_refl eq_refl eq_refl eq_refl eq_refl)
    as (Hstatus & Hstopped & Hregistry); [discriminate|].
  split; [exact Hstatus|]. split; [exact Hstopped|exact Hregistry].
Defined.

(** [{"stop_all": true}] with two users in the registry. *)
Lemma stop_all_witness :
  let r := handle_stop_request bus_always_up stop_everything
             (running_world [("9", Some "1")]) in
  active_sessions (app_state r.1) = []
  ∧ stopped_tasks r.2 = [("42", Some "7"); ("9", Some "1")]
  ∧ status r.2 = Success.
Proof.
  exact (stop_all_empties_the_registry bus_always_up stop_everything
           (running_world [("9", Some "1")]) (λ _, eq_refl) eq_refl eq_refl).
Defined.

(** ** More requests to the RPC handler *)

(** The instruction message [{"instruction_to_vlm_agent": "open edge"}]. *)
Definition no_user : RpcMsg :=
  {| user_id := Absent; prompt_id := Absent;
     instruction_to_vlm_agent := Given "open edge";
     enhanced_instruction := Absent |}.

Lemma request_without_user_witness :
  rpc_scenario (clicking_agent 10) no_arrivals 5 no_user (idle_world [])
  = (Ret (error_response "No user_id provided"), fresh_state (idle_world [])).
Proof.
  exact (request_without_user_changes_nothing unicode_sample bus_always_up json_rejects unit
           desktop_screen idle_actor (clicking_agent 10) one_step_executor
           no_arrivals (Returns 200) true twisted_refire 5 no_user
           (fresh_state (idle_world [])) eq_refl).
Defined.

(** A call of the RPC handler while the parser answers the probe with
    status 503. *)
Definition rpc_without_parser (msg : RpcMsg) (w : World)
    : Outcome RpcResponse Empty_set * LState :=
  handle_rpc_request unicode_sample bus_always_up json_rejects unit desktop_screen idle_actor
    (clicking_agent 10) one_step_executor no_arrivals (Returns 503) true
    twisted_refire 5 msg (fresh_state w).

Lemma invalid_setup_witness :
  (rpc_without_parser open_edge (idle_world [])).1
  = Ret (error_response
           "Validation errors: OmniParser Server is not responding")
  ∧ bus (world (rpc_without_parser open_edge (idle_world [])).2) = []
  ∧ active_sessions
      (app_state (world (rpc_without_parser open_edge (idle_world [])).2))
    = [("42", Some "7")].
Proof.
  destruct (invalid_setup_rejects_and_registers unicode_sample bus_always_up json_rejects
              unit desktop_screen idle_actor (clicking_agent 10)
              one_step_executor no_arrivals (Returns 503) true twisted_refire
              5 open_edge (fresh_state (idle_world [])) "42"
              eq_refl eq_refl eq_refl)
    as (Hanswer & Hstate & Hbus & _); [discriminate|].
  split; [exact Hanswer|]. split; [exact Hbus|].
  unfold rpc_without_parser. rewrite Hstate. reflexivity.
Defined.

(** A process in which a forced stop was handled: the process-wide flag
    and the flag of the token of the stopped request are up, and a
    per-task token is left. *)
Definition stopped_world : World :=
  {| app_state :=
       {| config := test_config; stop := true; cancellation_token := Some 0;
          task_tokens := Some {[ "42_7" := true ]}; active_sessions := [];
          messages := [UserText "open edge"] |};
     heap := [ {| tok_stop := true; tok_task_tokens := None |} ];
     bus := []; saved_json := [] |}.

(** The next request is accepted with the flags down and a token of its
    own. *)
Lemma accepted_request_witness :
  let s1 := (accept unicode_sample bus_always_up (Returns 200) open_edge
               (fresh_state stopped_world)).2 in
  stop (app_state (world s1)) = false
  ∧ cancellation_token (app_state (world s1)) = Some 1
  ∧ heap (world s1)
    = [ {| tok_stop := true; tok_task_tokens := None |};
        {| tok_stop := false; tok_task_tokens := None |} ]
  ∧ task_tokens (app_state (world s1)) = Some {[ "42_7" := true ]}.
Proof.
  destruct (accepted_request_starts_clean unicode_sample bus_always_up
              (Returns 200)
              open_edge (fresh_state stopped_world) _ 1 eq_refl)
    as (_ & Hheap & Hcur & Hstop & _ & _ & Htokens & _).
  split; [exact Hstop|]. split; [exact Hcur|].
  split; [exact Hheap|exact Htokens].
Defined.

(** The agent loop of task (42, 7) with the model name gpt-5. *)
Lemma unsupported_model_witness :
  sampling_loop_sync unicode_sample bus_always_up json_rejects unit desktop_screen
    idle_actor (clicking_agent 10) one_step_executor no_arrivals
    task_42_7 (Some 0) 5 "gpt-5" ready
  = (Exc (ValueError "Model gpt-5 not supported"),
     record (EvCheck false) ready).
Proof.
  assert (Hother : "gpt-5" ∉ omniparser_models).
  { apply (bool_decide_unpack _). vm_compute. exact I. }
  pose proof (unsupported_model_fails_after_first_check unicode_sample bus_always_up
                json_rejects unit desktop_screen idle_actor
                (clicking_agent 10) one_step_executor no_arrivals
                task_42_7 (Some 0) 5 "gpt-5" ready
                ltac:(discriminate) Hother) as H.
  exact (proj1 H).
Defined.

(** A worker configured for a model that the agent loop does not know. *)
Definition unsupported_world : World :=
  {| app_state :=
       {| config :=
            {| model := "gpt-5"; provider := "openai"; api_key := "sk-test";
               azure_resource_name := "";
               omniparser_server_url := "localhost:8000" |};
          stop := false; cancellation_token := None; task_tokens := None;
          active_sessions := [("9", Some "1")]; messages := [] |};
     heap := []; bus := []; saved_json := [] |}.

(** Two requests that no stop request disturbs: one whose loop returns
    after one action, and one whose loop raises for the model name. *)
Lemma undisturbed_request_witness :
  let done := rpc_scenario (clicking_agent 1) no_arrivals 5 open_edge
                (idle_world [("9", Some "1")]) in
  let failed := rpc_scenario (clicking_agent 1) no_arrivals 5 open_edge
                  unsupported_world in
  let registry (r : Outcome RpcResponse Empty_set * LState) :=
    active_sessions (app_state (world r.2)) in
  (status_of done = Some Success
   ∧ dict_get "42" (registry done) = None
   ∧ dict_get "9" (registry done) = Some (Some "1"))
  ∧ (message_of failed
     = Some "Error processing request: Model gpt-5 not supported"
     ∧ saved_json (world failed.2) = []
     ∧ dict_get "42" (registry failed) = Some (Some "7")
     ∧ dict_get "9" (registry failed) = Some (Some "1")).
Proof.
  cbv zeta. split.
  - pose proof (undisturbed_request_outcome unicode_sample bus_always_up json_rejects unit
                  desktop_screen idle_actor (clicking_agent 1)
                  one_step_executor no_arrivals (Returns 200) true
                  twisted_refire 3 open_edge
                  (fresh_state (idle_world [("9", Some "1")])) _ 0
                  (λ _, eq_refl) (λ _, eq_refl) eq_refl) as H.
    cbv zeta in H.
    match type of H with
    | match ?x with _ => _ end =>
        let v := eval vm_compute in x in
        assert (Hloop : x = v) by (vm_compute; reflexivity);
        set (outcome := x) in H, Hloop; clearbody outcome; subst outcome
    end.
    destruct H as (Hanswer & _ & Hregistry).
    unfold status_of, rpc_scenario, run_rpc.
    change {| world := idle_world [("9", Some "1")]; session := _;
              trace := [] |}
      with (fresh_state (idle_world [("9", Some "1")])).
    rewrite Hanswer, (Hregistry "42"), (Hregistry "9"). repeat split.
  - pose proof (undisturbed_request_outcome unicode_sample bus_always_up json_rejects unit
                  desktop_screen idle_actor (clicking_agent 1)
                  one_step_executor no_arrivals (Returns 200) true
                  twisted_refire 3 open_edge
                  (fresh_state unsupported_world) _ 0
                  (λ _, eq_refl) (λ _, eq_refl) eq_refl) as H.
    cbv zeta in H.
    match type of H with
    | match ?x with _ => _ end =>
        let v := eval vm_compute in x in
        assert (Hloop : x = v) by (vm_compute; reflexivity);
        set (outcome := x) in H, Hloop; clearbody outcome; subst outcome
    end.
    destruct H as (Hanswer & _ & Hsaved & Hregistry).
    unfold message_of, rpc_scenario, run_rpc.
    change {| world := unsupported_world; session := _; trace := [] |}
      with (fresh_state unsupported_world).
    rewrite Hanswer, Hsaved, (Hregistry "42"), (Hregistry "9").
    repeat split.
Defined.

(** The task that is stopped while its first decision is under way is
    answered with success: user 42 has left the registry, and the saved
    file holds the records of the answer. *)
Lemma success_answer_witness :
  let r := stopped_run [] in
  status_of r = Some Success
  ∧ dict_get "42" (active_sessions (app_state (world r.2))) = None
  ∧ ∃ name data, last (saved_json (world r.2)) = Some (name, data)
                 ∧ sd_messages data = extracted_responses (session r.2).
Proof.
  cbv zeta. unfold status_of, stopped_run, rpc_scenario.
  match goal with
  | |- context [ (?run).1 ] =>
      let v := eval vm_compute in (run.1) in
      assert (Hret : run.1 = v) by (vm_compute; reflexivity)
  end.
  destruct (success_answer_means unicode_sample bus_always_up json_rejects unit
              desktop_screen idle_actor (clicking_agent 10)
              one_step_executor (arrives_at 7 stop_user_42) (Returns 200)
              true twisted_refire 5 open_edge (idle_world [])
              _ Hret eq_refl)
    as (Hanswer & (uid & Huid & Hgone) & _ & Hsaved).
  injection Huid as <-.
  destruct (Hsaved eq_refl) as (name & data & Hlast & Hdata).
  split; [rewrite Hret; reflexivity|]. split; [exact Hgone|].
  exists name, data. split; [exact Hlast|].
  rewrite Hdata, Hanswer. reflexivity.
Defined.
(** A worker that was started without a configuration file, with the
    key of OpenAI in the environment and the address of the parser on
    the command line. *)
Definition unconfigured_world : World :=
  {| app_state :=
       {| config :=
            initial_config (load_config true None).1 (Some "localhost:8000")
                           (Some "sk-env") None;
          stop := false; cancellation_token := None; task_tokens := None;
          active_sessions := []; messages := [] |};
     heap := []; bus := []; saved_json := [] |}.

Lemma default_configuration_witness :
  let r := rpc_scenario (clicking_agent 10) no_arrivals 5 open_edge
             unconfigured_world in
  (∃ response, r.1 = Ret response ∧ rr_status response = Error
               ∧ bus (world r.2) = [])
  ∧ message_of r
    = Some ("Validation errors: LLM API Key is not set, "
            +:+ "Azure Resource Name is required when using Azure OpenAI").
Proof.
  split; [|reflexivity].
  exact (proj2 (default_configuration_serves_no_request unicode_sample bus_always_up
                  json_rejects unit desktop_screen idle_actor
                  (clicking_agent 10) one_step_executor no_arrivals
                  (Returns 200) true twisted_refire true None
                  (Some "localhost:8000") (Some "sk-env") None 5 open_edge
                  (fresh_state unconfigured_world)
                  ltac:(discriminate) eq_refl)).
Defined.

(** An executor whose call raises. *)
Definition failing_executor (time : nat) (tools : unit) (ms : list ChatMsg)
    : Reply (list ExecStep) :=
  Raises (ValueError "no such tool").

(** With the omniparser backend a request whose executor fails is
    answered with success, and [completed] is published. *)
Example failed_execution_is_reported_completed :
  let r := run_rpc unicode_sample bus_always_up json_rejects unit desktop_screen idle_actor
             (clicking_agent 10) failing_executor no_arrivals (Returns 200)
             true twisted_refire 5 open_edge (idle_world []) in
  status_of r = Some Success
  ∧ last (pub_status <$> bus (world r.2)) = Some Completed.
Proof. vm_compute. repeat split. Qed.

(** The stop button of the companion on a worker that runs the task of
    user 42: without a user data file nothing is stopped; with the file
    of another user the running task is cancelled. *)
Example stop_button_without_user_data :
  call_stop_api bus_always_up (Raises (ValueError "not serializable")) true
                NoFile (running_world [])
  = (running_world [], false).
Proof. vm_compute. reflexivity. Qed.

Example stop_button_of_another_user :
  let r := call_stop_api bus_always_up (Returns tt) true
             (UserData (Given "99") Absent) (running_world []) in
  r.2 = true
  ∧ heap r.1 = [ {| tok_stop := true; tok_task_tokens := None |} ]
  ∧ active_sessions (app_state r.1) = [("42", Some "7")].
Proof. vm_compute. repeat split. Qed.

(** C1 on the loop of task (42, 7), started with the flag of its token
    up: it ends at its first check and returns [None]. *)
Lemma cancellation_witness :
  (sampling_loop_sync unicode_sample bus_always_up json_rejects unit desktop_screen
     idle_actor (clicking_agent 10) one_step_executor no_arrivals
     task_42_7 (Some 0) 5 "omniparser + gpt-4o" (fresh_state stopped_world)).1
  = Ret None.
Proof.
  destruct (cancellation_within_one_phase unicode_sample bus_always_up json_rejects unit
              desktop_screen idle_actor (clicking_agent 10) one_step_executor
              no_arrivals task_42_7 (Some 0) 5 "omniparser + gpt-4o"
              (fresh_state stopped_world))
    as (events & _ & _ & _ & _ & _ & _ & Hstart & _).
  exact (proj1 (Hstart 0 {| tok_stop := true; tok_task_tokens := None |}
                  eq_refl eq_refl (or_introl eq_refl))).
Defined.

(** The same loop with the flag down runs its phases, each after a
    check that passed. *)
Example uncancelled_loop_runs :
  reverse (trace (sampling_loop_sync unicode_sample bus_always_up json_rejects unit
                    desktop_screen idle_actor (clicking_agent 0)
                    one_step_executor no_arrivals task_42_7 (Some 0) 5
                    "omniparser + gpt-4o" ready).2)
  = [EvCheck false; EvCheck false; EvCheck false; EvObserve; EvCheck false;
     EvDecide; EvCheck false].
Proof. vm_compute. reflexivity. Qed.

(** An API key made of a space and a no-break space is blank. *)
Example blank_api_key_is_not_set :
  valid_params unicode_sample (Returns 200) (Some "open edge")
    {| model := "omniparser + gpt-4o"; provider := "openai";
       api_key := " " +:+ no_break_space; azure_resource_name := "";
       omniparser_server_url := "localhost:8000" |}
  = ["LLM API Key is not set"].
Proof. vm_compute. reflexivity. Qed.

(** The characters of a text with letters outside ASCII. *)
Example chars_of_a_text :
  chars ("a" +:+ e_acute +:+ " " +:+ dotless_i)
  = ["a"; e_acute; " "; dotless_i].
Proof. vm_compute. reflexivity. Qed.
